(** * rally-live-maps: the KML track and icon extractor (class [KMLParser])

    A shallow embedding of [KMLParser] (parseKML, parseLineStrings,
    parsePoints, extractPlacemarkInfo, extractIconStyle, parseCoordinates,
    loadKMLFile, loadKMLFromURL) together with the parts of the JavaScript
    runtime it relies on:

    - strings are sequences of UTF-16 code units;
    - numbers are IEEE 754 binary64 values ([spec_float] at precision 53,
      maximal exponent 1024), with the operations of [SpecFloat];
    - the DOM is a finite tree of element, text and comment nodes;
    - arrays live in a store and are known by their address, so that the
      arrays a parser holds and the arrays of the value it returned are
      the same objects; the parser is the record of its two fields, and
      parser and store are threaded through the methods that assign or
      push to them;
    - [console.log] and [console.error] have no part in what the methods
      return and are left out. *)

From Stdlib Require Import Ascii String DecimalString.
From Stdlib Require Import List Bool Arith NArith ZArith Lia Sorted.
From Stdlib Require Import SpecFloat.
Import ListNotations.

Set Implicit Arguments.
Set Warnings "-register-all".

(* ================================================================== *)
(** ** JavaScript strings *)
(* ================================================================== *)

Module JSString.

(** A code unit; the values of interest are below 65536. *)
Definition char := N.

Definition t := list char.

(** The string with the code units of an ASCII literal. *)
Definition str (s : string) : t :=
  List.map N_of_ascii (list_ascii_of_string s).

Fixpoint eqb (a b : t) : bool :=
  match a, b with
  | [], [] => true
  | x :: a', y :: b' => N.eqb x y && eqb a' b'
  | _, _ => false
  end.

(** ToBoolean on a string: only the empty string is falsy. *)
Definition truthy (s : t) : bool :=
  match s with [] => false | _ :: _ => true end.

(** WhiteSpace and LineTerminator code points of ECMAScript: the set that
    [trim], [parseFloat] and the regular-expression class [\s] share. *)
Definition isWhiteSpace (c : char) : bool :=
  let eq k := N.eqb c k in
  (eq 9 || eq 10 || eq 11 || eq 12 || eq 13 || eq 32 || eq 160
   || eq 5760 || (N.leb 8192 c && N.leb c 8202)
   || eq 8232 || eq 8233 || eq 8239 || eq 8287 || eq 12288 || eq 65279)%N.

Fixpoint trimStart (s : t) : t :=
  match s with
  | [] => []
  | c :: r => if isWhiteSpace c then trimStart r else s
  end.

Fixpoint trimEnd (s : t) : t :=
  match s with
  | [] => []
  | c :: r =>
      match trimEnd r with
      | [] => if isWhiteSpace c then [] else [c]
      | r' => c :: r'
      end
  end.

(** [String.prototype.trim]. *)
Definition trim (s : t) : t := trimEnd (trimStart s).

(** [s.split(',')]: every occurrence of the separator ends a field; the
    result has one field more than there are separators. *)
Fixpoint split (sep : char) (s : t) : list t :=
  match s with
  | [] => [[]]
  | c :: r =>
      if N.eqb c sep then [] :: split sep r
      else match split sep r with
           | h :: tl => (c :: h) :: tl
           | [] => [[c]]
           end
  end.

(** [s.split(/\s+/)]: a maximal run of white space is one separator; a
    run at either end of the text leaves an empty string there.
    [inSep] says that the previous code unit belonged to a separator. *)
Fixpoint splitWs (inSep : bool) (s : t) : list t :=
  match s with
  | [] => [[]]
  | c :: r =>
      if isWhiteSpace c then
        if inSep then splitWs true r else [] :: splitWs true r
      else match splitWs false r with
           | h :: tl => (c :: h) :: tl
           | [] => [[c]]
           end
  end.

Definition splitWhitespace (s : t) : list t := splitWs false s.

(** [s.replace(pat, '')] for a one-unit string pattern: the first
    occurrence, wherever it is, is removed. *)
Fixpoint replaceFirst (pat : char) (s : t) : t :=
  match s with
  | [] => []
  | c :: r => if N.eqb c pat then r else c :: replaceFirst pat r
  end.

Fixpoint startsWith (p s : t) : bool :=
  match p, s with
  | [], _ => true
  | x :: p', y :: s' => N.eqb x y && startsWith p' s'
  | _ :: _, [] => false
  end.

(** Decimal rendering of a non-negative integer index, as a template
    literal renders it. *)
Definition ofNat (n : nat) : t :=
  str (NilEmpty.string_of_uint (Nat.to_uint n)).

End JSString.

Abbreviation jsstring := JSString.t.
Abbreviation str := JSString.str.
Arguments JSString.str s%_string.

(* ================================================================== *)
(** ** JavaScript numbers *)
(* ================================================================== *)

Module Number.

Definition t := spec_float.

Definition prec : Z := 53.
Definition emax : Z := 1024.

Definition NaN : t := S754_nan.

Definition isNaN (x : t) : bool :=
  match x with S754_nan => true | _ => false end.

Definition isFinite (x : t) : bool :=
  match x with S754_zero _ | S754_finite _ _ _ => true | _ => false end.

Definition mul (x y : t) : t := SFmul prec emax x y.
Definition div (x y : t) : t := SFdiv prec emax x y.

(** The Number value of the real [m * 10^k] for a natural [m]: the
    nearest binary64, ties to even, infinite beyond the range. *)
Definition ofDecimal (m : N) (k : Z) : t :=
  match m with
  | N0 => S754_zero false
  | Npos p =>
      if (0 <=? k)%Z then binary_normalize prec emax (Zpos p * 10 ^ k) 0 false
      else SFdiv prec emax (S754_finite false p 0)
                           (S754_finite false (Z.to_pos (10 ^ (- k))) 0)
  end.

Definition ofN (n : N) : t := ofDecimal n 0.

Definition neg (x : t) : t := SFopp x.

(** *** parseFloat *)

Definition isDigit (c : JSString.char) : bool := (N.leb 48 c && N.leb c 57)%N.

(** The longest run of decimal digits at the front, and what follows. *)
Fixpoint digits (s : jsstring) : jsstring * jsstring :=
  match s with
  | [] => ([], [])
  | c :: r => if isDigit c then let (d, rest) := digits r in (c :: d, rest)
              else ([], s)
  end.

Definition digitsValue (d : jsstring) : N :=
  fold_left (fun acc c => (10 * acc + (c - 48))%N) d 0%N.

(** An ExponentPart at the front of [s]: [e] or [E], an optional sign and
    at least one digit; [0] when there is none. *)
Definition exponentPart (s : jsstring) : Z :=
  match s with
  | c :: r =>
      if (N.eqb c 101 || N.eqb c 69)%N then
        let (sgn, r') := match r with
                         | 43%N :: r' => (false, r')
                         | 45%N :: r' => (true, r')
                         | _ => (false, r)
                         end in
        match fst (digits r') with
        | [] => 0%Z
        | d => let v := Z.of_N (digitsValue d) in if sgn then (- v)%Z else v
        end
      else 0%Z
  | [] => 0%Z
  end.

(** The longest prefix that is a StrUnsignedDecimalLiteral, as a value;
    [None] when no prefix is one. *)
Definition unsignedLiteral (s : jsstring) : option t :=
  if JSString.startsWith (str "Infinity") s then Some (S754_infinity false)
  else
    let (ip, r1) := digits s in
    match r1 with
    | 46%N :: r2 =>
        let (fp, r3) := digits r2 in
        match ip, fp with
        | [], [] => None
        | _, _ =>
            Some (ofDecimal (digitsValue (ip ++ fp))
                            (exponentPart r3 - Z.of_nat (length fp)))
        end
    | _ =>
        match ip with
        | [] => None
        | _ => Some (ofDecimal (digitsValue ip) (exponentPart r1))
        end
    end.

(** [parseFloat(s)]: leading white space is skipped, the longest prefix
    that is a StrDecimalLiteral is read, anything after it is ignored;
    NaN when there is no such prefix.  The value is the binary64 nearest
    to the literal, which is what engines compute; ECMAScript lets them
    drop digits after the twentieth. *)
Definition parseFloat (s : jsstring) : t :=
  match JSString.trimStart s with
  | 43%N :: u => match unsignedLiteral u with Some v => v | None => NaN end
  | 45%N :: u => match unsignedLiteral u with Some v => neg v | None => NaN end
  | u => match unsignedLiteral u with Some v => v | None => NaN end
  end.

End Number.

Abbreviation number := Number.t.
Abbreviation parseFloat := Number.parseFloat.
Abbreviation isNaN := Number.isNaN.

(* ================================================================== *)
(** ** The document tree *)
(* ================================================================== *)

Module DOM.

(** A node of a parsed XML document.  Text covers character data and
    CDATA sections.  The attributes of an element are kept as written. *)
Inductive node : Type :=
| Element (tagName : jsstring) (attributes : list (jsstring * jsstring))
          (childNodes : list node)
| Text (data : jsstring)
| Comment (data : jsstring).

(** A document is the sequence of its top-level nodes. *)
Definition Document := list node.

(** An element as reached from a document: the node and the elements
    around it, the parent first. *)
Record element : Type := mkElement { nodeOf : node; ancestors : list node }.

Definition hasTag (name : jsstring) (n : node) : bool :=
  match n with
  | Element t _ _ => JSString.eqb t name
  | _ => false
  end.

Definition children (n : node) : list node :=
  match n with Element _ _ cs => cs | _ => [] end.

Fixpoint getAttribute (name : jsstring) (attrs : list (jsstring * jsstring))
  : option jsstring :=
  match attrs with
  | [] => None
  | (k, v) :: rest => if JSString.eqb k name then Some v
                      else getAttribute name rest
  end.

(** [node.textContent]: the character data below the node in document
    order; comments inside an element do not contribute. *)
Fixpoint textContent (n : node) : jsstring :=
  match n with
  | Element _ _ cs =>
      flat_map (fun c => match c with
                         | Comment _ => []
                         | _ => textContent c
                         end) cs
  | Text d => d
  | Comment d => d
  end.

(** The element [n] and the elements below it in document order, each
    with its ancestors; [anc] are the ancestors of [n]. *)
Fixpoint elementsFrom (anc : list node) (n : node) : list element :=
  match n with
  | Element _ _ cs =>
      mkElement n anc :: flat_map (elementsFrom (n :: anc)) cs
  | _ => []
  end.

Definition documentElements (doc : Document) : list element :=
  flat_map (elementsFrom []) doc.

(** [document.getElementsByTagName(name)]. *)
Definition getElementsByTagName (doc : Document) (name : jsstring)
  : list element :=
  filter (fun e => hasTag name (nodeOf e)) (documentElements doc).

(** [element.getElementsByTagName(name)]: the descendants of the element,
    not the element itself. *)
Module Element.
Definition getElementsByTagName (n : node) (name : jsstring) : list node :=
  filter (hasTag name)
         (List.map nodeOf (flat_map (elementsFrom []) (children n))).
End Element.

(** [element.closest(name)] for a type selector: the element itself or
    its nearest ancestor with that tag. *)
Definition closest (e : element) (name : jsstring) : option node :=
  find (hasTag name) (nodeOf e :: ancestors e).

Definition hasId (id : jsstring) (n : node) : bool :=
  match n with
  | Element _ attrs _ =>
      match getAttribute (str "id") attrs with
      | Some v => JSString.eqb v id
      | None => false
      end
  | _ => false
  end.

(** [document.getElementById(id)]: the first element in document order
    whose id is [id]; an empty id is the id of no element. *)
Definition getElementById (doc : Document) (id : jsstring) : option node :=
  match id with
  | [] => None
  | _ => find (hasId id) (List.map nodeOf (documentElements doc))
  end.

(** Builders for literal documents. *)
Definition elem (tag : string) (cs : list node) : node :=
  Element (str tag) [] cs.
Definition elemId (tag id : string) (cs : list node) : node :=
  Element (str tag) [(str "id", str id)] cs.
Definition text (s : string) : node := Text (str s).
Definition leaf (tag s : string) : node := elem tag [text s].

End DOM.

Import DOM.

(* ================================================================== *)
(** ** The parser *)
(* ================================================================== *)

(** [{ lat, lon, alt }] *)
Record Point : Type := mkPoint { lat : number; lon : number; alt : number }.

Module Track.
Record t : Type := mk {
  name : jsstring;
  description : option jsstring;
  points : list Point;
  originalIndex : nat;
  style : option jsstring
}.
End Track.

Module Icon.
Record t : Type := mk {
  name : jsstring;
  description : option jsstring;
  position : Point;
  originalIndex : nat;
  iconUrl : option jsstring;
  iconSize : option (number * number);
  iconAnchor : option (number * number);
  style : option jsstring
}.
End Icon.

(** What [extractPlacemarkInfo] returns; [None] is JavaScript's [null]. *)
Record PlacemarkInfo : Type := mkInfo {
  infoName : option jsstring;
  infoDescription : option jsstring;
  infoStyle : option jsstring
}.

(** What [extractIconStyle] returns. *)
Record IconStyle : Type := mkStyle {
  iconUrl : option jsstring;
  iconSize : option (number * number);
  iconAnchor : option (number * number)
}.

(** Arrays are objects: the parser and the value it returns hold the
    same array, not copies of it.  The store holds the arrays of tracks and
    of icons that have been created, each known by its address. *)
Definition address := nat.

Record Store : Type := mkStore {
  trackArrays : list (list Track.t);
  iconArrays : list (list Icon.t)
}.

(** The fields of a [KMLParser] object: the addresses of its two arrays. *)
Record KMLParser : Type := mkParser {
  tracks : address;
  icons : address
}.

(** The value [parseKML] returns: [{ tracks, icons }], two addresses. *)
Record Result : Type := mkResult {
  resTracks : address;
  resIcons : address
}.

(** [l[a] = f(l[a])].  Every address handed out is below the length of
    its list, so the case beyond it does not arise. *)
Fixpoint update {A : Type} (a : address) (f : A -> A) (l : list A) : list A :=
  match l, a with
  | [], _ => []
  | x :: r, 0 => f x :: r
  | x :: r, S a' => x :: update a' f r
  end.

(** [[]] evaluated: a new empty array. *)
Definition newTrackArray (st : Store) : address * Store :=
  (length (trackArrays st), mkStore (trackArrays st ++ [[]]) (iconArrays st)).

Definition newIconArray (st : Store) : address * Store :=
  (length (iconArrays st), mkStore (trackArrays st) (iconArrays st ++ [[]])).

(** [array.push(x)] *)
Definition pushTrack (a : address) (t : Track.t) (st : Store) : Store :=
  mkStore (update a (fun arr => arr ++ [t]) (trackArrays st)) (iconArrays st).

Definition pushIcon (a : address) (c : Icon.t) (st : Store) : Store :=
  mkStore (trackArrays st) (update a (fun arr => arr ++ [c]) (iconArrays st)).

(** The arrays behind a result, read from a store. *)
Definition tracksOf (st : Store) (r : Result) : list Track.t :=
  nth (resTracks r) (trackArrays st) [].

Definition iconsOf (st : Store) (r : Result) : list Icon.t :=
  nth (resIcons r) (iconArrays st) [].

(** [new KMLParser()] *)
Definition construct (st : Store) : KMLParser * Store :=
  let (a, st) := newTrackArray st in
  let (b, st) := newIconArray st in
  (mkParser a b, st).

(** [a || b] where [a] is a string or [null] and [b] a string. *)
Definition orElse (a : option jsstring) (b : jsstring) : jsstring :=
  match a with
  | Some s => if JSString.truthy s then s else b
  | None => b
  end.

(** [!a] where [a] is a string or [null]. *)
Definition falsy (a : option jsstring) : bool :=
  match a with
  | Some s => negb (JSString.truthy s)
  | None => true
  end.

Definition comma : JSString.char := 44%N.
Definition hash : JSString.char := 35%N.

(** One round of the loop of [parseCoordinates]: [points] after [coord]. *)
Definition parseCoordinates_step (points : list Point) (coord : jsstring)
  : list Point :=
  if JSString.truthy (JSString.trim coord) then
    let parts := JSString.split comma coord in
    if 2 <=? length parts then
      let lon := parseFloat (nth 0 parts []) in
      let lat := parseFloat (nth 1 parts []) in
      let alt := if 2 <? length parts then parseFloat (nth 2 parts [])
                 else Number.ofN 0 in
      if negb (isNaN lon) && negb (isNaN lat) && negb (isNaN alt)
      then points ++ [mkPoint lat lon alt]
      else points
    else points
  else points.

Definition parseCoordinates (coordinatesText : jsstring) : list Point :=
  let coords := JSString.splitWhitespace coordinatesText in
  fold_left parseCoordinates_step coords [].

(** [element.getElementsByTagName(name)[0]] *)
Definition firstByTagName (n : node) (name : string) : option node :=
  hd_error (Element.getElementsByTagName n (str name)).

Definition extractPlacemarkInfo (placemark : option node) (index : nat)
  : PlacemarkInfo :=
  let info := mkInfo None None None in
  match placemark with
  | Some placemark =>
      let info :=
        match firstByTagName placemark "name" with
        | Some nameElement =>
            mkInfo (Some (JSString.trim (textContent nameElement)))
                   (infoDescription info) (infoStyle info)
        | None => info
        end in
      let info :=
        match firstByTagName placemark "description" with
        | Some descElement =>
            mkInfo (infoName info)
                   (Some (JSString.trim (textContent descElement)))
                   (infoStyle info)
        | None => info
        end in
      let info :=
        match firstByTagName placemark "styleUrl" with
        | Some styleUrlElement =>
            mkInfo (infoName info) (infoDescription info)
                   (Some (JSString.trim (textContent styleUrlElement)))
        | None => info
        end in
      info
  | None => info
  end.

Definition baseSize : number := Number.ofN 32.
Definition two : number := Number.ofN 2.

(** The statements run on an [IconStyle] element once it is found; the
    method has them twice, for the inline and for the referenced style:
    the [href] of its [Icon] goes to [iconUrl], a [scale] that is a number
    sets [iconSize] and [iconAnchor]. *)
Definition readIconStyle (iconStyle : node) (style : IconStyle) : IconStyle :=
  let style :=
    match firstByTagName iconStyle "Icon" with
    | Some icon =>
        match firstByTagName icon "href" with
        | Some href =>
            mkStyle (Some (JSString.trim (textContent href)))
                    (iconSize style) (iconAnchor style)
        | None => style
        end
    | None => style
    end in
  match firstByTagName iconStyle "scale" with
  | Some scale =>
      let scaleValue := parseFloat (textContent scale) in
      if negb (isNaN scaleValue) then
        mkStyle (iconUrl style)
                (Some (Number.mul baseSize scaleValue,
                       Number.mul baseSize scaleValue))
                (Some (Number.div (Number.mul baseSize scaleValue) two,
                       Number.div (Number.mul baseSize scaleValue) two))
      else style
  | None => style
  end.

(** [placemark.ownerDocument] is the document [doc] being parsed. *)
Definition extractIconStyle (doc : Document) (placemark : option node)
  : IconStyle :=
  let style := mkStyle None None None in
  match placemark with
  | None => style
  | Some placemark =>
      let style :=
        match firstByTagName placemark "Style" with
        | Some styleElement =>
            match firstByTagName styleElement "IconStyle" with
            | Some iconStyle => readIconStyle iconStyle style
            | None => style
            end
        | None => style
        end in
      if falsy (iconUrl style) then
        match firstByTagName placemark "styleUrl" with
        | Some styleUrl =>
            let styleId :=
              JSString.replaceFirst hash (JSString.trim (textContent styleUrl)) in
            match getElementById doc styleId with
            | Some referencedStyle =>
                match firstByTagName referencedStyle "IconStyle" with
                | Some iconStyle => readIconStyle iconStyle style
                | None => style
                end
            | None => style
            end
        | None => style
        end
      else style
  end.

(** The loop of [parseLineStrings] from index [i] on, [lineStrings] being
    the elements at [i], [i+1], ... of the collection. *)
Fixpoint parseLineStrings_from (i : nat) (lineStrings : list element)
  (this : KMLParser) (st : Store) : Store :=
  match lineStrings with
  | [] => st
  | lineString :: rest =>
      let st :=
        match firstByTagName (nodeOf lineString) "coordinates" with
        | Some coordinatesElement =>
            if JSString.truthy (JSString.trim (textContent coordinatesElement))
            then
              let coordinatesText :=
                JSString.trim (textContent coordinatesElement) in
              let points := parseCoordinates coordinatesText in
              if 0 <? length points then
                let placemark := closest lineString (str "Placemark") in
                let trackInfo := extractPlacemarkInfo placemark i in
                pushTrack (tracks this)
                  (Track.mk
                     (orElse (infoName trackInfo)
                             (str "Track " ++ JSString.ofNat (i + 1)))
                     (infoDescription trackInfo)
                     points
                     i
                     (infoStyle trackInfo))
                  st
              else st
            else st
        | None => st
        end in
      parseLineStrings_from (S i) rest this st
  end.

Definition parseLineStrings (kmlDoc : Document) (this : KMLParser)
  (st : Store) : Store :=
  let lineStrings := getElementsByTagName kmlDoc (str "LineString") in
  parseLineStrings_from 0 lineStrings this st.

(** The loop of [parsePoints].  [coords.length > 0] is the match on a
    non-empty [coords], whose head is [coords[0]]. *)
Fixpoint parsePoints_from (kmlDoc : Document) (i : nat)
  (points : list element) (this : KMLParser) (st : Store) : Store :=
  match points with
  | [] => st
  | point :: rest =>
      let st :=
        match firstByTagName (nodeOf point) "coordinates" with
        | Some coordinatesElement =>
            if JSString.truthy (JSString.trim (textContent coordinatesElement))
            then
              let coordinatesText :=
                JSString.trim (textContent coordinatesElement) in
              let coords := parseCoordinates coordinatesText in
              match coords with
              | first :: _ =>
                  let placemark := closest point (str "Placemark") in
                  let iconInfo := extractPlacemarkInfo placemark i in
                  let iconStyle := extractIconStyle kmlDoc placemark in
                  pushIcon (icons this)
                    (Icon.mk
                       (orElse (infoName iconInfo)
                               (str "Point " ++ JSString.ofNat (i + 1)))
                       (infoDescription iconInfo)
                       first
                       i
                       (iconUrl iconStyle)
                       (iconSize iconStyle)
                       (iconAnchor iconStyle)
                       (infoStyle iconInfo))
                    st
              | [] => st
              end
            else st
        | None => st
        end in
      parsePoints_from kmlDoc (S i) rest this st
  end.

Definition parsePoints (kmlDoc : Document) (this : KMLParser) (st : Store)
  : Store :=
  let points := getElementsByTagName kmlDoc (str "Point") in
  parsePoints_from kmlDoc 0 points this st.

(** [parseKML]: the returned object, the parser and the store afterwards.
    The two arrays of the result are the ones the parser keeps. *)
Definition parseKML (kmlDoc : Document) (this : KMLParser) (st : Store)
  : Result * KMLParser * Store :=
  let (a, st) := newTrackArray st in
  let this := mkParser a (icons this) in
  let (b, st) := newIconArray st in
  let this := mkParser (tracks this) b in
  let st := parseLineStrings kmlDoc this st in
  let st := parsePoints kmlDoc this st in
  (mkResult (tracks this) (icons this), this, st).

(** *** Loading *)

(** A value thrown or a reason of rejection. *)
Inductive exn : Type :=
| Error (message : jsstring)
| Failure (reason : jsstring).

(** How an awaited promise settles. *)
Inductive settled (A : Type) : Type :=
| Fulfilled (value : A)
| Rejected (reason : exn).
Arguments Fulfilled {A} value.
Arguments Rejected {A} reason.

(** A [File]: what [file.text()] settles to. *)
Record File : Type := mkFile { fileText : settled jsstring }.

(** A [Response]: its status line and what [response.text()] settles to. *)
Record Response : Type := mkResponse {
  ok : bool;
  status : nat;
  statusText : jsstring;
  responseText : settled jsstring
}.

Section Loading.

(** [new DOMParser().parseFromString(text, 'text/xml')]: the browser's
    XML parser.  On text that is not well-formed it returns a document
    with a [parsererror] element. *)
Variable parseFromString : jsstring -> Document.

(** [fetch(url)] *)
Variable fetch : jsstring -> settled Response.

(** The part both loaders share after the text has arrived. *)
Definition loadText (text : jsstring) (this : KMLParser) (st : Store)
  : settled Result * KMLParser * Store :=
  let kmlDoc := parseFromString text in
  let parseError := hd_error (getElementsByTagName kmlDoc (str "parsererror")) in
  match parseError with
  | Some _ => (Rejected (Error (str "Invalid KML file format")), this, st)
  | None => let '(r, this, st) := parseKML kmlDoc this st in
            (Fulfilled r, this, st)
  end.

(** The [catch] blocks log the error and throw it again, so a failure
    inside [try] is the failure of the call. *)
Definition loadKMLFile (file : File) (this : KMLParser) (st : Store)
  : settled Result * KMLParser * Store :=
  match fileText file with
  | Rejected e => (Rejected e, this, st)
  | Fulfilled text => loadText text this st
  end.

Definition loadKMLFromURL (url : jsstring) (this : KMLParser) (st : Store)
  : settled Result * KMLParser * Store :=
  match fetch url with
  | Rejected e => (Rejected e, this, st)
  | Fulfilled response =>
      if negb (ok response) then
        (Rejected (Error (str "HTTP " ++ JSString.ofNat (status response)
                          ++ str ": " ++ statusText response)), this, st)
      else
        match responseText response with
        | Rejected e => (Rejected e, this, st)
        | Fulfilled text => loadText text this st
        end
  end.

End Loading.

(* ================================================================== *)
(** ** Views used to state the properties *)
(* ================================================================== *)

(** The test the loop of [parseCoordinates] applies to a piece. *)
Definition kept (coord : jsstring) : bool :=
  JSString.truthy (JSString.trim coord).

(** The tuples of a coordinate text: the pieces between runs of white
    space that the loop of [parseCoordinates] does not skip. *)
Definition tuples (coordinatesText : jsstring) : list jsstring :=
  filter kept (JSString.splitWhitespace coordinatesText).

Definition fields (coord : jsstring) : list jsstring :=
  JSString.split comma coord.

Definition field (k : nat) (coord : jsstring) : jsstring :=
  nth k (fields coord) [].

(** The text is numeric: once leading white space is skipped, it starts
    with a StrDecimalLiteral, whatever follows. *)
Definition numeric (s : jsstring) : bool :=
  let literal u := match Number.unsignedLiteral u with
                   | Some _ => true
                   | None => false
                   end in
  match JSString.trimStart s with
  | 43%N :: u => literal u
  | 45%N :: u => literal u
  | u => literal u
  end.

(** The altitude of a tuple: its third field, or 0 when it has two. *)
Definition altitude (coord : jsstring) : number :=
  if 2 <? length (fields coord) then parseFloat (field 2 coord)
  else Number.ofN 0.

(** A tuple is accepted when it has two fields or more and none of
    longitude, latitude and altitude is NaN. *)
Definition accepted (coord : jsstring) : bool :=
  (2 <=? length (fields coord))
  && negb (isNaN (parseFloat (field 0 coord)))
  && negb (isNaN (parseFloat (field 1 coord)))
  && negb (isNaN (altitude coord)).

Definition pointOf (coord : jsstring) : Point :=
  mkPoint (parseFloat (field 1 coord)) (parseFloat (field 0 coord))
          (altitude coord).

Definition noWhiteSpace (s : jsstring) : Prop :=
  Forall (fun c => JSString.isWhiteSpace c = false) s.

(** Empty or made of white space only. *)
Definition blank (s : jsstring) : Prop :=
  Forall (fun c => JSString.isWhiteSpace c = true) s.

(** The points of a geometry element when the guards of the two loops let
    it through: a [coordinates] descendant whose trimmed text is not empty
    and parses to at least one point. *)
Definition geometryPoints (geometry : node) : option (list Point) :=
  match firstByTagName geometry "coordinates" with
  | Some coordinatesElement =>
      if JSString.truthy (JSString.trim (textContent coordinatesElement)) then
        match parseCoordinates (JSString.trim (textContent coordinatesElement)) with
        | [] => None
        | points => Some points
        end
      else None
  | None => None
  end.

Definition emits (e : element) : bool :=
  match geometryPoints (nodeOf e) with Some _ => true | None => false end.

(** The [coordinates] text of a geometry element is absent, empty or
    white space only. *)
Definition blankCoordinates (geometry : node) : Prop :=
  match firstByTagName geometry "coordinates" with
  | Some coordinatesElement => blank (textContent coordinatesElement)
  | None => True
  end.

(** The track pushed for the [LineString] at index [i]. *)
Definition trackAt (i : nat) (lineString : element) (points : list Point)
  : Track.t :=
  let trackInfo :=
    extractPlacemarkInfo (closest lineString (str "Placemark")) i in
  Track.mk (orElse (infoName trackInfo) (str "Track " ++ JSString.ofNat (i + 1)))
           (infoDescription trackInfo) points i (infoStyle trackInfo).

Definition trackOf (i : nat) (lineString : element) : option Track.t :=
  option_map (trackAt i lineString) (geometryPoints (nodeOf lineString)).

(** The icon pushed for the [Point] at index [i]. *)
Definition iconAt (doc : Document) (i : nat) (point : element) (first : Point)
  : Icon.t :=
  let placemark := closest point (str "Placemark") in
  let iconInfo := extractPlacemarkInfo placemark i in
  let iconStyle := extractIconStyle doc placemark in
  Icon.mk (orElse (infoName iconInfo) (str "Point " ++ JSString.ofNat (i + 1)))
          (infoDescription iconInfo) first i
          (iconUrl iconStyle) (iconSize iconStyle) (iconAnchor iconStyle)
          (infoStyle iconInfo).

Definition iconOf (doc : Document) (i : nat) (point : element)
  : option Icon.t :=
  match geometryPoints (nodeOf point) with
  | Some (first :: _) => Some (iconAt doc i point first)
  | _ => None
  end.

(** The tracks and the icons behind the value [parseKML] returns, read
    when it returns. *)
Definition returnedTracks (doc : Document) (this : KMLParser) (st : Store)
  : list Track.t :=
  let '(r, _, st') := parseKML doc this st in tracksOf st' r.

Definition returnedIcons (doc : Document) (this : KMLParser) (st : Store)
  : list Icon.t :=
  let '(r, _, st') := parseKML doc this st in iconsOf st' r.

(** The elements of a collection with their indices. *)
Definition indexedFrom (i : nat) (l : list element) : list (nat * element) :=
  combine (seq i (length l)) l.

Definition collect {A : Type} (f : nat -> element -> option A)
  (l : list (nat * element)) : list A :=
  flat_map (fun p => match f (fst p) (snd p) with
                     | Some a => [a]
                     | None => []
                     end) l.

(** The [IconStyle] element of the inline [Style] of a placemark. *)
Definition inlineIconStyle (placemark : node) : option node :=
  match firstByTagName placemark "Style" with
  | Some styleElement => firstByTagName styleElement "IconStyle"
  | None => None
  end.

(** The trimmed text of the [styleUrl] of a placemark. *)
Definition styleReference (placemark : node) : option jsstring :=
  option_map (fun e => JSString.trim (textContent e))
             (firstByTagName placemark "styleUrl").

(** The trimmed [href] of the [Icon] of an [IconStyle] element. *)
Definition hrefOf (iconStyle : node) : option jsstring :=
  match firstByTagName iconStyle "Icon" with
  | Some icon => option_map (fun h => JSString.trim (textContent h))
                            (firstByTagName icon "href")
  | None => None
  end.

(** The [scale] of an [IconStyle] element when it is a number. *)
Definition scaleOf (iconStyle : node) : option number :=
  match firstByTagName iconStyle "scale" with
  | Some scale =>
      let v := parseFloat (textContent scale) in
      if isNaN v then None else Some v
  | None => None
  end.

Definition sizeFor (s : number) : number * number :=
  (Number.mul baseSize s, Number.mul baseSize s).

Definition anchorFor (s : number) : number * number :=
  (Number.div (Number.mul baseSize s) two,
   Number.div (Number.mul baseSize s) two).

(** A reference that starts with [#] or has no [#] at all. *)
Definition leadingHashOrNone (r : jsstring) : Prop :=
  (exists r' : jsstring, r = hash :: r') \/ ~ In hash r.

(** The reference without a leading [#]. *)
Definition stripLeadingHash (r : jsstring) : jsstring :=
  match r with
  | c :: r' => if N.eqb c hash then r' else r
  | [] => []
  end.

(** The style after the inline pass of [extractIconStyle]: what the
    [IconStyle] of the inline [Style] gives, nothing when there is none. *)
Definition inlineStyle (placemark : node) : IconStyle :=
  match inlineIconStyle placemark with
  | Some iconStyle => readIconStyle iconStyle (mkStyle None None None)
  | None => mkStyle None None None
  end.

(** The inline pass left no icon URL: no inline [IconStyle], none with an
    [href], or an [href] that is empty once trimmed. *)
Definition noInlineIconUrl (placemark : node) : bool :=
  match inlineIconStyle placemark with
  | Some iconStyle => falsy (hrefOf iconStyle)
  | None => true
  end.

(** The [IconStyle] of the element that the [styleUrl] of a placemark
    resolves to. *)
Definition referencedIconStyle (doc : Document) (placemark : node)
  : option node :=
  match styleReference placemark with
  | Some r =>
      match getElementById doc (JSString.replaceFirst hash r) with
      | Some referencedStyle => firstByTagName referencedStyle "IconStyle"
      | None => None
      end
  | None => None
  end.

Definition bindScale (iconStyle : option node) : option number :=
  match iconStyle with
  | Some iconStyle => scaleOf iconStyle
  | None => None
  end.

(** The scale of the inline [IconStyle], when it is a number. *)
Definition inlineScale (placemark : node) : option number :=
  bindScale (inlineIconStyle placemark).

(** The scale of the referenced [IconStyle], when that style is consulted
    and the scale is a number. *)
Definition referencedScale (doc : Document) (placemark : node)
  : option number :=
  if noInlineIconUrl placemark
  then bindScale (referencedIconStyle doc placemark)
  else None.

(* ================================================================== *)
(** ** Sample documents *)
(* ================================================================== *)

Definition threeLineStrings : Document :=
  [elem "kml"
     [elem "Document"
        [elem "Placemark"
           [leaf "name" "Stage 1";
            elem "LineString" [leaf "coordinates" "17.63,47.69,120 17.64,47.70"]];
         elem "Placemark"
           [leaf "name" "Stage 2";
            elem "LineString" [leaf "coordinates" "  "]];
         elem "Placemark"
           [leaf "name" "  ";
            elem "LineString" [leaf "coordinates" "17.70,47.80 17.71,47.81"]]]]].

Definition bareGeometry : Document :=
  [elem "kml"
     [elem "LineString" [leaf "coordinates" "17.63,47.69,120 17.64,47.70"];
      elem "Point" [leaf "coordinates" "1,2"];
      elem "Point" [leaf "coordinates" "17.63,47.69"]]].

(** A parser just constructed, in a store with nothing else. *)
Definition newParser : KMLParser := fst (construct (mkStore [] [])).
Definition newStore : Store := snd (construct (mkStore [] [])).

(** A placemark with a [Point], an inline [IconStyle] that has a scale and
    no [href], and a [styleUrl]. *)
Definition scaledPlacemark (scale styleUrl : string) : node :=
  elem "Placemark"
    [elem "Style" [elem "IconStyle" [leaf "scale" scale]];
     leaf "styleUrl" styleUrl;
     elem "Point" [leaf "coordinates" "17.63,47.69"]].

Definition sharedStyle (id : string) (extra : list node) : node :=
  elemId "Style" id
    [elem "IconStyle" (elem "Icon" [leaf "href" "icon.png"] :: extra)].

(** Inline scale 2 without [href]; [#s1] resolves to a style with
    [href] icon.png and no scale. *)
Definition scaledIconDocument : Document :=
  [elem "kml" [elem "Document"
     [sharedStyle "s1" []; scaledPlacemark "2" "#s1"]]].

(** The same with scale 3 in the referenced style. *)
Definition twoScalesDocument : Document :=
  [elem "kml" [elem "Document"
     [sharedStyle "s1" [leaf "scale" "3"]; scaledPlacemark "2" "#s1"]]].

(** The same with a reference that resolves to nothing. *)
Definition danglingReferenceDocument : Document :=
  [elem "kml" [elem "Document"
     [sharedStyle "s1" []; scaledPlacemark "2" "#s2"]]].

(** An inline scale so large that 32 times it is beyond the range. *)
Definition hugeScaleDocument : Document :=
  [elem "kml" [elem "Document" [scaledPlacemark "1e307" "#s1"]]].

(** A placemark whose inline [IconStyle] has its own [href] and scale 2,
    next to a [styleUrl] that resolves to a style with scale 3. *)
Definition inlineIconDocument : Document :=
  [elem "kml" [elem "Document"
     [sharedStyle "s1" [leaf "scale" "3"];
      elem "Placemark"
        [elem "Style"
           [elem "IconStyle" [elem "Icon" [leaf "href" " pin.png "];
                              leaf "scale" "2"]];
         leaf "styleUrl" "#s1";
         elem "Point" [leaf "coordinates" "17.63,47.69"]]]]].

(** Placemarks whose name is empty or white space. *)
Definition unnamedPlacemarks : Document :=
  [elem "kml" [elem "Document"
     [elem "Placemark"
        [leaf "name" "   "; elem "Point" [leaf "coordinates" "17.63,47.69"]];
      elem "Placemark"
        [elem "name" [];
         elem "LineString" [leaf "coordinates" "17.63,47.69 17.64,47.70"]]]]].

(** The element at index [i] of a collection. *)
Definition item (l : list element) (i : nat) : element :=
  nth i l (mkElement (Text []) []).

(** The first [Placemark] of a document. *)
Definition firstPlacemark (doc : Document) : node :=
  nodeOf (item (getElementsByTagName doc (str "Placemark")) 0).

(** A parser of text that reports every text as not well-formed, and a
    server that answers every request with status 200. *)
Definition rejectingParser (text : jsstring) : Document :=
  [elem "parsererror" [DOM.text "error on line 1"]].

Definition answeringFetch (url : jsstring) : settled Response :=
  Fulfilled (mkResponse true 200 (str "OK") (Fulfilled (str "<kml>"))).

(* ================================================================== *)
(** ** The accessors of the parser *)
(* ================================================================== *)

(** The array at an address. *)
Definition trackArray (st : Store) (a : address) : list Track.t :=
  nth a (trackArrays st) [].

Definition iconArray (st : Store) (a : address) : list Icon.t :=
  nth a (iconArrays st) [].

(** [getTracks()] and [getIcons()] return the arrays the parser holds. *)
Definition getTracks (this : KMLParser) : address := tracks this.

Definition getIcons (this : KMLParser) : address := icons this.

(** [array[index]] for an integer index: nothing below 0 or from the
    length on. *)
Definition at_ {A : Type} (arr : list A) (index : Z) : option A :=
  if (index <? 0)%Z then None else nth_error arr (Z.to_nat index).

(** [getTrack(index)]: [this.tracks[index] || null].  A track is an
    object, so it is never replaced by [null]. *)
Definition getTrack (index : Z) (this : KMLParser) (st : Store)
  : option Track.t :=
  at_ (trackArray st (tracks this)) index.

Definition getIcon (index : Z) (this : KMLParser) (st : Store)
  : option Icon.t :=
  at_ (iconArray st (icons this)) index.

(** [getTrackByName(name)]: [this.tracks.find(track => track.name === name)
    || null]. *)
Definition getTrackByName (name : jsstring) (this : KMLParser) (st : Store)
  : option Track.t :=
  find (fun track => JSString.eqb (Track.name track) name)
       (trackArray st (tracks this)).

Definition getIconByName (name : jsstring) (this : KMLParser) (st : Store)
  : option Icon.t :=
  find (fun icon => JSString.eqb (Icon.name icon) name)
       (iconArray st (icons this)).

(** [clear()] *)
Definition clear (this : KMLParser) (st : Store) : KMLParser * Store :=
  let (a, st) := newTrackArray st in
  let this := mkParser a (icons this) in
  let (b, st) := newIconArray st in
  let this := mkParser (tracks this) b in
  (this, st).

(** A point none of whose coordinates is NaN. *)
Definition isNumber (x : number) : Prop := isNaN x = false.

Definition numericPoint (p : Point) : Prop :=
  isNumber (lat p) /\ isNumber (lon p) /\ isNumber (alt p).

(** The addresses in use in a store. *)
Definition allocated (st : Store) (r : Result) : Prop :=
  resTracks r < length (trackArrays st) /\ resIcons r < length (iconArrays st).

(** The size and the anchor of an icon style go together. *)
Definition sizeAndAnchor (size anchor : option (number * number)) : Prop :=
  (size = None /\ anchor = None)
  \/ exists w : number,
       size = Some (w, w)
       /\ anchor = Some (Number.div w two, Number.div w two).

(** A parser of text that returns the sample document with three
    [LineString] elements for every text. *)
Definition sampleParser (text : jsstring) : Document := threeLineStrings.

(* ================================================================== *)
(** ** Numbers of the display: comparison, rounding, clamping *)
(* ================================================================== *)

Module JSMath.

(** [Math.min(a, b)] and [Math.max(a, b)]: NaN when either is NaN; of the
    two zeros the negative one is the smaller. *)
Definition min (a b : number) : number :=
  match SFcompare a b with
  | Some Lt => a
  | Some Gt => b
  | Some Eq =>
      match a, b with
      | S754_zero sa, S754_zero sb => S754_zero (sa || sb)
      | _, _ => a
      end
  | None => Number.NaN
  end.

Definition max (a b : number) : number :=
  match SFcompare a b with
  | Some Lt => b
  | Some Gt => a
  | Some Eq =>
      match a, b with
      | S754_zero sa, S754_zero sb => S754_zero (sa && sb)
      | _, _ => a
      end
  | None => Number.NaN
  end.

(** [Math.round(x)]: the nearest integer, the greater one of two that are
    equally near; NaN, the infinities, the zeros and the integers are
    returned as they are, and a result of zero keeps the sign of [x]. *)
Definition round (x : number) : number :=
  match x with
  | S754_finite s m e =>
      if (0 <=? e)%Z then x
      else
        let d := (2 ^ (- e))%Z in
        let n := if s then ((2 * Zpos m + d - 1) / (2 * d))%Z
                 else ((2 * Zpos m + d) / (2 * d))%Z in
        match n with
        | Z0 => S754_zero s
        | _ => binary_normalize Number.prec Number.emax
                 (if s then (- n)%Z else n) 0 false
        end
  | _ => x
  end.

End JSMath.

Definition hundred : number := Number.ofN 100.
Definition zero : number := S754_zero false.

(* ================================================================== *)
(** ** The map library, as far as the manager uses it *)
(* ================================================================== *)

Definition newline : jsstring := [10%N].
Definition spaces (n : nat) : jsstring := repeat 32%N n.
Definition quote : jsstring := [34%N].

Module L.

(** [L.tileLayer(url, options)].  Layers are objects; [tileId] tells one
    tile layer from another.  A field read from something that is not a
    map type entry is [undefined], here [None]. *)
Record TileLayer : Type := mkTileLayer {
  tileId : nat;
  tileUrl : option jsstring;
  tileAttribution : option jsstring;
  tileMaxZoom : option number;
  tileOpacity : number
}.

(** [L.polyline(latlngs, options)] with the popup bound to it. *)
Record Polyline : Type := mkPolyline {
  latlngs : list Point;
  color : jsstring;
  weight : number;
  opacity : number;
  smoothFactor : number;
  polylinePopup : option jsstring
}.

(** [L.icon(options)] and [L.divIcon(options)]. *)
Inductive Icon : Type :=
| icon (iconUrl : jsstring) (iconSize iconAnchor popupAnchor : number * number)
       (className : jsstring)
| divIcon (className html : jsstring) (iconSize iconAnchor : number * number).

(** [L.marker(latLng, { icon })] with the popup bound to it. *)
Record Marker : Type := mkMarker {
  latLng : number * number;
  markerIcon : Icon;
  markerPopup : option jsstring
}.

(** The map: which of the two layer groups and which tile layers are on
    it, whether the scale control is, and the points last handed to
    [fitBounds]. *)
Record Map : Type := mkMap {
  hasTrackGroup : bool;
  hasIconGroup : bool;
  tiles : list nat;
  hasScale : bool;
  fitted : option (list (number * number))
}.

(** A latitude or longitude that is NaN makes the library throw when it
    builds the point.  What it does with an infinite coordinate when it
    draws a line or fits the view is not followed: the properties of the
    display are stated for finite coordinates. *)
Definition validLatLng (p : number * number) : bool :=
  negb (isNaN (fst p)) && negb (isNaN (snd p)).

Definition removeTile (id : nat) (m : Map) : Map :=
  mkMap (hasTrackGroup m) (hasIconGroup m)
        (filter (fun i => negb (Nat.eqb i id)) (tiles m))
        (hasScale m) (fitted m).

Definition addTile (id : nat) (m : Map) : Map :=
  mkMap (hasTrackGroup m) (hasIconGroup m)
        (if existsb (Nat.eqb id) (tiles m) then tiles m else tiles m ++ [id])
        (hasScale m) (fitted m).

End L.

(** How a call ends: it returns, or it throws. *)
Inductive completion : Type :=
| Returns
| Throws (e : exn).

(** What the engine and the library throw, by what they are; their
    messages are not modelled. *)
Definition typeError : completion :=
  Throws (Failure (str "TypeError")).

Definition invalidLatLng : completion :=
  Throws (Failure (str "Invalid LatLng object")).

Definition containerNotFound : completion :=
  Throws (Failure (str "Map container not found")).

Definition containerInUse : completion :=
  Throws (Failure (str "Map container is already initialized")).

(** The values of [CONFIG] that the manager reads, with the types
    config.js gives them. *)
Module Settings.

Record MapType : Type := mkMapType {
  name : jsstring;
  url : jsstring;
  attribution : jsstring;
  maxZoom : number
}.

Record t : Type := mk {
  mapOpacity : number;
  mapTypes : list (jsstring * MapType);
  trackColor : jsstring;
  trackWeight : number;
  trackOpacity : number;
  trackSmoothFactor : number;
  defaultSize : number * number;
  iconScale : number;
  showPopups : bool
}.

End Settings.

(** The names every object inherits.  [mapTypes[name]] for one of them is
    a function or an object, not a map type entry: the tile layer made
    from it has no url, and what the library does with such a layer is not
    followed. *)
Definition inheritedNames : list jsstring :=
  [str "constructor"; str "hasOwnProperty"; str "isPrototypeOf";
   str "propertyIsEnumerable"; str "toLocaleString"; str "toString";
   str "valueOf"; str "__proto__"; str "__defineGetter__";
   str "__defineSetter__"; str "__lookupGetter__"; str "__lookupSetter__"].

Inductive MapTypeEntry : Type :=
| Own (entry : Settings.MapType)
| Inherited.

Fixpoint assoc {A : Type} (key : jsstring) (l : list (jsstring * A))
  : option A :=
  match l with
  | [] => None
  | (k, v) :: rest => if JSString.eqb k key then Some v else assoc key rest
  end.

(** [getMapTypeConfig(mapType)]: [CONFIG.map.mapTypes[mapType] || null]. *)
Definition getMapTypeConfig (config : Settings.t) (mapType : jsstring)
  : option MapTypeEntry :=
  match assoc mapType (Settings.mapTypes config) with
  | Some entry => Some (Own entry)
  | None =>
      if existsb (JSString.eqb mapType) inheritedNames then Some Inherited
      else None
  end.

(* ================================================================== *)
(** ** MapManager *)
(* ================================================================== *)

Module MapManager.

(** The fields of a [MapManager].  The two layer groups are kept by what
    they hold.  [created] counts the tile layers made so far and gives
    each its [tileId]; it is not a field of the source. *)
Record t : Type := mk {
  map : option L.Map;
  currentTileLayer : option L.TileLayer;
  currentMapType : jsstring;
  mapElementId : jsstring;
  trackLayerGroup : option (list L.Polyline);
  iconLayerGroup : option (list L.Marker);
  tracksVisible : bool;
  iconsVisible : bool;
  created : nat
}.

Definition setMap (m : option L.Map) (this : t) : t :=
  mk m (currentTileLayer this) (currentMapType this) (mapElementId this)
     (trackLayerGroup this) (iconLayerGroup this) (tracksVisible this)
     (iconsVisible this) (created this).

Definition setCurrentTileLayer (l : option L.TileLayer) (this : t) : t :=
  mk (map this) l (currentMapType this) (mapElementId this)
     (trackLayerGroup this) (iconLayerGroup this) (tracksVisible this)
     (iconsVisible this) (created this).

Definition setCurrentMapType (s : jsstring) (this : t) : t :=
  mk (map this) (currentTileLayer this) s (mapElementId this)
     (trackLayerGroup this) (iconLayerGroup this) (tracksVisible this)
     (iconsVisible this) (created this).

Definition setTrackLayerGroup (g : option (list L.Polyline)) (this : t) : t :=
  mk (map this) (currentTileLayer this) (currentMapType this)
     (mapElementId this) g (iconLayerGroup this) (tracksVisible this)
     (iconsVisible this) (created this).

Definition setIconLayerGroup (g : option (list L.Marker)) (this : t) : t :=
  mk (map this) (currentTileLayer this) (currentMapType this)
     (mapElementId this) (trackLayerGroup this) g (tracksVisible this)
     (iconsVisible this) (created this).

Definition setTracksVisibleField (b : bool) (this : t) : t :=
  mk (map this) (currentTileLayer this) (currentMapType this)
     (mapElementId this) (trackLayerGroup this) (iconLayerGroup this) b
     (iconsVisible this) (created this).

Definition setIconsVisibleField (b : bool) (this : t) : t :=
  mk (map this) (currentTileLayer this) (currentMapType this)
     (mapElementId this) (trackLayerGroup this) (iconLayerGroup this)
     (tracksVisible this) b (created this).

Definition setCreated (n : nat) (this : t) : t :=
  mk (map this) (currentTileLayer this) (currentMapType this)
     (mapElementId this) (trackLayerGroup this) (iconLayerGroup this)
     (tracksVisible this) (iconsVisible this) n.

(** [new MapManager(mapElementId)] *)
Definition construct (mapElementId : jsstring) : t :=
  mk None None (str "osm") mapElementId None None true true 0.

(** [setMapType(mapType)] *)
Definition setMapType (config : Settings.t) (mapType : jsstring) (this : t)
  : t * completion :=
  let removed :=
    match currentTileLayer this with
    | Some layer =>
        match map this with
        | Some m =>
            (setCurrentTileLayer None
               (setMap (Some (L.removeTile (L.tileId layer) m)) this),
             Returns)
        | None => (this, typeError)
        end
    | None => (this, Returns)
    end in
  match removed with
  | (this, Throws e) => (this, Throws e)
  | (this, Returns) =>
      if JSString.eqb mapType (str "none") then
        (setCurrentMapType (str "none") this, Returns)
      else
        match getMapTypeConfig config mapType with
        | None => (this, Returns)
        | Some mapConfig =>
            let layer :=
              match mapConfig with
              | Own entry =>
                  L.mkTileLayer (created this)
                    (Some (Settings.url entry))
                    (Some (Settings.attribution entry))
                    (Some (Settings.maxZoom entry))
                    (Number.div (Settings.mapOpacity config) hundred)
              | Inherited =>
                  L.mkTileLayer (created this) None None None
                    (Number.div (Settings.mapOpacity config) hundred)
              end in
            let this :=
              setCurrentTileLayer (Some layer)
                (setCreated (S (created this)) this) in
            match map this with
            | Some m =>
                (setCurrentMapType mapType
                   (setMap (Some (L.addTile (L.tileId layer) m)) this),
                 Returns)
            | None => (this, typeError)
            end
        end
  end.

(** [init(options)]: the map, the two layer groups on it, the tiles of
    [osm] and the scale control.  The centre and the zoom of the first
    view are left out.  [container] tells whether the page has the element
    of the map; the library throws when it has not, and when the element
    holds a map already, as it does after an [init] of this manager. *)
Definition init (config : Settings.t) (container : bool) (this : t)
  : t * completion :=
  if negb container then
    (this, containerNotFound)
  else
    match map this with
    | Some _ =>
        (this, containerInUse)
    | None =>
        let this := setMap (Some (L.mkMap false false [] false None)) this in
        let addTrackGroup (m : L.Map) :=
          L.mkMap true (L.hasIconGroup m) (L.tiles m) (L.hasScale m)
                  (L.fitted m) in
        let addIconGroup (m : L.Map) :=
          L.mkMap (L.hasTrackGroup m) true (L.tiles m) (L.hasScale m)
                  (L.fitted m) in
        let addScale (m : L.Map) :=
          L.mkMap (L.hasTrackGroup m) (L.hasIconGroup m) (L.tiles m) true
                  (L.fitted m) in
        let this :=
          setTrackLayerGroup (Some [])
            (setMap (option_map addTrackGroup (map this)) this) in
        let this :=
          setIconLayerGroup (Some [])
            (setMap (option_map addIconGroup (map this)) this) in
        match setMapType config (str "osm") this with
        | (this, Throws e) => (this, Throws e)
        | (this, Returns) =>
            (setMap (option_map addScale (map this)) this, Returns)
        end
    end.

(** The text of the popup of a track. *)
Definition trackPopup (track : Track.t) (index : nat) : jsstring :=
  newline ++ spaces 20 ++ str "<div>"
  ++ newline ++ spaces 24 ++ str "<strong>"
  ++ orElse (Some (Track.name track)) (str "Track " ++ JSString.ofNat (index + 1))
  ++ str "</strong>"
  ++ newline ++ spaces 24
  ++ (if falsy (Track.description track) then []
      else str "<br>" ++ orElse (Track.description track) [])
  ++ newline ++ spaces 24 ++ str "<br>Points: "
  ++ JSString.ofNat (length (Track.points track))
  ++ newline ++ spaces 20 ++ str "</div>"
  ++ newline ++ spaces 16.

Definition pointLatLng (p : Point) : number * number := (lat p, lon p).

(** One round of the [forEach] of [displayTracks]: the layer group after
    the track at [index]. *)
Definition displayTrack (config : Settings.t) (index : nat) (track : Track.t)
  (group : list L.Polyline) : list L.Polyline * completion :=
  if length (Track.points track) <? 2 then (group, Returns)
  else if negb (forallb (fun p => L.validLatLng (pointLatLng p))
                        (Track.points track))
  then (group, invalidLatLng)
  else
    let popup :=
      if JSString.truthy (Track.name track)
         || negb (falsy (Track.description track))
      then Some (trackPopup track index) else None in
    (group ++ [L.mkPolyline (Track.points track)
                 (Settings.trackColor config)
                 (Settings.trackWeight config)
                 (Number.div (Settings.trackOpacity config) hundred)
                 (Settings.trackSmoothFactor config)
                 popup],
     Returns).

Fixpoint displayTracks_from (config : Settings.t) (index : nat)
  (tracks : list Track.t) (group : list L.Polyline)
  : list L.Polyline * completion :=
  match tracks with
  | [] => (group, Returns)
  | track :: rest =>
      match displayTrack config index track group with
      | (group, Returns) => displayTracks_from config (S index) rest group
      | thrown => thrown
      end
  end.

(** [displayTracks(tracks)]; [None] is [null] or [undefined]. *)
Definition displayTracks (config : Settings.t) (tracks : option (list Track.t))
  (this : t) : t * completion :=
  match trackLayerGroup this with
  | None => (this, typeError)
  | Some _ =>
      let this := setTrackLayerGroup (Some []) this in
      match tracks with
      | None => (this, Returns)
      | Some [] => (this, Returns)
      | Some tracks =>
          let (group, c) := displayTracks_from config 0 tracks [] in
          (setTrackLayerGroup (Some group) this, c)
      end
  end.

Definition defaultIconHtml : jsstring :=
  str "<div style=" ++ quote
  ++ newline ++ spaces 24 ++ str "width: 16px; "
  ++ newline ++ spaces 24 ++ str "height: 16px; "
  ++ newline ++ spaces 24 ++ str "background: #ff1493; "
  ++ newline ++ spaces 24 ++ str "border: 2px solid white; "
  ++ newline ++ spaces 24 ++ str "border-radius: 50%;"
  ++ newline ++ spaces 24 ++ str "box-shadow: 0 0 10px rgba(0,0,0,0.5);"
  ++ newline ++ spaces 20 ++ quote ++ str "></div>".

Definition defaultIcon : L.Icon :=
  L.divIcon (str "kml-icon default-icon") defaultIconHtml
            (Number.ofN 20, Number.ofN 20) (Number.ofN 10, Number.ofN 10).

(** The custom icon of an icon that has a URL. *)
Definition customIcon (config : Settings.t) (iconUrl : jsstring)
  (iconSize : option (number * number)) : L.Icon :=
  let baseSize := match iconSize with
                  | Some size => size
                  | None => Settings.defaultSize config
                  end in
  let scaledSize :=
    (JSMath.round (Number.mul (fst baseSize) (Settings.iconScale config)),
     JSMath.round (Number.mul (snd baseSize) (Settings.iconScale config))) in
  let scaledAnchor :=
    (JSMath.round (Number.div (fst scaledSize) two),
     JSMath.round (Number.div (snd scaledSize) two)) in
  L.icon iconUrl scaledSize scaledAnchor
         (zero, Number.div (Number.neg (snd scaledSize)) two)
         (str "custom-icon").

Section Display.

(** [x.toFixed(6)], left to the runtime. *)
Variable toFixed6 : number -> jsstring.

Definition iconPopup (c : Icon.t) (index : nat) : jsstring :=
  newline ++ spaces 20 ++ str "<div>"
  ++ newline ++ spaces 24 ++ str "<strong>"
  ++ orElse (Some (Icon.name c)) (str "Point " ++ JSString.ofNat (index + 1))
  ++ str "</strong>"
  ++ newline ++ spaces 24
  ++ (if falsy (Icon.description c) then []
      else str "<br>" ++ orElse (Icon.description c) [])
  ++ newline ++ spaces 24 ++ str "<br>Position: "
  ++ toFixed6 (lat (Icon.position c)) ++ str ", "
  ++ toFixed6 (lon (Icon.position c))
  ++ newline ++ spaces 20 ++ str "</div>"
  ++ newline ++ spaces 16.

(** One round of the [forEach] of [displayIcons].  The position of an
    icon is an object with numbers for [lat] and [lon], so the first test
    of the round lets it through. *)
Definition displayIcon (config : Settings.t) (index : nat) (c : Icon.t)
  (group : list L.Marker) : list L.Marker * completion :=
  let latLng := (lat (Icon.position c), lon (Icon.position c)) in
  if negb (L.validLatLng latLng) then (group, invalidLatLng)
  else
    let markerIcon :=
      match Icon.iconUrl c with
      | Some (u :: rl) => customIcon config (u :: rl) (Icon.iconSize c)
      | _ => defaultIcon
      end in
    let popup :=
      if Settings.showPopups config
         && (JSString.truthy (Icon.name c) || negb (falsy (Icon.description c)))
      then Some (iconPopup c index) else None in
    (group ++ [L.mkMarker latLng markerIcon popup], Returns).

Fixpoint displayIcons_from (config : Settings.t) (index : nat)
  (icons : list Icon.t) (group : list L.Marker)
  : list L.Marker * completion :=
  match icons with
  | [] => (group, Returns)
  | c :: rest =>
      match displayIcon config index c group with
      | (group, Returns) => displayIcons_from config (S index) rest group
      | thrown => thrown
      end
  end.

(** [displayIcons(icons)] *)
Definition displayIcons (config : Settings.t) (icons : option (list Icon.t))
  (this : t) : t * completion :=
  match iconLayerGroup this with
  | None => (this, typeError)
  | Some _ =>
      let this := setIconLayerGroup (Some []) this in
      match icons with
      | None => (this, Returns)
      | Some [] => (this, Returns)
      | Some icons =>
          let (group, c) := displayIcons_from config 0 icons [] in
          (setIconLayerGroup (Some group) this, c)
      end
  end.

End Display.

(** [setTracksVisible(visible)] *)
Definition setTracksVisible (visible : bool) (this : t) : t * completion :=
  let this := setTracksVisibleField visible this in
  match map this with
  | None => (this, typeError)
  | Some m =>
      let m :=
        if visible then
          if negb (L.hasTrackGroup m)
          then L.mkMap true (L.hasIconGroup m) (L.tiles m) (L.hasScale m)
                       (L.fitted m)
          else m
        else
          if L.hasTrackGroup m
          then L.mkMap false (L.hasIconGroup m) (L.tiles m) (L.hasScale m)
                       (L.fitted m)
          else m in
      (setMap (Some m) this, Returns)
  end.

(** [setIconsVisible(visible)] *)
Definition setIconsVisible (visible : bool) (this : t) : t * completion :=
  let this := setIconsVisibleField visible this in
  match map this with
  | None => (this, typeError)
  | Some m =>
      let m :=
        if visible then
          if negb (L.hasIconGroup m)
          then L.mkMap (L.hasTrackGroup m) true (L.tiles m) (L.hasScale m)
                       (L.fitted m)
          else m
        else
          if L.hasIconGroup m
          then L.mkMap (L.hasTrackGroup m) false (L.tiles m) (L.hasScale m)
                       (L.fitted m)
          else m in
      (setMap (Some m) this, Returns)
  end.

(** The points [fitToContent] collects: those of every track, then the
    position of every icon. *)
Definition allPoints (tracks : list Track.t) (icons : list Icon.t)
  : list (number * number) :=
  flat_map (fun track => List.map pointLatLng (Track.points track)) tracks
  ++ List.map (fun c => pointLatLng (Icon.position c)) icons.

(** [fitToContent(tracks, icons)] *)
Definition fitToContent (tracks : list Track.t) (icons : list Icon.t)
  (this : t) : t * completion :=
  let points := allPoints tracks icons in
  if 0 <? length points then
    if negb (forallb L.validLatLng points) then (this, invalidLatLng)
    else
      match map this with
      | None => (this, typeError)
      | Some m =>
          (setMap (Some (L.mkMap (L.hasTrackGroup m) (L.hasIconGroup m)
                                 (L.tiles m) (L.hasScale m) (Some points)))
                  this,
           Returns)
      end
  else (this, Returns).

(** [clearAll()] *)
Definition clearAll (this : t) : t :=
  let this := match trackLayerGroup this with
              | Some _ => setTrackLayerGroup (Some []) this
              | None => this
              end in
  match iconLayerGroup this with
  | Some _ => setIconLayerGroup (Some []) this
  | None => this
  end.

Definition getCurrentMapType (this : t) : jsstring := currentMapType this.
Definition areTracksVisible (this : t) : bool := tracksVisible this.
Definition areIconsVisible (this : t) : bool := iconsVisible this.

(** The clamped value of [setMapOpacity]. *)
Definition clampOpacity (opacity : number) : number :=
  JSMath.max zero (JSMath.min hundred opacity).

(** [setMapOpacity(opacity)] *)
Definition setMapOpacity (opacity : number) (this : t) : t :=
  let opacity := clampOpacity opacity in
  let leafletOpacity := Number.div opacity hundred in
  match currentTileLayer this with
  | Some layer =>
      setCurrentTileLayer
        (Some (L.mkTileLayer (L.tileId layer) (L.tileUrl layer)
                 (L.tileAttribution layer) (L.tileMaxZoom layer)
                 leafletOpacity))
        this
  | None => this
  end.

(** [getMapOpacity()] *)
Definition getMapOpacity (config : Settings.t) (this : t) : number :=
  match currentTileLayer this with
  | Some layer => JSMath.round (Number.mul (L.tileOpacity layer) hundred)
  | None => Settings.mapOpacity config
  end.

End MapManager.

(** *** Views of the display *)

(** The polyline drawn for a track at a position of the array. *)
Definition polylineOf (config : Settings.t) (entry : nat * Track.t)
  : L.Polyline :=
  let (index, track) := entry in
  L.mkPolyline (Track.points track)
    (Settings.trackColor config) (Settings.trackWeight config)
    (Number.div (Settings.trackOpacity config) hundred)
    (Settings.trackSmoothFactor config)
    (if JSString.truthy (Track.name track)
        || negb (falsy (Track.description track))
     then Some (MapManager.trackPopup track index) else None).

(** A track is drawn when it has two points or more. *)
Definition drawn (track : Track.t) : bool :=
  2 <=? length (Track.points track).

(** The entries of an array with their positions. *)
Definition positioned {A : Type} (l : list A) : list (nat * A) :=
  combine (seq 0 (length l)) l.

(** The marker shown for an icon at a position of the array. *)
Definition markerOf (toFixed6 : number -> jsstring) (config : Settings.t)
  (entry : nat * Icon.t) : L.Marker :=
  let (index, c) := entry in
  L.mkMarker (lat (Icon.position c), lon (Icon.position c))
    (match Icon.iconUrl c with
     | Some (u :: rl) => MapManager.customIcon config (u :: rl) (Icon.iconSize c)
     | _ => MapManager.defaultIcon
     end)
    (if Settings.showPopups config
        && (JSString.truthy (Icon.name c) || negb (falsy (Icon.description c)))
     then Some (MapManager.iconPopup toFixed6 c index) else None).

(** The tile layers on the map are the current one, if any; the two flags
    say whether the layer groups are on the map; the map and the groups
    exist. *)
Definition consistent (m : MapManager.t) : Prop :=
  exists (mp : L.Map) (ps : list L.Polyline) (ms : list L.Marker),
    MapManager.map m = Some mp
    /\ MapManager.trackLayerGroup m = Some ps
    /\ MapManager.iconLayerGroup m = Some ms
    /\ L.tiles mp = match MapManager.currentTileLayer m with
                    | Some layer => [L.tileId layer]
                    | None => []
                    end
    /\ match MapManager.currentTileLayer m with
       | Some layer => L.tileId layer < MapManager.created m
       | None => True
       end
    /\ MapManager.tracksVisible m = L.hasTrackGroup mp
    /\ MapManager.iconsVisible m = L.hasIconGroup mp.

(** Sample settings: values of the configuration, the attributions cut
    short. *)
Definition sampleSettings : Settings.t :=
  Settings.mk (Number.ofN 100)
    [(str "osm",
      Settings.mkMapType (str "OpenStreetMap")
        (str "https://{s}.tile.openstreetmap.org/{z}/{x}/{y}.png")
        (str "OpenStreetMap contributors") (Number.ofN 19));
     (str "satellite",
      Settings.mkMapType (str "Satellite")
        (str "https://server.arcgisonline.com/ArcGIS/rest/services/World_Imagery/MapServer/tile/{z}/{y}/{x}")
        (str "Esri") (Number.ofN 18));
     (str "terrain",
      Settings.mkMapType (str "Terrain")
        (str "https://{s}.tile.opentopomap.org/{z}/{x}/{y}.png")
        (str "OpenTopoMap (CC-BY-SA)") (Number.ofN 17))]
    (str "#e20074") (Number.ofN 10) (Number.ofN 100) (Number.ofN 1)
    (Number.ofN 32, Number.ofN 32) (Number.ofN 2) true.

(** A manager after [init]. *)
Definition sampleManager : MapManager.t :=
  fst (MapManager.init sampleSettings true
         (MapManager.construct (str "map"))).

Definition sampleToFixed6 (x : number) : jsstring := str "0.000000".

(** A point with a finite latitude and longitude. *)
Definition finitePoint (p : Point) : Prop :=
  Number.isFinite (lat p) = true /\ Number.isFinite (lon p) = true.

Definition finiteTrack (track : Track.t) : Prop :=
  Forall finitePoint (Track.points track).

Definition finiteIcon (c : Icon.t) : Prop := finitePoint (Icon.position c).

(** A popup with a given title, description and last line. *)
Definition popupWith (title : jsstring) (description : option jsstring)
  (line : jsstring) : jsstring :=
  newline ++ spaces 20 ++ str "<div>"
  ++ newline ++ spaces 24 ++ str "<strong>" ++ title ++ str "</strong>"
  ++ newline ++ spaces 24
  ++ (if falsy description then []
      else str "<br>" ++ orElse description [])
  ++ newline ++ spaces 24 ++ line
  ++ newline ++ spaces 20 ++ str "</div>"
  ++ newline ++ spaces 16.

(** The last line of the popup of a track and of an icon. *)
Definition pointsLine (track : Track.t) : jsstring :=
  str "<br>Points: " ++ JSString.ofNat (length (Track.points track)).

Definition positionLine (toFixed6 : number -> jsstring) (c : Icon.t)
  : jsstring :=
  str "<br>Position: " ++ toFixed6 (lat (Icon.position c)) ++ str ", "
  ++ toFixed6 (lon (Icon.position c)).

(** A document with a track of one point and a track of two. *)
Definition shortAndLongTracks : Document :=
  [elem "kml"
     [elem "Placemark"
        [leaf "name" "Start";
         elem "LineString" [leaf "coordinates" "10,50,0"]];
      elem "Placemark"
        [leaf "name" "Stage 1";
         elem "LineString" [leaf "coordinates" "10,50,0 11,51,0"]];
      elem "Placemark"
        [leaf "name" "Service";
         elem "Point" [leaf "coordinates" "12,52,0"]]]].

(** What [displayIcons] reads of an icon. *)
Definition shown (c : Icon.t)
  : jsstring * option jsstring * number * number * option jsstring
    * option (number * number) :=
  (Icon.name c, Icon.description c, lat (Icon.position c),
   lon (Icon.position c), Icon.iconUrl c, Icon.iconSize c).

(** Whether one number is at most another; false when either is NaN. *)
Definition leq (a b : number) : bool :=
  match SFcompare a b with
  | Some Lt | Some Eq => true
  | _ => false
  end.

(** The whole percentages. *)
Definition percentages : list number :=
  List.map (fun n => Number.ofN (N.of_nat n)) (seq 0 101).

(** A name that is no property every object inherits. *)
Definition ownName (mapType : jsstring) : Prop :=
  existsb (JSString.eqb mapType) inheritedNames = false.

(* ================================================================== *)
(** ** The configuration *)
(* ================================================================== *)

Module Config.

(** The values of the configuration and of JSON.  The properties of an
    object are listed in the order in which [for ... in] visits them. *)
Inductive value : Type :=
| Undefined
| Null
| Boolean (b : bool)
| Num (x : number)
| Str (s : jsstring)
| Array (items : list value)
| Object (props : list (jsstring * value)).

(** Whether a value counts as true. *)
Definition truthy (v : value) : bool :=
  match v with
  | Undefined | Null => false
  | Boolean b => b
  | Num (S754_zero _) | Num S754_nan => false
  | Num _ => true
  | Str s => JSString.truthy s
  | Array _ | Object _ => true
  end.

(** [object[key]] for the properties of the object itself: [undefined]
    when there is none. *)
Definition get (props : list (jsstring * value)) (key : jsstring) : value :=
  match assoc key props with
  | Some v => v
  | None => Undefined
  end.

(** [object[key] = v]: the property keeps its place when the object has
    it, and comes last otherwise. *)
Fixpoint set (props : list (jsstring * value)) (key : jsstring) (v : value)
  : list (jsstring * value) :=
  match props with
  | [] => [(key, v)]
  | (k, w) :: rest =>
      if JSString.eqb k key then (k, v) :: rest
      else (k, w) :: set rest key v
  end.

(** The names that numbers and booleans inherit besides those every object
    inherits. *)
Definition numberNames : list jsstring :=
  [str "toExponential"; str "toFixed"; str "toPrecision"].

(** How a merge ends: it is done, it threw a TypeError, or it went where
    this model does not follow: a key that objects inherit, or a string,
    an array or a function as the target of an assignment.  The first two
    carry the target as the merge left it. *)
Inductive outcome : Type :=
| Done (target : value)
| Threw (target : value)
| Beyond.

(** [target[key] = v] in strict code. *)
Definition assign (target : value) (key : jsstring) (v : value) : outcome :=
  match target with
  | Object props => Done (Object (set props key v))
  | Undefined | Null => Threw target
  | Boolean _ | Num _ =>
      if existsb (JSString.eqb key) numberNames then Beyond else Threw target
  | Str _ | Array _ => Beyond
  end.

(** One round of the loop of [deepMerge], given the merge of the inner
    call. *)
Definition forKey (merge : value -> outcome) (target : value)
  (key : jsstring) (v : value) : outcome :=
  if existsb (JSString.eqb key) inheritedNames then Beyond
  else
    match v with
    | Object _ =>
        match target with
        | Object props =>
            let current := get props key in
            let current := if truthy current then current else Object [] in
            match merge current with
            | Done merged => Done (Object (set props key merged))
            | Threw merged => Threw (Object (set props key merged))
            | Beyond => Beyond
            end
        | _ => assign target key (Object [])
        end
    | _ => assign target key v
    end.

(** [deepMerge(target, source)].  The recursion is on the source; a
    source that is no object has no properties to visit, but for the
    indices of a string or an array, which are not followed. *)
Fixpoint deepMerge_from (source : value) (target : value) {struct source}
  : outcome :=
  match source with
  | Object props =>
      (fix loop (props : list (jsstring * value)) (target : value)
           {struct props} : outcome :=
         match props with
         | [] => Done target
         | (key, v) :: rest =>
             match forKey (deepMerge_from v) target key v with
             | Done target => loop rest target
             | stopped => stopped
             end
         end) props target
  | Str (_ :: _) | Array (_ :: _) => Beyond
  | _ => Done target
  end.

Definition deepMerge (target source : value) : outcome :=
  deepMerge_from source target.

(** The loop of [deepMerge] over the properties of the source. *)
Fixpoint mergeProps (props : list (jsstring * value)) (target : value)
  : outcome :=
  match props with
  | [] => Done target
  | (key, v) :: rest =>
      match forKey (deepMerge_from v) target key v with
      | Done target => mergeProps rest target
      | stopped => stopped
      end
  end.

(** [a === b] where [b] was just parsed, so that it is no object that
    [a] could be. *)
Definition strictEq (a b : value) : bool :=
  match a, b with
  | Undefined, Undefined => true
  | Null, Null => true
  | Boolean x, Boolean y => Bool.eqb x y
  | Num x, Num y =>
      match SFcompare x y with Some Eq => true | _ => false end
  | Str x, Str y => JSString.eqb x y
  | _, _ => false
  end.

(** The properties that [{...v}] copies. *)
Definition spread (v : value) : list (jsstring * value) :=
  match v with
  | Object props => props
  | _ => []
  end.

(** [v.version]; [None] is the TypeError of reading from [null] or
    [undefined]. *)
Definition versionOf (v : value) : option value :=
  match v with
  | Undefined | Null => None
  | Object props => Some (get props (str "version"))
  | _ => Some Undefined
  end.

(** The configuration object and the item [rallyTrackViewerConfig] of the
    local storage. *)
Record World : Type := mkWorld {
  CONFIG : value;
  item : option jsstring
}.

(** How a call on the configuration ends; [Unfollowed] when the merge
    went beyond the model. *)
Inductive result : Type :=
| Finished (w : World)
| Failed (w : World)
| Unfollowed.

(** [updateConfig(updates)] *)
Definition updateConfig (updates : value) (w : World) : result :=
  match deepMerge (CONFIG w) updates with
  | Done config => Finished (mkWorld config (item w))
  | Threw config => Failed (mkWorld config (item w))
  | Beyond => Unfollowed
  end.

Section Storage.

(** [JSON.parse], [None] when it throws; [JSON.stringify]; and whether
    the storage takes a text or throws. *)
Variable parse : jsstring -> option value.
Variable stringify : value -> jsstring.
Variable accepts : jsstring -> bool.

Definition removeItem (w : World) : World := mkWorld (CONFIG w) None.

(** [loadConfigFromStorage()]: it catches what is thrown, so it does not
    fail.  [None] when the merge goes where the model does not follow. *)
Definition loadConfigFromStorage (w : World) : option World :=
  match item w with
  | None => Some w
  | Some stored =>
      if negb (JSString.truthy stored) then Some w
      else
        match parse stored with
        | None => Some (removeItem w)
        | Some storedConfig =>
            match versionOf storedConfig with
            | None => Some (removeItem w)
            | Some version =>
                if negb (strictEq (get (spread (CONFIG w)) (str "version"))
                                  version)
                then Some (removeItem w)
                else
                  match updateConfig storedConfig w with
                  | Finished w => Some w
                  | Failed w => Some (removeItem w)
                  | Unfollowed => None
                  end
            end
        end
  end.

(** [saveConfigToStorage()] *)
Definition saveConfigToStorage (w : World) : World :=
  let configToSave :=
    Object (set (spread (CONFIG w)) (str "version")
                (get (spread (CONFIG w)) (str "version"))) in
  let text := stringify configToSave in
  if accepts text then mkWorld (CONFIG w) (Some text) else w.

Definition thenSave (r : result) : result :=
  match r with
  | Finished w => Finished (saveConfigToStorage w)
  | stopped => stopped
  end.

(** [updateTrackStyle(trackStyle)] *)
Definition updateTrackStyle (trackStyle : value) (w : World) : result :=
  thenSave
    (updateConfig (Object [(str "map", Object [(str "tracks", trackStyle)])])
                  w).

(** [updateMapOpacity(opacity)] *)
Definition updateMapOpacity (opacity : value) (w : World) : result :=
  thenSave
    (updateConfig (Object [(str "map", Object [(str "opacity", opacity)])])
                  w).

(** [updateIconScale(scale)] *)
Definition updateIconScale (scale : value) (w : World) : result :=
  thenSave
    (updateConfig
       (Object [(str "kml",
                 Object [(str "icons", Object [(str "scale", scale)])])])
       w).

End Storage.

(** The value at the end of a path of keys, [undefined] where the path
    leaves the objects. *)
Fixpoint getPath (v : value) (path : list jsstring) : value :=
  match path with
  | [] => v
  | key :: rest =>
      match v with
      | Object props => getPath (get props key) rest
      | _ => Undefined
      end
  end.

(** No key of any object of a value, the objects inside arrays apart, is a
    name that objects inherit, and no object has a key twice. *)
Fixpoint plain (v : value) : Prop :=
  match v with
  | Object props =>
      NoDup (List.map fst props)
      /\ (fix each (props : list (jsstring * value)) : Prop :=
            match props with
            | [] => True
            | (key, w) :: rest =>
                existsb (JSString.eqb key) inheritedNames = false
                /\ plain w /\ each rest
            end) props
  | _ => True
  end.

(** What [deepMerge] merges into at a key: the value there, or a new
    empty object when that value does not count as true. *)
Definition orEmptyObject (v : value) : value :=
  if truthy v then v else Object [].

(** A value that is no object: [deepMerge] assigns it. *)
Definition leaf (v : value) : Prop :=
  match v with
  | Object _ => False
  | _ => True
  end.

(** The update that sets one value: [{ k1: { k2: ... x } }]. *)
Fixpoint nest (path : list jsstring) (x : value) : value :=
  match path with
  | [] => x
  | key :: rest => Object [(key, nest rest x)]
  end.

(** The objects on the way along a path: at every key but the last the
    value is an object or does not count as true. *)
Fixpoint objectsAlong (v : value) (path : list jsstring) : Prop :=
  match path with
  | [] => True
  | key :: rest =>
      match v with
      | Object props => objectsAlong (orEmptyObject (get props key)) rest
      | _ => False
      end
  end.

(** A value with the value at the end of a path replaced. *)
Fixpoint setPath (v : value) (path : list jsstring) (x : value) : value :=
  match path with
  | [] => x
  | key :: rest =>
      match v with
      | Object props =>
          Object (set props key
                      (setPath (orEmptyObject (get props key)) rest x))
      | _ => v
      end
  end.

(** Two paths that part at some key. *)
Definition diverge (p q : list jsstring) : Prop :=
  exists (common : list jsstring) (k k' : jsstring) (r r' : list jsstring),
    p = common ++ k :: r /\ q = common ++ k' :: r' /\ k <> k'.

(** A configuration in the shape of the one of the source, cut down to
    what the update functions write. *)
Definition sampleConfig : value :=
  Object
    [(str "version", Str (str "1.2.0"));
     (str "map",
      Object [(str "opacity", Num (Number.ofN 100));
              (str "tracks",
               Object [(str "color", Str (str "#e20074"));
                       (str "weight", Num (Number.ofN 10));
                       (str "opacity", Num (Number.ofN 100));
                       (str "smoothFactor", Num (Number.ofN 1))])]);
     (str "kml",
      Object [(str "defaultFile", Str (str "tracks.kml"));
              (str "icons",
               Object [(str "defaultSize",
                        Array [Num (Number.ofN 32); Num (Number.ofN 32)]);
                       (str "scale", Num (Number.ofN 2));
                       (str "showPopups", Boolean true)])])].

(** A stored configuration of the same version with another opacity of
    the map. *)
Definition sampleStored : value :=
  Object [(str "version", Str (str "1.2.0"));
          (str "map", Object [(str "opacity", Num (Number.ofN 50))])].

End Config.

(* ================================================================== *)
(** ** RallyTrackViewer *)
(* ================================================================== *)

Module RallyTrackViewer.

(** What the calls below read and write of the page.  An element that the
    page lacks is [None]; [mapContainer] tells whether it has the element
    of the map.  [messages] are the message elements appended to the body,
    each with its text and its class. *)
Record Page : Type := mkPage {
  mapContainer : bool;
  trackCount : option jsstring;
  iconCount : option jsstring;
  mapTypeValue : option jsstring;
  transparentBgChecked : option bool;
  showTracksChecked : option bool;
  showIconsChecked : option bool;
  messages : list (jsstring * jsstring)
}.

(** The fields of the viewer; the two arrays by their addresses. *)
Record t : Type := mk {
  kmlParser : KMLParser;
  mapManager : MapManager.t;
  tracks : address;
  icons : address;
  isInitialized : bool
}.

(** The viewer, the arrays and the page. *)
Record state : Type := mkState {
  this : t;
  heap : Store;
  page : Page
}.

Definition setManager (m : MapManager.t) (st : state) : state :=
  mkState (mk (kmlParser (this st)) m (tracks (this st)) (icons (this st))
              (isInitialized (this st)))
          (heap st) (page st).

Definition setMessages (l : list (jsstring * jsstring)) (pg : Page) : Page :=
  mkPage (mapContainer pg) (trackCount pg) (iconCount pg) (mapTypeValue pg)
         (transparentBgChecked pg) (showTracksChecked pg)
         (showIconsChecked pg) l.

(** [new RallyTrackViewer()], before [init] runs. *)
Definition construct (st : Store) (pg : Page) : state :=
  let (parser, st) := construct st in
  let manager := MapManager.construct (str "map") in
  let (a, st) := newTrackArray st in
  let (b, st) := newIconArray st in
  mkState (mk parser manager a b false) st pg.

(** [showMessage(message, type)]: the message element is appended to the
    body.  The timers that take it away later are not followed. *)
Definition showMessage (message type : jsstring) (st : state) : state :=
  mkState (this st) (heap st)
          (setMessages (messages (page st)
                        ++ [(message, str "message message-" ++ type)])
                       (page st)).

(** [updateCounts()] *)
Definition updateCounts (st : state) : state :=
  let pg := page st in
  let trackText :=
    match trackCount pg with
    | Some _ =>
        Some (JSString.ofNat
                (length (trackArray (heap st) (tracks (this st)))))
    | None => None
    end in
  let iconText :=
    match iconCount pg with
    | Some _ =>
        Some (JSString.ofNat (length (iconArray (heap st) (icons (this st)))))
    | None => None
    end in
  mkState (this st) (heap st)
          (mkPage (mapContainer pg) trackText iconText (mapTypeValue pg)
                  (transparentBgChecked pg) (showTracksChecked pg)
                  (showIconsChecked pg) (messages pg)).

Section Viewer.

Variable parseFromString : jsstring -> Document.
Variable fetch : jsstring -> settled Response.
Variable toFixed6 : number -> jsstring.

(** The [message] of a thrown value that is no [Error] made by this
    code. *)
Variable reasonMessage : jsstring -> jsstring.

(** The configuration, which the calls below only read, and its
    [kml.defaultFile]. *)
Variable config : Settings.t.
Variable defaultFile : jsstring.

Definition messageOf (e : exn) : jsstring :=
  match e with
  | Error message => message
  | Failure reason => reasonMessage reason
  end.

(** [handleKMLLoaded(tracks, icons)]: both arguments are arrays, so
    neither is replaced by a new one. *)
Definition handleKMLLoaded (r : Result) (st : state) : state * completion :=
  let st :=
    mkState (mk (kmlParser (this st)) (mapManager (this st))
                (resTracks r) (resIcons r) (isInitialized (this st)))
            (heap st) (page st) in
  let ts := trackArray (heap st) (tracks (this st)) in
  let cs := iconArray (heap st) (icons (this st)) in
  match MapManager.displayTracks config (Some ts) (mapManager (this st)) with
  | (m, Throws e) => (setManager m st, Throws e)
  | (m, Returns) =>
      match MapManager.displayIcons toFixed6 config (Some cs) m with
      | (m, Throws e) => (setManager m st, Throws e)
      | (m, Returns) =>
          match MapManager.fitToContent ts cs m with
          | (m, Throws e) => (setManager m st, Throws e)
          | (m, Returns) => (updateCounts (setManager m st), Returns)
          end
      end
  end.

(** What both loads do with the promise of the parser. *)
Definition loaded (outcome : settled Result * KMLParser * Store)
  (st : state) : state * completion :=
  let '(s, parser, store) := outcome in
  let st :=
    mkState (mk parser (mapManager (this st)) (tracks (this st))
                (icons (this st)) (isInitialized (this st)))
            store (page st) in
  match s with
  | Rejected e => (st, Throws e)
  | Fulfilled r => handleKMLLoaded r st
  end.

(** [loadKMLFile(file)] *)
Definition loadKMLFile (file : File) (st : state) : state :=
  match loaded (loadKMLFile parseFromString file (kmlParser (this st))
                            (heap st)) st with
  | (st, Returns) => st
  | (st, Throws e) =>
      showMessage (str "Error loading KML file: " ++ messageOf e)
                  (str "error") st
  end.

(** [autoLoadKML()] *)
Definition autoLoadKML (st : state) : state :=
  fst (loaded (loadKMLFromURL parseFromString fetch defaultFile
                              (kmlParser (this st)) (heap st)) st).

(** [init()]: the map, then the default file.  Finding the elements of
    the page, listening to them and filling them in are left out. *)
Definition init (st : state) : state :=
  match MapManager.init config (mapContainer (page st))
                        (mapManager (this st)) with
  | (m, Throws _) => setManager m st
  | (m, Returns) =>
      let st := autoLoadKML (setManager m st) in
      mkState (mk (kmlParser (this st)) (mapManager (this st))
                  (tracks (this st)) (icons (this st)) true)
              (heap st) (page st)
  end.

(** [refreshTracks()] and [refreshIcons()] *)
Definition refreshTracks (st : state) : state * completion :=
  let ts := trackArray (heap st) (tracks (this st)) in
  if 0 <? length ts then
    let (m, c) := MapManager.displayTracks config (Some ts)
                    (mapManager (this st)) in
    (setManager m st, c)
  else (st, Returns).

Definition refreshIcons (st : state) : state * completion :=
  let cs := iconArray (heap st) (icons (this st)) in
  if 0 <? length cs then
    let (m, c) := MapManager.displayIcons toFixed6 config (Some cs)
                    (mapManager (this st)) in
    (setManager m st, c)
  else (st, Returns).

End Viewer.




End RallyTrackViewer.

(** A page with all its elements and no message. *)
Definition samplePage : RallyTrackViewer.Page :=
  RallyTrackViewer.mkPage true (Some (str "0")) (Some (str "0"))
    (Some (str "osm"))
    (Some false) (Some false) (Some true) [].

(** A viewer with its map set up, and a file. *)
Definition sampleViewer : RallyTrackViewer.state :=
  RallyTrackViewer.setManager sampleManager
    (RallyTrackViewer.construct (mkStore [] []) samplePage).

Definition unreadableFile : File :=
  mkFile (Rejected (Error (str "The file could not be read"))).

Definition readableFile : File := mkFile (Fulfilled (str "<kml/>")).

Definition shortAndLongParser (text : jsstring) : Document :=
  shortAndLongTracks.

(* ================================================================== *)
(** ** The runtime: strings and numbers *)
(* ================================================================== *)

Example parseFloat_samples :
  parseFloat (str "47.69") = Number.ofDecimal 4769 (-2)
  /\ parseFloat (str "  -12.5e1abc") = Number.neg (Number.ofN 125)
  /\ parseFloat (str ".5") = Number.ofDecimal 5 (-1)
  /\ parseFloat (str "5.e2") = Number.ofN 500
  /\ parseFloat (str "1e") = Number.ofN 1
  /\ parseFloat (str "-0") = S754_zero true
  /\ parseFloat (str "+Infinityx") = S754_infinity false
  /\ parseFloat (str "1e999") = S754_infinity false
  /\ parseFloat (str "") = Number.NaN
  /\ parseFloat (str ".") = Number.NaN
  /\ parseFloat (str "abc") = Number.NaN
  /\ parseFloat (str "0.1") = S754_finite false 7205759403792794 (-56).
Proof. vm_compute. repeat split. Qed.

Section StringFacts.

Import JSString.

Lemma eqb_eq (a b : jsstring) : eqb a b = true <-> a = b.
Proof.
  revert b; induction a as [|x a IH]; intros [|y b]; simpl;
    try (split; [discriminate | discriminate]); try tauto.
  rewrite andb_true_iff, N.eqb_eq, IH.
  split; [intros [-> ->]; reflexivity | intros H; inversion H; auto].
Qed.

Lemma eqb_refl (a : jsstring) : eqb a a = true.
Proof. apply eqb_eq; reflexivity. Qed.

Lemma trimStart_blank (s : jsstring) : blank s -> trimStart s = [].
Proof.
  induction 1 as [|c r Hc _ IH]; simpl; [reflexivity|].
  rewrite Hc; exact IH.
Qed.

Lemma trim_blank (s : jsstring) : blank s -> trim s = [].
Proof. intros H; unfold trim; rewrite (trimStart_blank H); reflexivity. Qed.

Lemma trimEnd_cons_nonempty (c : char) (r : jsstring) :
  isWhiteSpace c = false -> truthy (trimEnd (c :: r)) = true.
Proof.
  intros Hc; simpl. destruct (trimEnd r); [rewrite Hc|]; reflexivity.
Qed.

Lemma truthy_trim_cons (c : char) (r : jsstring) :
  isWhiteSpace c = false -> truthy (trim (c :: r)) = true.
Proof.
  intros Hc; unfold trim; simpl trimStart; rewrite Hc.
  apply trimEnd_cons_nonempty; exact Hc.
Qed.

Lemma trimEnd_noWhiteSpace (s : jsstring) : noWhiteSpace s -> trimEnd s = s.
Proof.
  induction 1 as [|c r Hc _ IH]; simpl; [reflexivity|].
  rewrite IH; destruct r; [rewrite Hc|]; reflexivity.
Qed.

Lemma trim_noWhiteSpace (s : jsstring) : noWhiteSpace s -> trim s = s.
Proof.
  intros H; unfold trim.
  destruct H as [|c r Hc Hr]; simpl; [reflexivity|].
  rewrite Hc; apply trimEnd_noWhiteSpace; constructor; assumption.
Qed.

(** *** Splitting on white space *)

Lemma splitWs_cons (f : bool) (s : jsstring) :
  exists h tl, splitWs f s = h :: tl.
Proof.
  destruct s as [|c r]; simpl; [eauto|].
  destruct (isWhiteSpace c); [destruct f; [|eauto]|].
  - revert c; induction r as [|d r IH]; intros c; simpl; [eauto|].
    destruct (isWhiteSpace d); [apply (IH d)|].
    destruct (splitWs false r); eauto.
  - destruct (splitWs false r); eauto.
Qed.

Lemma splitWs_sep (s : jsstring) :
  filter kept (splitWs true s) = filter kept (splitWs false s).
Proof. destruct s as [|c r]; simpl; [|destruct (isWhiteSpace c)]; reflexivity. Qed.

Lemma splitWs_app_false (a b : jsstring) (w : char) :
  isWhiteSpace w = true ->
  hd [] (splitWs false (a ++ w :: b)) = hd [] (splitWs false a)
  /\ filter kept (tl (splitWs false (a ++ w :: b)))
     = filter kept (tl (splitWs false a)) ++ filter kept (splitWs false b).
Proof.
  intros Hw. induction a as [|c a [IHh IHt]]; simpl.
  - rewrite Hw; simpl. split; [reflexivity | apply splitWs_sep].
  - destruct (isWhiteSpace c) eqn:Hc; simpl.
    + split; [reflexivity|].
      rewrite !splitWs_sep.
      destruct (splitWs_cons false (a ++ w :: b)) as (h & t & E).
      destruct (splitWs_cons false a) as (h' & t' & E').
      rewrite E, E' in *; simpl in *. subst h'.
      rewrite IHt. destruct (kept h); reflexivity.
    + destruct (splitWs_cons false (a ++ w :: b)) as (h & t & E).
      destruct (splitWs_cons false a) as (h' & t' & E').
      rewrite E, E' in *; simpl in *. subst h'. tauto.
Qed.

Lemma tuples_app (a b : jsstring) (w : char) :
  isWhiteSpace w = true -> tuples (a ++ w :: b) = tuples a ++ tuples b.
Proof.
  intros Hw. unfold tuples, splitWhitespace.
  destruct (@splitWs_app_false a b w Hw) as [Hh Ht].
  destruct (splitWs_cons false (a ++ w :: b)) as (h & t & E).
  destruct (splitWs_cons false a) as (h' & t' & E').
  rewrite E, E' in *; simpl in *. subst h'.
  rewrite Ht. destruct (kept h); reflexivity.
Qed.

Lemma splitWs_noWhiteSpace (t : jsstring) :
  noWhiteSpace t -> splitWs false t = [t].
Proof.
  induction 1 as [|c r Hc _ IH]; simpl; [reflexivity|].
  rewrite Hc, IH; reflexivity.
Qed.

Lemma tuples_single (t : jsstring) :
  noWhiteSpace t -> t <> [] -> tuples t = [t].
Proof.
  intros H Hne. unfold tuples, splitWhitespace, kept.
  rewrite (splitWs_noWhiteSpace H); simpl.
  rewrite (trim_noWhiteSpace H). destruct t; [congruence | reflexivity].
Qed.

Lemma tuples_nil : tuples [] = [].
Proof. reflexivity. Qed.

(** *** Removing the first [#] *)

Lemma replaceFirst_absent (c : char) (s : jsstring) :
  ~ In c s -> replaceFirst c s = s.
Proof.
  induction s as [|d s IH]; simpl; [reflexivity|]. intros H.
  destruct (N.eqb_spec d c) as [->|_]; [tauto|].
  rewrite IH; tauto.
Qed.

Lemma replaceFirst_leading (r : jsstring) :
  leadingHashOrNone r -> replaceFirst hash r = stripLeadingHash r.
Proof.
  intros [[r' ->]|H].
  - simpl. rewrite ?N.eqb_refl. reflexivity.
  - rewrite (replaceFirst_absent _ _ H).
    destruct r as [|c r]; simpl; [reflexivity|].
    destruct (N.eqb_spec c hash) as [->|_]; [|reflexivity].
    exfalso. apply H. now left.
Qed.

End StringFacts.

Section NumberFacts.

Open Scope Z_scope.

Lemma shr_1_nonneg (mrs : shr_record) :
  0 <= shr_m mrs -> 0 <= shr_m (shr_1 mrs).
Proof. destruct mrs as [[|[p|p|]|p] r s]; simpl; lia. Qed.

Lemma iter_pos_invariant {A : Type} (P : A -> Prop) (f : A -> A) :
  (forall x, P x -> P (f x)) ->
  forall (p : positive) (x : A), P x -> P (iter_pos f p x).
Proof.
  intros Hf; induction p as [p IH|p IH|]; intros x Hx; simpl; auto.
Qed.

Lemma shr_fexp_nonneg (m e : Z) (l : location) :
  0 <= m -> 0 <= shr_m (fst (shr_fexp Number.prec Number.emax m e l)).
Proof.
  intros Hm. unfold shr_fexp, shr.
  assert (H0 : 0 <= shr_m (shr_record_of_loc m l))
    by (destruct l as [|[]]; exact Hm).
  destruct (fexp Number.prec Number.emax (Zdigits2 m + e) - e); simpl; auto.
  apply (iter_pos_invariant (fun x => 0 <= shr_m x)); auto using shr_1_nonneg.
Qed.

Lemma round_nearest_even_nonneg (m : Z) (l : location) :
  0 <= m -> 0 <= round_nearest_even m l.
Proof. destruct l as [|[]]; simpl; try destruct (Z.even m); lia. Qed.

(** Rounding a non-negative mantissa gives a zero, a finite number or an
    infinity. *)
Lemma binary_round_aux_number (sx : bool) (mx ex : Z) (lx : location) :
  0 <= mx ->
  isNaN (binary_round_aux Number.prec Number.emax sx mx ex lx) = false.
Proof.
  intros Hm. unfold binary_round_aux.
  pose proof (@shr_fexp_nonneg mx ex lx Hm) as H1.
  destruct (shr_fexp Number.prec Number.emax mx ex lx) as [mrs' e'].
  simpl in H1.
  pose proof (@shr_fexp_nonneg _ e' loc_Exact
                (@round_nearest_even_nonneg _ (loc_of_shr_record mrs') H1)) as H2.
  destruct (shr_fexp _ _ _ e' loc_Exact) as [mrs'' e'']. simpl in H2.
  destruct (shr_m mrs''); [reflexivity | | lia].
  destruct (e'' <=? Number.emax - Number.prec); reflexivity.
Qed.

Lemma binary_normalize_number (m e : Z) (sz : bool) :
  isNaN (binary_normalize Number.prec Number.emax m e sz) = false.
Proof.
  destruct m; simpl; [reflexivity | |]; unfold binary_round;
    destruct (shl_align _ _ _); apply binary_round_aux_number; lia.
Qed.

Lemma SFdiv_number (p q : positive) :
  isNaN (SFdiv Number.prec Number.emax (S754_finite false p 0)
               (S754_finite false q 0)) = false.
Proof.
  unfold SFdiv, SFdiv_core_binary.
  match goal with |- context [Z.div_eucl ?a ?b] =>
    pose proof (Z.div_pos a b) as Hq; unfold Z.div in Hq;
    assert (Ha : 0 <= a); [|destruct (Z.div_eucl a b) as [qq r]] end.
  - match goal with |- 0 <= match ?s with _ => _ end => destruct s eqn:E end;
      try lia.
    apply Z.shiftl_nonneg; lia.
  - apply binary_round_aux_number. cbn [fst] in Hq.
    apply Hq; [exact Ha | reflexivity].
Qed.

Lemma ofDecimal_number (m : N) (k : Z) : isNaN (Number.ofDecimal m k) = false.
Proof.
  unfold Number.ofDecimal. destruct m; [reflexivity|].
  destruct (0 <=? k); [apply binary_normalize_number | apply SFdiv_number].
Qed.

Lemma unsignedLiteral_number (u : jsstring) (v : number) :
  Number.unsignedLiteral u = Some v -> isNaN v = false.
Proof.
  unfold Number.unsignedLiteral.
  destruct (JSString.startsWith (str "Infinity") u).
  - intros H; injection H as <-; reflexivity.
  - destruct (Number.digits u) as [ip r1].
    assert (Hd : forall m k w, Some (Number.ofDecimal m k) = Some w ->
                               isNaN w = false).
    { intros m k w H; injection H as <-; apply ofDecimal_number. }
    destruct r1 as [|c r2].
    + destruct ip; [discriminate | apply Hd].
    + destruct (N.eq_dec c 46) as [->|Hc].
      * destruct (Number.digits r2) as [fp r3].
        destruct ip; [destruct fp; [discriminate|]|]; apply Hd.
      * assert (E : forall X Y : option number,
                   match c with
                   | 46%N => X
                   | _ => Y
                   end = Y).
        { intros X Y. destruct c as [|p]; [reflexivity|].
          do 6 (destruct p as [p|p|]; try reflexivity). now elim Hc. }
        rewrite E. destruct ip; [discriminate | apply Hd].
Qed.

Lemma neg_number (v : number) : isNaN v = false -> isNaN (Number.neg v) = false.
Proof. destruct v; simpl; auto. Qed.

(** [parseFloat] gives NaN exactly on the texts that are not numeric. *)
Lemma parseFloat_isNaN (s : jsstring) : isNaN (parseFloat s) = negb (numeric s).
Proof.
  unfold Number.parseFloat, numeric.
  assert (H : forall u (f : number -> number),
             (forall v, isNaN v = false -> isNaN (f v) = false) ->
             isNaN (match Number.unsignedLiteral u with
                    | Some v => f v
                    | None => Number.NaN
                    end)
             = negb (match Number.unsignedLiteral u with
                     | Some _ => true
                     | None => false
                     end)).
  { intros u f Hf. destruct (Number.unsignedLiteral u) as [v|] eqn:E;
      [|reflexivity].
    apply Hf. now apply unsignedLiteral_number with (u := u). }
  destruct (JSString.trimStart s) as [|c u]; [apply (H [] (fun v => v)); auto|].
  destruct c as [|p]; [apply (H _ (fun v => v)); auto|].
  do 6 (destruct p as [p|p|]; try (apply (H _ (fun v => v)); now auto)).
  apply (H u Number.neg). apply neg_number.
Qed.

End NumberFacts.

(* ================================================================== *)
(** ** parseCoordinates *)
(* ================================================================== *)

Lemma isNaN_false (x : number) : isNaN x = false <-> x <> Number.NaN.
Proof. destruct x; simpl; split; try congruence; intros H; now elim H. Qed.

Lemma parseCoordinates_step_spec (points : list Point) (coord : jsstring) :
  parseCoordinates_step points coord
  = points ++ (if kept coord && accepted coord then [pointOf coord] else []).
Proof.
  unfold parseCoordinates_step, kept, accepted, pointOf, altitude, field, fields.
  destruct (JSString.truthy (JSString.trim coord));
    [|now rewrite andb_false_l, app_nil_r].
  rewrite andb_true_l.
  destruct (2 <=? length (JSString.split comma coord));
    [|now rewrite !andb_false_l, app_nil_r].
  rewrite andb_true_l.
  match goal with |- (if ?c then _ else _) = _ => destruct c end;
    [reflexivity | now rewrite app_nil_r].
Qed.

Lemma parseCoordinates_loop (coords : list jsstring) (points : list Point) :
  fold_left parseCoordinates_step coords points
  = points ++ map pointOf (filter accepted (filter kept coords)).
Proof.
  revert points; induction coords as [|coord coords IH]; intros points; simpl.
  - now rewrite app_nil_r.
  - rewrite IH, parseCoordinates_step_spec.
    destruct (kept coord); simpl; [destruct (accepted coord); simpl|];
      rewrite <- ?app_assoc, ?app_nil_r; reflexivity.
Qed.

Lemma parseCoordinates_tuples (text : jsstring) :
  parseCoordinates text = map pointOf (filter accepted (tuples text)).
Proof. unfold parseCoordinates; now rewrite parseCoordinates_loop. Qed.

Lemma accepted_iff (coord : jsstring) :
  accepted coord = true <->
  2 <= length (fields coord)
  /\ parseFloat (field 0 coord) <> Number.NaN
  /\ parseFloat (field 1 coord) <> Number.NaN
  /\ (2 < length (fields coord) -> parseFloat (field 2 coord) <> Number.NaN).
Proof.
  unfold accepted, altitude.
  rewrite !andb_true_iff, !negb_true_iff, !isNaN_false, Nat.leb_le.
  destruct (Nat.ltb_spec 2 (length (fields coord))) as [Hlt|Hge].
  - intuition.
  - split; [intros [[[? ?] ?] _]; repeat split; auto; lia|].
    intros (? & ? & ? & _); repeat split; auto. discriminate.
Qed.

(** C1, as amended.  The points of a coordinate text are those of its
    accepted tuples, one each, in the order of the text: nothing is
    reordered, merged or replaced by a default, and a tuple that is not
    accepted leaves no trace.  The tuples are the pieces between runs of
    white space; a tuple is accepted exactly when splitting it on commas
    gives two fields or more and [parseFloat] of field 0, of field 1 and,
    when there is one, of field 2 is not NaN, that is, when these fields
    are numeric: each starts, after optional white space, with a decimal
    literal.  That literal may be [Infinity] or beyond the range of
    binary64, so an accepted field need not be finite. *)
Theorem parseCoordinates_accepted_tuples_in_order (text : jsstring) :
  parseCoordinates text = map pointOf (filter accepted (tuples text))
  /\ (forall coord : jsstring,
        accepted coord = true <->
        2 <= length (fields coord)
        /\ parseFloat (field 0 coord) <> Number.NaN
        /\ parseFloat (field 1 coord) <> Number.NaN
        /\ (2 < length (fields coord) ->
            parseFloat (field 2 coord) <> Number.NaN))
  /\ (forall s : jsstring, parseFloat s <> Number.NaN <-> numeric s = true)
  /\ (forall coord : jsstring,
        pointOf coord
        = mkPoint (parseFloat (field 1 coord)) (parseFloat (field 0 coord))
                  (if 2 <? length (fields coord)
                   then parseFloat (field 2 coord) else S754_zero false))
  /\ (forall (a b : jsstring) (w : JSString.char),
        JSString.isWhiteSpace w = true ->
        tuples (a ++ w :: b) = tuples a ++ tuples b)
  /\ (forall t : jsstring, noWhiteSpace t -> t <> [] -> tuples t = [t])
  /\ tuples [] = [].
Proof.
  split; [apply parseCoordinates_tuples|].
  split; [apply accepted_iff|].
  split; [intros s; rewrite <- isNaN_false, parseFloat_isNaN;
          now destruct (numeric s)|].
  split; [reflexivity|].
  split; [intros a b w; apply tuples_app|].
  split; [apply tuples_single | apply tuples_nil].
Qed.

(** The theorem at the text [1,2 x,3 4,5,6]: the middle tuple is dropped
    and the other two keep their places. *)
Lemma parseCoordinates_accepted_tuples_in_order_witness :
  parseCoordinates (str "1,2 x,3 4,5,6")
  = [pointOf (str "1,2"); pointOf (str "4,5,6")]
  /\ accepted (str "x,3") = false.
Proof.
  destruct (parseCoordinates_accepted_tuples_in_order (str "1,2 x,3 4,5,6"))
    as (H & _).
  split; [rewrite H; vm_compute; reflexivity | vm_compute; reflexivity].
Defined.

(** C1, as stated, fails on a tuple whose longitude is [Infinity]: it has
    two fields, is accepted, and its longitude is not finite. *)
Lemma parseCoordinates_accepts_infinite_longitude :
  length (fields (str "Infinity,47.69")) = 2
  /\ parseCoordinates (str "Infinity,47.69")
     = [mkPoint (Number.ofDecimal 4769 (-2)) (S754_infinity false)
                (S754_zero false)]
  /\ Number.isFinite (S754_infinity false) = false.
Proof. vm_compute. repeat split. Qed.

(* ================================================================== *)
(** ** The two passes *)
(* ================================================================== *)

Lemma indexedFrom_cons (i : nat) (e : element) (l : list element) :
  indexedFrom i (e :: l) = (i, e) :: indexedFrom (S i) l.
Proof. reflexivity. Qed.

Lemma geometryPoints_blank (geometry : node) :
  blankCoordinates geometry -> geometryPoints geometry = None.
Proof.
  unfold blankCoordinates, geometryPoints.
  destruct (firstByTagName geometry "coordinates") as [ce|]; [|reflexivity].
  intros H; rewrite (trim_blank H); reflexivity.
Qed.

Lemma collect_cons {A : Type} (f : nat -> element -> option A) (i : nat)
  (e : element) (l : list element) :
  collect f (indexedFrom i (e :: l))
  = match f i e with Some a => [a] | None => [] end
    ++ collect f (indexedFrom (S i) l).
Proof. reflexivity. Qed.

Lemma update_ext {A : Type} (f g : A -> A) (a : address) (l : list A) :
  (forall x, f x = g x) -> update a f l = update a g l.
Proof.
  intros H. revert a; induction l as [|x l IH]; intros [|a]; simpl;
    rewrite ?H, ?IH; reflexivity.
Qed.

Lemma update_update {A : Type} (f g : A -> A) (a : address) (l : list A) :
  update a g (update a f l) = update a (fun x => g (f x)) l.
Proof.
  revert a; induction l as [|x l IH]; intros [|a]; simpl;
    rewrite ?IH; reflexivity.
Qed.

Lemma update_id {A : Type} (a : address) (l : list A) :
  update a (fun x => x) l = l.
Proof.
  revert a; induction l as [|x l IH]; intros [|a]; simpl;
    rewrite ?IH; reflexivity.
Qed.

Lemma update_last {A : Type} (f : A -> A) (l : list A) (x : A) :
  update (length l) f (l ++ [x]) = l ++ [f x].
Proof. induction l as [|y l IH]; simpl; rewrite ?IH; reflexivity. Qed.

Lemma parseLineStrings_one (i : nat) (e : element) (this : KMLParser)
  (st : Store) :
  parseLineStrings_from i [e] this st
  = match trackOf i e with
    | Some t => pushTrack (tracks this) t st
    | None => st
    end.
Proof.
  unfold trackOf, geometryPoints, trackAt. cbn [parseLineStrings_from].
  destruct (firstByTagName (nodeOf e) "coordinates") as [ce|]; [|reflexivity].
  destruct (JSString.truthy (JSString.trim (textContent ce))); [|reflexivity].
  destruct (parseCoordinates (JSString.trim (textContent ce))); reflexivity.
Qed.

Lemma parseLineStrings_cons (i : nat) (e : element) (l : list element)
  (this : KMLParser) (st : Store) :
  parseLineStrings_from i (e :: l) this st
  = parseLineStrings_from (S i) l this (parseLineStrings_from i [e] this st).
Proof. reflexivity. Qed.

Lemma parseLineStrings_from_spec (l : list element) :
  forall (i : nat) (this : KMLParser) (st : Store),
    parseLineStrings_from i l this st
    = mkStore (update (tracks this)
                      (fun arr => arr ++ collect trackOf (indexedFrom i l))
                      (trackArrays st))
              (iconArrays st).
Proof.
  induction l as [|e l IH]; intros i this st.
  - destruct st as [ta ia]; cbn.
    rewrite (update_ext _ (fun x => x)), update_id; [reflexivity|].
    intros x; apply app_nil_r.
  - rewrite parseLineStrings_cons, IH, parseLineStrings_one, collect_cons.
    destruct (trackOf i e) as [t|]; [|reflexivity].
    cbn [pushTrack trackArrays iconArrays]. rewrite update_update.
    f_equal. apply update_ext; intros x. now rewrite <- app_assoc.
Qed.

Lemma parsePoints_one (doc : Document) (i : nat) (e : element)
  (this : KMLParser) (st : Store) :
  parsePoints_from doc i [e] this st
  = match iconOf doc i e with
    | Some c => pushIcon (icons this) c st
    | None => st
    end.
Proof.
  unfold iconOf, geometryPoints, iconAt. cbn [parsePoints_from].
  destruct (firstByTagName (nodeOf e) "coordinates") as [ce|]; [|reflexivity].
  destruct (JSString.truthy (JSString.trim (textContent ce))); [|reflexivity].
  destruct (parseCoordinates (JSString.trim (textContent ce))); reflexivity.
Qed.

Lemma parsePoints_cons (doc : Document) (i : nat) (e : element)
  (l : list element) (this : KMLParser) (st : Store) :
  parsePoints_from doc i (e :: l) this st
  = parsePoints_from doc (S i) l this (parsePoints_from doc i [e] this st).
Proof. reflexivity. Qed.

Lemma parsePoints_from_spec (doc : Document) (l : list element) :
  forall (i : nat) (this : KMLParser) (st : Store),
    parsePoints_from doc i l this st
    = mkStore (trackArrays st)
              (update (icons this)
                      (fun arr => arr ++ collect (iconOf doc) (indexedFrom i l))
                      (iconArrays st)).
Proof.
  induction l as [|e l IH]; intros i this st.
  - destruct st as [ta ia]; cbn.
    rewrite (update_ext _ (fun x => x)), update_id; [reflexivity|].
    intros x; apply app_nil_r.
  - rewrite parsePoints_cons, IH, parsePoints_one, collect_cons.
    destruct (iconOf doc i e) as [c|]; [|reflexivity].
    cbn [pushIcon trackArrays iconArrays]. rewrite update_update.
    f_equal. apply update_ext; intros x. now rewrite <- app_assoc.
Qed.

(** [parseKML] creates two arrays, fills them from the document alone, and
    leaves every array that was there as it was. *)
Lemma parseKML_spec (doc : Document) (this : KMLParser) (st : Store) :
  parseKML doc this st
  = (mkResult (length (trackArrays st)) (length (iconArrays st)),
     mkParser (length (trackArrays st)) (length (iconArrays st)),
     mkStore
       (trackArrays st ++
        [collect trackOf
           (indexedFrom 0 (getElementsByTagName doc (str "LineString")))])
       (iconArrays st ++
        [collect (iconOf doc)
           (indexedFrom 0 (getElementsByTagName doc (str "Point")))])).
Proof.
  unfold parseKML, parsePoints, parseLineStrings, newTrackArray, newIconArray.
  rewrite parsePoints_from_spec, parseLineStrings_from_spec. cbn.
  rewrite !update_last. reflexivity.
Qed.

Lemma returnedTracks_spec (doc : Document) (this : KMLParser) (st : Store) :
  returnedTracks doc this st
  = collect trackOf (indexedFrom 0 (getElementsByTagName doc (str "LineString"))).
Proof.
  unfold returnedTracks, tracksOf. rewrite parseKML_spec. cbn.
  apply nth_middle.
Qed.

Lemma returnedIcons_spec (doc : Document) (this : KMLParser) (st : Store) :
  returnedIcons doc this st
  = collect (iconOf doc) (indexedFrom 0 (getElementsByTagName doc (str "Point"))).
Proof.
  unfold returnedIcons, iconsOf. rewrite parseKML_spec. cbn.
  apply nth_middle.
Qed.

Lemma In_collect {A : Type} (f : nat -> element -> option A) (a : A)
  (l : list element) :
  forall i : nat,
    In a (collect f (indexedFrom i l)) <->
    exists (k : nat) (e : element), nth_error l k = Some e /\ f (i + k) e = Some a.
Proof.
  induction l as [|e l IH]; intros i.
  - simpl. split; [tauto|]. intros (k & e & H & _). destruct k; discriminate.
  - rewrite indexedFrom_cons. unfold collect in *. simpl.
    rewrite in_app_iff, IH. split.
    + intros [H | (k & e' & Hk & Hf)].
      * exists 0, e. rewrite Nat.add_0_r. split; [reflexivity|].
        destruct (f i e); simpl in H; [destruct H as [->|[]]; reflexivity | tauto].
      * exists (S k), e'. rewrite Nat.add_succ_r. auto.
    + intros ([|k] & e' & Hk & Hf); simpl in Hk.
      * left. injection Hk as <-. rewrite Nat.add_0_r in Hf. rewrite Hf. now left.
      * right. exists k, e'. rewrite Nat.add_succ_r in Hf. auto.
Qed.

Lemma originalIndex_collect (l : list element) :
  forall i : nat,
    map Track.originalIndex (collect trackOf (indexedFrom i l))
    = map fst (filter (fun p => emits (snd p)) (indexedFrom i l)).
Proof.
  induction l as [|e l IH]; intros i; [reflexivity|].
  rewrite indexedFrom_cons. unfold collect in *. simpl.
  rewrite map_app, IH. unfold trackOf, emits.
  destruct (geometryPoints (nodeOf e)); reflexivity.
Qed.

Lemma length_collect (l : list element) :
  forall i : nat,
    length (collect trackOf (indexedFrom i l)) = length (filter emits l).
Proof.
  induction l as [|e l IH]; intros i; [reflexivity|].
  rewrite indexedFrom_cons. unfold collect in *. simpl.
  rewrite length_app, IH. unfold trackOf, emits.
  destruct (geometryPoints (nodeOf e)); reflexivity.
Qed.

Lemma In_indexedFrom (l : list element) (k : nat) (e : element) :
  forall i : nat,
    In (i + k, e) (indexedFrom i l) <-> nth_error l k = Some e.
Proof.
  revert k; induction l as [|x l IH]; intros k i.
  - simpl. split; [tauto | destruct k; discriminate].
  - rewrite indexedFrom_cons. simpl. destruct k as [|k]; simpl.
    + rewrite Nat.add_0_r. split.
      * intros [H|H]; [congruence|]. exfalso.
        unfold indexedFrom in H. apply in_combine_l in H.
        apply in_seq in H. lia.
      * intros H; left; congruence.
    + rewrite Nat.add_succ_r, <- (IH k (S i)). simpl. split.
      * intros [H|H]; [injection H; lia | exact H].
      * auto.
Qed.

Lemma geometryPoints_nonempty (geometry : node) (pts : list Point) :
  geometryPoints geometry = Some pts ->
  exists first rest, pts = first :: rest.
Proof.
  unfold geometryPoints.
  destruct (firstByTagName geometry "coordinates") as [ce|]; [|discriminate].
  destruct (JSString.truthy (JSString.trim (textContent ce))); [|discriminate].
  destruct (parseCoordinates (JSString.trim (textContent ce))) as [|p ps];
    [discriminate|].
  intros H; injection H as <-; eauto.
Qed.

Lemma geometryPoints_text (geometry ce : node) :
  firstByTagName geometry "coordinates" = Some ce ->
  parseCoordinates (JSString.trim (textContent ce)) <> [] ->
  geometryPoints geometry
  = Some (parseCoordinates (JSString.trim (textContent ce))).
Proof.
  intros Hce Hne. unfold geometryPoints. rewrite Hce.
  destruct (JSString.trim (textContent ce)) as [|c r] eqn:E.
  - now elim Hne.
  - simpl JSString.truthy. cbv iota.
    destruct (parseCoordinates (c :: r)); [now elim Hne | reflexivity].
Qed.

Lemma tracks_of_parseKML (doc : Document) (this : KMLParser) (st : Store) (t : Track.t) :
  In t (returnedTracks doc this st) <->
  exists (i : nat) (el : element) (pts : list Point),
    nth_error (getElementsByTagName doc (str "LineString")) i = Some el
    /\ geometryPoints (nodeOf el) = Some pts
    /\ t = trackAt i el pts.
Proof.
  rewrite returnedTracks_spec, In_collect.
  cbn [Nat.add]. unfold trackOf. split.
  - intros (k & e & Hk & Hf). exists k, e.
    destruct (geometryPoints (nodeOf e)) as [pts|]; [|discriminate].
    exists pts. injection Hf as <-. auto.
  - intros (i & el & pts & Hk & Hg & ->). exists i, el.
    rewrite Hg. auto.
Qed.

Lemma icons_of_parseKML (doc : Document) (this : KMLParser) (st : Store) (c : Icon.t) :
  In c (returnedIcons doc this st) <->
  exists (i : nat) (el : element) (first : Point) (rest : list Point),
    nth_error (getElementsByTagName doc (str "Point")) i = Some el
    /\ geometryPoints (nodeOf el) = Some (first :: rest)
    /\ c = iconAt doc i el first.
Proof.
  rewrite returnedIcons_spec, In_collect.
  cbn [Nat.add]. unfold iconOf. split.
  - intros (k & e & Hk & Hf). exists k, e.
    destruct (geometryPoints (nodeOf e)) as [[|p ps]|]; try discriminate.
    exists p, ps. injection Hf as <-. auto.
  - intros (i & el & first & rest & Hk & Hg & ->). exists i, el.
    rewrite Hg. auto.
Qed.

(** The track with a given [originalIndex] is the one of the [LineString]
    at that index. *)
Lemma track_at_index (doc : Document) (this : KMLParser) (st : Store) (i : nat)
  (el : element) (pts : list Point) :
  nth_error (getElementsByTagName doc (str "LineString")) i = Some el ->
  geometryPoints (nodeOf el) = Some pts ->
  In (trackAt i el pts) (returnedTracks doc this st)
  /\ forall t : Track.t,
       In t (returnedTracks doc this st) ->
       Track.originalIndex t = i -> t = trackAt i el pts.
Proof.
  intros Hk Hg. split.
  - apply tracks_of_parseKML. exists i, el, pts. auto.
  - intros t Ht Hi. apply tracks_of_parseKML in Ht.
    destruct Ht as (k & e & ps & Hk' & Hg' & ->).
    cbn in Hi. subst k. congruence.
Qed.

Lemma icon_at_index (doc : Document) (this : KMLParser) (st : Store) (i : nat)
  (el : element) (first : Point) (rest : list Point) :
  nth_error (getElementsByTagName doc (str "Point")) i = Some el ->
  geometryPoints (nodeOf el) = Some (first :: rest) ->
  In (iconAt doc i el first) (returnedIcons doc this st)
  /\ forall c : Icon.t,
       In c (returnedIcons doc this st) ->
       Icon.originalIndex c = i -> c = iconAt doc i el first.
Proof.
  intros Hk Hg. split.
  - apply icons_of_parseKML. exists i, el, first, rest. auto.
  - intros c Hc Hi. apply icons_of_parseKML in Hc.
    destruct Hc as (k & e & p & ps & Hk' & Hg' & ->).
    cbn in Hi. subst k. congruence.
Qed.

Lemma extractPlacemarkInfo_absent (i : nat) :
  extractPlacemarkInfo None i = mkInfo None None None.
Proof. reflexivity. Qed.

Lemma infoName_blank (pm : node) (i : nat) :
  match firstByTagName pm "name" with
  | Some nameElement => blank (textContent nameElement)
  | None => True
  end ->
  forall fallback : jsstring,
    orElse (infoName (extractPlacemarkInfo (Some pm) i)) fallback = fallback.
Proof.
  intros H fallback. unfold extractPlacemarkInfo.
  destruct (firstByTagName pm "name") as [ne|];
    destruct (firstByTagName pm "description");
    destruct (firstByTagName pm "styleUrl"); cbn;
    try rewrite (trim_blank H); reflexivity.
Qed.

(** C4.  The tracks carry, in order, the indices of the [LineString]
    elements that have points, the index being the position among all
    [LineString] elements of the document; there are as many tracks as
    such elements.  An element whose [coordinates] text is absent, empty
    or white space only has no points, so no track carries its index,
    while the elements after it keep theirs: with three elements of which
    the first and the third have points and the second has blank
    coordinates, there are two tracks, with [originalIndex] 0 and 2. *)
Theorem parseLineStrings_skips_blank_coordinates
  (doc : Document) (this : KMLParser) (st : Store) :
  let lineStrings := getElementsByTagName doc (str "LineString") in
  let ts := returnedTracks doc this st in
  map Track.originalIndex ts
  = map fst (filter (fun p => emits (snd p)) (indexedFrom 0 lineStrings))
  /\ length ts = length (filter emits lineStrings)
  /\ (forall (i : nat) (el : element),
        nth_error lineStrings i = Some el ->
        blankCoordinates (nodeOf el) ->
        emits el = false /\ ~ In i (map Track.originalIndex ts))
  /\ (forall l0 l1 l2 : element,
        lineStrings = [l0; l1; l2] ->
        emits l0 = true -> blankCoordinates (nodeOf l1) -> emits l2 = true ->
        map Track.originalIndex ts = [0; 2] /\ length ts = 2).
Proof.
  intros lineStrings ts.
  assert (Hidx : map Track.originalIndex ts
                 = map fst (filter (fun p => emits (snd p))
                                   (indexedFrom 0 lineStrings))).
  { unfold ts. rewrite returnedTracks_spec. apply originalIndex_collect. }
  assert (Hlen : length ts = length (filter emits lineStrings)).
  { unfold ts. rewrite returnedTracks_spec. apply length_collect. }
  assert (Hblank : forall el, blankCoordinates (nodeOf el) -> emits el = false).
  { intros el H. unfold emits. now rewrite (geometryPoints_blank _ H). }
  repeat split; auto.
  - intros Hin. rewrite Hidx in Hin. apply in_map_iff in Hin.
    destruct Hin as ([k e] & Hk & Hin). cbn in Hk. subst k.
    apply filter_In in Hin. destruct Hin as [Hin Hem]. cbn in Hem.
    apply (In_indexedFrom lineStrings i e 0) in Hin.
    assert (e = el) by congruence. subst e.
    rewrite (Hblank el) in Hem by assumption. discriminate.
  - rewrite Hidx. rewrite H. cbn. rewrite H0, H2, (Hblank l1) by assumption.
    reflexivity.
  - rewrite Hlen. rewrite H. cbn. rewrite H0, H2, (Hblank l1) by assumption.
    reflexivity.
Qed.

(** The theorem at a document with three [LineString] elements whose
    second has white space for coordinates. *)
Lemma parseLineStrings_skips_blank_coordinates_witness :
  map Track.originalIndex (returnedTracks threeLineStrings newParser newStore)
  = [0; 2]
  /\ length (returnedTracks threeLineStrings newParser newStore) = 2.
Proof.
  destruct (parseLineStrings_skips_blank_coordinates threeLineStrings newParser newStore)
    as (_ & _ & _ & H).
  refine (H _ _ _ eq_refl _ _ _).
  - vm_compute; reflexivity.
  - unfold blankCoordinates, blank. vm_compute.
    repeat constructor.
  - vm_compute; reflexivity.
Defined.

(** C5.  The text [17.63,47.69,120 17.64,47.70] parses to two points,
    (lat 47.69, lon 17.63, alt 120) and (lat 47.70, lon 17.64, alt 0):
    field 0 is the longitude, field 1 the latitude, and the altitude is 0
    when there is no third field.  A [LineString] whose [coordinates]
    element holds that text yields a track with exactly these points. *)
Theorem parseCoordinates_lon_lat_alt
  (doc : Document) (this : KMLParser) (st : Store) (i : nat) (el : element)
  (ce : node) :
  let text := str "17.63,47.69,120 17.64,47.70" in
  let pts := [ mkPoint (Number.ofDecimal 4769 (-2)) (Number.ofDecimal 1763 (-2))
                       (Number.ofN 120);
               mkPoint (Number.ofDecimal 4770 (-2)) (Number.ofDecimal 1764 (-2))
                       (S754_zero false) ] in
  parseCoordinates text = pts
  /\ (nth_error (getElementsByTagName doc (str "LineString")) i = Some el ->
      firstByTagName (nodeOf el) "coordinates" = Some ce ->
      textContent ce = text ->
      exists t : Track.t,
        In t (returnedTracks doc this st)
        /\ Track.originalIndex t = i
        /\ Track.points t = pts).
Proof.
  intros text pts.
  assert (Hp : parseCoordinates text = pts) by (vm_compute; reflexivity).
  split; [exact Hp|].
  intros Hk Hce Htext.
  assert (Hg : geometryPoints (nodeOf el) = Some pts).
  { rewrite (geometryPoints_text _ Hce); rewrite Htext;
      change (JSString.trim text) with text; rewrite Hp;
      [reflexivity | discriminate]. }
  exists (trackAt i el pts). split; [|split; reflexivity].
  now apply track_at_index.
Qed.

(** The theorem at the first [LineString] of a sample document. *)
Lemma parseCoordinates_lon_lat_alt_witness :
  exists t : Track.t,
    In t (returnedTracks threeLineStrings newParser newStore)
    /\ Track.originalIndex t = 0
    /\ Track.points t
       = [ mkPoint (Number.ofDecimal 4769 (-2)) (Number.ofDecimal 1763 (-2))
                   (Number.ofN 120);
           mkPoint (Number.ofDecimal 4770 (-2)) (Number.ofDecimal 1764 (-2))
                   (S754_zero false) ].
Proof.
  refine (proj2 (@parseCoordinates_lon_lat_alt threeLineStrings newParser newStore 0
                   _ _) _ _ _);
    vm_compute; reflexivity.
Defined.

(** C8.  [parseKML] starts by giving the parser two new empty arrays, so
    what it returns depends on the document only: not on the parser and
    the arrays that exist when it is called, be they those of a new parser
    or those left by a parse of this or of another document.  A second
    call on the same document returns tracks and icons equal to those of
    the first; the arrays of the first result are not touched by it, and
    after each call the parser holds the arrays just returned.  Trees that
    are structurally equal are equal terms here, so the same holds for two
    of them. *)
Theorem parseKML_deterministic
  (doc doc' : Document) (this this' : KMLParser) (st st' : Store) :
  let '(r0, this0, st0) := parseKML doc' this st in
  let '(r1, this1, st1) := parseKML doc this0 st0 in
  let '(r2, this2, st2) := parseKML doc this1 st1 in
  returnedTracks doc this st = returnedTracks doc this' st'
  /\ returnedIcons doc this st = returnedIcons doc this' st'
  /\ tracksOf st1 r1 = returnedTracks doc this st
  /\ iconsOf st1 r1 = returnedIcons doc this st
  /\ tracksOf st2 r2 = tracksOf st1 r1
  /\ iconsOf st2 r2 = iconsOf st1 r1
  /\ tracksOf st2 r1 = tracksOf st1 r1
  /\ iconsOf st2 r1 = iconsOf st1 r1
  /\ tracksOf st2 r0 = tracksOf st0 r0
  /\ iconsOf st2 r0 = iconsOf st0 r0
  /\ (tracks this1 = resTracks r1 /\ icons this1 = resIcons r1)
  /\ (tracks this2 = resTracks r2 /\ icons this2 = resIcons r2)
  /\ resTracks r2 <> resTracks r1 /\ resIcons r2 <> resIcons r1.
Proof.
  rewrite !returnedTracks_spec, !returnedIcons_spec.
  rewrite (parseKML_spec doc' this st).
  rewrite (parseKML_spec doc). rewrite (parseKML_spec doc).
  unfold tracksOf, iconsOf.
  cbn [resTracks resIcons trackArrays iconArrays tracks icons].
  repeat split;
    first [ reflexivity
          | now rewrite !nth_middle
          | now (rewrite app_nth1 by (rewrite !length_app; cbn [length]; lia))
          | now (do 2 (rewrite app_nth1
                         by (rewrite !length_app; cbn [length]; lia)))
          | rewrite !length_app; cbn [length]; lia ].
Qed.

(** C9.  A [LineString] or [Point] that has points but no [Placemark]
    around it still yields its track or icon: the name is [Track i+1] or
    [Point i+1], with [i] its index among the elements of its kind, and the
    description, the style reference and, for an icon, the icon style are
    absent.  It is the only track or icon with that index. *)
Theorem geometry_without_placemark
  (doc : Document) (this : KMLParser) (st : Store) (i : nat) (el : element)
  (first : Point) (rest : list Point) :
  closest el (str "Placemark") = None ->
  geometryPoints (nodeOf el) = Some (first :: rest) ->
  (nth_error (getElementsByTagName doc (str "LineString")) i = Some el ->
   let t := Track.mk (str "Track " ++ JSString.ofNat (i + 1)) None
                     (first :: rest) i None in
   In t (returnedTracks doc this st)
   /\ forall t' : Track.t,
        In t' (returnedTracks doc this st) ->
        Track.originalIndex t' = i -> t' = t)
  /\ (nth_error (getElementsByTagName doc (str "Point")) i = Some el ->
      let c := Icon.mk (str "Point " ++ JSString.ofNat (i + 1)) None
                       first i None None None None in
      In c (returnedIcons doc this st)
      /\ forall c' : Icon.t,
           In c' (returnedIcons doc this st) ->
           Icon.originalIndex c' = i -> c' = c).
Proof.
  intros Hclosest Hg. split; intros Hk.
  - assert (E : trackAt i el (first :: rest)
                = Track.mk (str "Track " ++ JSString.ofNat (i + 1)) None
                           (first :: rest) i None).
    { unfold trackAt. rewrite Hclosest. reflexivity. }
    cbv zeta. rewrite <- E. now apply track_at_index.
  - assert (E : iconAt doc i el first
                = Icon.mk (str "Point " ++ JSString.ofNat (i + 1)) None
                          first i None None None None).
    { unfold iconAt. rewrite Hclosest. reflexivity. }
    cbv zeta. rewrite <- E. now apply icon_at_index with (rest := rest).
Qed.

(** The theorem at a document whose [LineString] and [Point] elements
    lie outside any [Placemark]: the track is named [Track 1], the second
    point [Point 2]. *)
Lemma geometry_without_placemark_witness :
  In (Track.mk (str "Track 1") None
        [ mkPoint (Number.ofDecimal 4769 (-2)) (Number.ofDecimal 1763 (-2))
                  (Number.ofN 120);
          mkPoint (Number.ofDecimal 4770 (-2)) (Number.ofDecimal 1764 (-2))
                  (S754_zero false) ] 0 None)
     (returnedTracks bareGeometry newParser newStore)
  /\ In (Icon.mk (str "Point 2") None
           (mkPoint (Number.ofDecimal 4769 (-2)) (Number.ofDecimal 1763 (-2))
                    (S754_zero false)) 1 None None None None)
        (returnedIcons bareGeometry newParser newStore).
Proof.
  split.
  - refine (proj1 (proj1 (@geometry_without_placemark bareGeometry newParser newStore 0
                     (item (getElementsByTagName bareGeometry (str "LineString")) 0)
                     _ _ _ _) _));
      vm_compute; reflexivity.
  - refine (proj1 (proj2 (@geometry_without_placemark bareGeometry newParser newStore 1
                     (item (getElementsByTagName bareGeometry (str "Point")) 1)
                     _ _ _ _) _));
      vm_compute; reflexivity.
Defined.

(** C10.  When the [Placemark] around a [LineString] or [Point] that has
    points holds a [name] element whose text is empty or white space only,
    the track or icon of that element is named [Track i+1] or [Point i+1],
    as it is when the [Placemark] holds no [name] element at all: the
    fallback applies to the trimmed name being empty. *)
Theorem blank_name_falls_back
  (doc : Document) (this : KMLParser) (st : Store) (i : nat) (el : element) (pm : node)
  (first : Point) (rest : list Point) :
  closest el (str "Placemark") = Some pm ->
  match firstByTagName pm "name" with
  | Some nameElement => blank (textContent nameElement)
  | None => True
  end ->
  geometryPoints (nodeOf el) = Some (first :: rest) ->
  (nth_error (getElementsByTagName doc (str "LineString")) i = Some el ->
   exists t : Track.t,
     In t (returnedTracks doc this st)
     /\ Track.originalIndex t = i
     /\ Track.points t = first :: rest
     /\ Track.name t = str "Track " ++ JSString.ofNat (i + 1))
  /\ (nth_error (getElementsByTagName doc (str "Point")) i = Some el ->
      exists c : Icon.t,
        In c (returnedIcons doc this st)
        /\ Icon.originalIndex c = i
        /\ Icon.position c = first
        /\ Icon.name c = str "Point " ++ JSString.ofNat (i + 1)).
Proof.
  intros Hclosest Hname Hg. split; intros Hk.
  - exists (trackAt i el (first :: rest)).
    split; [now apply track_at_index|]. repeat split.
    unfold trackAt. rewrite Hclosest. cbn [Track.name].
    now apply infoName_blank.
  - exists (iconAt doc i el first).
    split; [now apply icon_at_index with (rest := rest)|]. repeat split.
    unfold iconAt. rewrite Hclosest. cbn [Icon.name].
    now apply infoName_blank.
Qed.

(** The theorem at a [LineString] in a placemark with an empty name and
    at a [Point] in a placemark whose name is white space. *)
Lemma blank_name_falls_back_witness :
  (exists t : Track.t,
     In t (returnedTracks unnamedPlacemarks newParser newStore)
     /\ Track.originalIndex t = 0
     /\ Track.name t = str "Track 1")
  /\ (exists c : Icon.t,
        In c (returnedIcons unnamedPlacemarks newParser newStore)
        /\ Icon.originalIndex c = 0
        /\ Icon.name c = str "Point 1").
Proof.
  split.
  - destruct (proj1 (@blank_name_falls_back unnamedPlacemarks newParser newStore 0
             (item (getElementsByTagName unnamedPlacemarks (str "LineString")) 0)
             (elem "Placemark"
                [elem "name" [];
                 elem "LineString" [leaf "coordinates" "17.63,47.69 17.64,47.70"]])
             (mkPoint (Number.ofDecimal 4769 (-2)) (Number.ofDecimal 1763 (-2))
                      (S754_zero false))
             [mkPoint (Number.ofDecimal 4770 (-2)) (Number.ofDecimal 1764 (-2))
                      (S754_zero false)]
             ltac:(vm_compute; reflexivity)
             ltac:(vm_compute; constructor)
             ltac:(vm_compute; reflexivity))
           ltac:(vm_compute; reflexivity))
      as (t & Hin & Hi & _ & Hn).
    exists t. auto.
  - destruct (proj2 (@blank_name_falls_back unnamedPlacemarks newParser newStore 0
             (item (getElementsByTagName unnamedPlacemarks (str "Point")) 0)
             (elem "Placemark"
                [leaf "name" "   ";
                 elem "Point" [leaf "coordinates" "17.63,47.69"]])
             (mkPoint (Number.ofDecimal 4769 (-2)) (Number.ofDecimal 1763 (-2))
                      (S754_zero false))
             []
             ltac:(vm_compute; reflexivity)
             ltac:(vm_compute; repeat constructor)
             ltac:(vm_compute; reflexivity))
           ltac:(vm_compute; reflexivity))
      as (c & Hin & Hi & _ & Hn).
    exists c. auto.
Defined.

(* ================================================================== *)
(** ** Loading *)
(* ================================================================== *)

Section LoadingFacts.

Variable parseFromString : jsstring -> Document.
Variable fetch : jsstring -> settled Response.

Lemma loadText_parsererror (text : jsstring) (this : KMLParser) (st : Store) :
  getElementsByTagName (parseFromString text) (str "parsererror") <> [] ->
  loadText parseFromString text this st
  = (Rejected (Error (str "Invalid KML file format")), this, st).
Proof.
  intros H. unfold loadText.
  destruct (getElementsByTagName (parseFromString text) (str "parsererror"));
    [now elim H | reflexivity].
Qed.

(** C2.  When the document that the XML parser returns for the text holds
    a [parsererror] element, loading fails: from a file whose text is
    read, and from a URL whose response is successful and whose body is
    read, the call is rejected with the one error [Invalid KML file
    format], there is no [{tracks, icons}] value, and the parser and
    every array, those of its earlier result among them, are as they were
    before the call. *)
Theorem malformed_document_fails
  (file : File) (url : jsstring) (response : Response) (text : jsstring)
  (this : KMLParser) (st : Store) :
  getElementsByTagName (parseFromString text) (str "parsererror") <> [] ->
  (fileText file = Fulfilled text ->
   loadKMLFile parseFromString file this st
   = (Rejected (Error (str "Invalid KML file format")), this, st))
  /\ (fetch url = Fulfilled response ->
      ok response = true ->
      responseText response = Fulfilled text ->
      loadKMLFromURL parseFromString fetch url this st
      = (Rejected (Error (str "Invalid KML file format")), this, st)).
Proof.
  intros Herr. split.
  - intros Hf. unfold loadKMLFile. rewrite Hf.
    now apply loadText_parsererror.
  - intros Hu Hok Hb. unfold loadKMLFromURL. rewrite Hu, Hok, Hb.
    now apply loadText_parsererror.
Qed.

End LoadingFacts.

(** The theorem for a parser of text that reports an error and a parser
    object that holds the outcome of an earlier load. *)
Lemma malformed_document_fails_witness :
  let '(_, this, st) := parseKML threeLineStrings newParser newStore in
  loadKMLFile rejectingParser (mkFile (Fulfilled (str "<kml>"))) this st
  = (Rejected (Error (str "Invalid KML file format")), this, st)
  /\ loadKMLFromURL rejectingParser answeringFetch (str "tracks.kml") this st
     = (Rejected (Error (str "Invalid KML file format")), this, st).
Proof.
  destruct (parseKML threeLineStrings newParser newStore) as [[r this] st].
  destruct (@malformed_document_fails rejectingParser answeringFetch
              (mkFile (Fulfilled (str "<kml>"))) (str "tracks.kml")
              (mkResponse true 200 (str "OK") (Fulfilled (str "<kml>")))
              (str "<kml>") this st ltac:(vm_compute; discriminate))
    as [Hfile Hurl].
  split; [apply Hfile | apply Hurl]; reflexivity.
Defined.

(* ================================================================== *)
(** ** extractIconStyle *)
(* ================================================================== *)

Lemma readIconStyle_spec (iconStyle : node) (style : IconStyle) :
  readIconStyle iconStyle style
  = mkStyle
      (match hrefOf iconStyle with Some h => Some h | None => iconUrl style end)
      (match scaleOf iconStyle with
       | Some s => Some (sizeFor s)
       | None => iconSize style
       end)
      (match scaleOf iconStyle with
       | Some s => Some (anchorFor s)
       | None => iconAnchor style
       end).
Proof.
  unfold readIconStyle, hrefOf, scaleOf, sizeFor, anchorFor.
  destruct style as [u sz an].
  destruct (firstByTagName iconStyle "Icon") as [icon|];
    [destruct (firstByTagName icon "href")|];
    (destruct (firstByTagName iconStyle "scale") as [sc|];
     [destruct (isNaN (parseFloat (textContent sc)))|]); reflexivity.
Qed.

Lemma iconUrl_inlineStyle (pm : node) :
  falsy (iconUrl (inlineStyle pm)) = noInlineIconUrl pm.
Proof.
  unfold inlineStyle, noInlineIconUrl.
  destruct (inlineIconStyle pm) as [iconStyle|]; [|reflexivity].
  rewrite readIconStyle_spec. cbn. now destruct (hrefOf iconStyle).
Qed.

Lemma extractIconStyle_spec (doc : Document) (pm : node) :
  extractIconStyle doc (Some pm)
  = if noInlineIconUrl pm then
      match referencedIconStyle doc pm with
      | Some iconStyle => readIconStyle iconStyle (inlineStyle pm)
      | None => inlineStyle pm
      end
    else inlineStyle pm.
Proof.
  rewrite <- iconUrl_inlineStyle.
  unfold extractIconStyle, inlineStyle, inlineIconStyle, referencedIconStyle,
    styleReference.
  destruct (firstByTagName pm "Style") as [styleElement|];
    [destruct (firstByTagName styleElement "IconStyle") as [iconStyle|]|];
    match goal with |- context [falsy ?u] => destruct (falsy u) end;
    try reflexivity;
    destruct (firstByTagName pm "styleUrl") as [styleUrl|]; cbn;
    try reflexivity;
    destruct (getElementById doc _); reflexivity.
Qed.

(** X28.  When the inline [IconStyle] of a placemark has an [href] that
    is not empty, the icon style comes from that element alone: its
    [href] is the URL and its scale, when a number, gives size and
    anchor, whatever the [styleUrl] of the placemark and the style it
    refers to. *)
Theorem inline_href_takes_precedence
  (doc : Document) (pm iconStyle : node) (h : jsstring) :
  inlineIconStyle pm = Some iconStyle ->
  hrefOf iconStyle = Some h ->
  h <> [] ->
  extractIconStyle doc (Some pm)
  = mkStyle (Some h) (option_map sizeFor (scaleOf iconStyle))
            (option_map anchorFor (scaleOf iconStyle)).
Proof.
  intros Hin Hh Hne. rewrite extractIconStyle_spec.
  unfold noInlineIconUrl, inlineStyle. rewrite Hin, Hh.
  destruct h as [|c h]; [now elim Hne|]. cbn [falsy JSString.truthy negb].
  rewrite readIconStyle_spec, Hh. now destruct (scaleOf iconStyle).
Qed.

(** The theorem at a placemark with its own icon and scale 2, whose
    [styleUrl] resolves to a style with another icon and scale 3. *)
Lemma inline_href_takes_precedence_witness :
  extractIconStyle inlineIconDocument (Some (firstPlacemark inlineIconDocument))
  = mkStyle (Some (str "pin.png"))
            (Some (Number.ofN 64, Number.ofN 64))
            (Some (Number.ofN 32, Number.ofN 32)).
Proof.
  rewrite (@inline_href_takes_precedence inlineIconDocument
             (firstPlacemark inlineIconDocument)
             (elem "IconStyle" [elem "Icon" [leaf "href" " pin.png "];
                                leaf "scale" "2"])
             (str "pin.png"));
    [vm_compute; reflexivity | vm_compute; reflexivity
    | vm_compute; reflexivity | discriminate].
Defined.

(** C3.  The method at a placemark whose inline [IconStyle] has the
    scale 2 and no [href] and whose [styleUrl] resolves to a style with
    [href] icon.png and the scale 3: the test before the second pass asks
    for an icon URL, not for an inline style, so the referenced style is
    consulted, and its scale 3, not the inline scale 2, gives the size
    (96, 96) and the anchor (48, 48), where the inline scale gives
    (64, 64). *)
Lemma referenced_scale_overrides_inline :
  let pm := firstPlacemark twoScalesDocument in
  bindScale (inlineIconStyle pm) = Some (Number.ofN 2)
  /\ styleReference pm = Some (str "#s1")
  /\ bindScale (referencedIconStyle twoScalesDocument pm) = Some (Number.ofN 3)
  /\ extractIconStyle twoScalesDocument (Some pm)
     = mkStyle (Some (str "icon.png"))
               (Some (Number.ofN 96, Number.ofN 96))
               (Some (Number.ofN 48, Number.ofN 48))
  /\ sizeFor (Number.ofN 2) = (Number.ofN 64, Number.ofN 64)
  /\ Number.ofN 96 <> Number.ofN 64.
Proof. vm_compute. repeat split; discriminate. Qed.

Lemma sizes_spelled_out (s : number) :
  sizeFor s = (Number.mul (Number.ofN 32) s, Number.mul (Number.ofN 32) s)
  /\ anchorFor s = (Number.div (fst (sizeFor s)) (Number.ofN 2),
                    Number.div (snd (sizeFor s)) (Number.ofN 2)).
Proof. split; reflexivity. Qed.

Lemma inlineStyle_scale (pm : node) :
  iconSize (inlineStyle pm) = option_map sizeFor (inlineScale pm)
  /\ iconAnchor (inlineStyle pm) = option_map anchorFor (inlineScale pm).
Proof.
  unfold inlineStyle, inlineScale, bindScale.
  destruct (inlineIconStyle pm) as [inline|]; [|split; reflexivity].
  rewrite readIconStyle_spec. cbn.
  destruct (scaleOf inline); split; reflexivity.
Qed.

(** C6, as amended.  Let [s] be the scale of an [IconStyle] that applies
    to the placemark: the inline one, or the referenced one when it is
    consulted.  When one of the two has a scale that is a number and the
    other has not, [iconSize] is (32*s, 32*s) and [iconAnchor] is half
    of it in each component, (32*s/2, 32*s/2), in binary64 arithmetic;
    when neither has, both are absent.  Nothing is said of a placemark
    where both have one.  For an inline [IconStyle] with scale 2 and no
    [href] and a [styleUrl] [#s1] that resolves to a style whose
    [IconStyle] has [href] icon.png and no scale, the icon style is
    icon.png, (64, 64), (32, 32). *)
Theorem icon_size_from_scale (doc : Document) (pm : node) :
  let style := extractIconStyle doc (Some pm) in
  (forall s : number,
     (inlineScale pm = Some s /\ referencedScale doc pm = None)
     \/ (inlineScale pm = None /\ referencedScale doc pm = Some s) ->
     iconSize style = Some (sizeFor s)
     /\ iconAnchor style = Some (anchorFor s))
  /\ (inlineScale pm = None -> referencedScale doc pm = None ->
      iconSize style = None /\ iconAnchor style = None)
  /\ (forall s : number,
        sizeFor s = (Number.mul (Number.ofN 32) s, Number.mul (Number.ofN 32) s)
        /\ anchorFor s = (Number.div (fst (sizeFor s)) (Number.ofN 2),
                          Number.div (snd (sizeFor s)) (Number.ofN 2)))
  /\ (forall inline referencedStyle referenced : node,
        inlineIconStyle pm = Some inline ->
        hrefOf inline = None ->
        scaleOf inline = Some (Number.ofN 2) ->
        styleReference pm = Some (str "#s1") ->
        getElementById doc (str "s1") = Some referencedStyle ->
        firstByTagName referencedStyle "IconStyle" = Some referenced ->
        hrefOf referenced = Some (str "icon.png") ->
        scaleOf referenced = None ->
        style = mkStyle (Some (str "icon.png"))
                        (Some (Number.ofN 64, Number.ofN 64))
                        (Some (Number.ofN 32, Number.ofN 32))).
Proof.
  intros style.
  assert (Hstyle :
            iconSize style
            = match referencedScale doc pm with
              | Some s => Some (sizeFor s)
              | None => option_map sizeFor (inlineScale pm)
              end
            /\ iconAnchor style
               = match referencedScale doc pm with
                 | Some s => Some (anchorFor s)
                 | None => option_map anchorFor (inlineScale pm)
                 end).
  { destruct (inlineStyle_scale pm) as [Hsize Hanchor].
    unfold style, referencedScale, bindScale. rewrite extractIconStyle_spec.
    destruct (noInlineIconUrl pm); [|split; assumption].
    destruct (referencedIconStyle doc pm) as [referenced|];
      [|split; assumption].
    rewrite readIconStyle_spec. cbn [iconSize iconAnchor].
    destruct (scaleOf referenced); split; first [reflexivity|assumption]. }
  destruct Hstyle as [Hsize Hanchor].
  split; [|split; [|split]].
  - intros s [[Hin Href]|[Hin Href]]; rewrite Hsize, Hanchor, Hin, Href;
      split; reflexivity.
  - intros Hin Href. rewrite Hsize, Hanchor, Hin, Href. split; reflexivity.
  - intros s. split; reflexivity.
  - intros inline referencedStyle referenced Hin Hh Hs Hr Hid Hris Hrh Hrs.
    unfold style. rewrite extractIconStyle_spec.
    unfold inlineStyle, noInlineIconUrl, referencedIconStyle.
    rewrite Hin, Hh, Hr.
    change (JSString.replaceFirst hash (str "#s1")) with (str "s1").
    rewrite Hid, Hris. cbn [falsy].
    rewrite !readIconStyle_spec, Hh, Hs, Hrh, Hrs. reflexivity.
Qed.

(** The theorem at the document of the example, and the icon that
    [parseKML] returns for it. *)
Lemma icon_size_from_scale_witness :
  extractIconStyle scaledIconDocument (Some (firstPlacemark scaledIconDocument))
  = mkStyle (Some (str "icon.png"))
            (Some (Number.ofN 64, Number.ofN 64))
            (Some (Number.ofN 32, Number.ofN 32))
  /\ returnedIcons scaledIconDocument newParser newStore
     = [Icon.mk (str "Point 1") None
          (mkPoint (Number.ofDecimal 4769 (-2)) (Number.ofDecimal 1763 (-2))
                   (S754_zero false))
          0 (Some (str "icon.png"))
          (Some (Number.ofN 64, Number.ofN 64))
          (Some (Number.ofN 32, Number.ofN 32))
          (Some (str "#s1"))].
Proof.
  split; [|vm_compute; reflexivity].
  refine (proj2 (proj2 (proj2
            (@icon_size_from_scale scaledIconDocument
               (firstPlacemark scaledIconDocument))))
            (elem "IconStyle" [leaf "scale" "2"])
            (sharedStyle "s1" [])
            (elem "IconStyle" [elem "Icon" [leaf "href" "icon.png"]])
            _ _ _ _ _ _ _ _);
    vm_compute; reflexivity.
Defined.

(** C6, as stated, fails for the scale 1e307 of an inline [IconStyle]
    whose placemark has a [styleUrl] that resolves to nothing: 32 times
    the scale is beyond the range of binary64, so the size and the anchor
    are infinite, while 16 times the scale is finite. *)
Lemma anchor_differs_from_sixteen_times_scale :
  let pm := firstPlacemark hugeScaleDocument in
  let s := parseFloat (str "1e307") in
  inlineScale pm = Some s
  /\ referencedScale hugeScaleDocument pm = None
  /\ iconSize (extractIconStyle hugeScaleDocument (Some pm))
     = Some (Number.mul (Number.ofN 32) s, Number.mul (Number.ofN 32) s)
  /\ iconAnchor (extractIconStyle hugeScaleDocument (Some pm))
     = Some (S754_infinity false, S754_infinity false)
  /\ Number.mul (Number.ofN 16) s = S754_finite false 8016673440035891 971
  /\ Number.isFinite (Number.mul (Number.ofN 16) s) = true.
Proof. vm_compute. repeat split. Qed.

(** [replace('#', '')] removes the first [#] wherever it stands. *)
Remark replaceFirst_samples :
  JSString.replaceFirst hash (str "#s1") = str "s1"
  /\ JSString.replaceFirst hash (str "s1") = str "s1"
  /\ JSString.replaceFirst hash (str "##s1") = str "#s1"
  /\ JSString.replaceFirst hash (str "styles.kml#s1") = str "styles.kmls1".
Proof. vm_compute. repeat split. Qed.

(** C7, as amended.  For a placemark whose inline pass left no icon URL
    and whose [styleUrl] has the trimmed text [r], where [r] starts with
    [#] or has no [#] at all: the id looked up in the whole document is
    [r] without a leading [#].  When an element has that id and its
    [IconStyle] has an [href], that [href] is the icon URL.  When no
    element has that id, the icon style is what the inline pass left: no
    icon URL, and the size and anchor that an inline scale gave, all
    absent when the placemark has no inline [IconStyle]. *)
Theorem style_reference_lookup (doc : Document) (pm : node) (r : jsstring) :
  noInlineIconUrl pm = true ->
  styleReference pm = Some r ->
  leadingHashOrNone r ->
  (forall (referencedStyle referenced : node) (h : jsstring),
     getElementById doc (stripLeadingHash r) = Some referencedStyle ->
     firstByTagName referencedStyle "IconStyle" = Some referenced ->
     hrefOf referenced = Some h ->
     iconUrl (extractIconStyle doc (Some pm)) = Some h)
  /\ (getElementById doc (stripLeadingHash r) = None ->
      extractIconStyle doc (Some pm) = inlineStyle pm
      /\ falsy (iconUrl (inlineStyle pm)) = true
      /\ iconSize (inlineStyle pm)
         = option_map sizeFor (bindScale (inlineIconStyle pm))
      /\ iconAnchor (inlineStyle pm)
         = option_map anchorFor (bindScale (inlineIconStyle pm))
      /\ (inlineIconStyle pm = None ->
          extractIconStyle doc (Some pm) = mkStyle None None None)).
Proof.
  intros Hno Hr Hhash.
  assert (E : extractIconStyle doc (Some pm)
              = match getElementById doc (stripLeadingHash r) with
                | Some referencedStyle =>
                    match firstByTagName referencedStyle "IconStyle" with
                    | Some iconStyle => readIconStyle iconStyle (inlineStyle pm)
                    | None => inlineStyle pm
                    end
                | None => inlineStyle pm
                end).
  { rewrite extractIconStyle_spec, Hno. unfold referencedIconStyle.
    rewrite Hr, (@replaceFirst_leading r Hhash).
    destruct (getElementById doc (stripLeadingHash r)) as [rs|]; [|reflexivity].
    destruct (firstByTagName rs "IconStyle"); reflexivity. }
  split.
  - intros rs ris h Hid His Hh. rewrite E, Hid, His, readIconStyle_spec, Hh.
    reflexivity.
  - intros Hid. rewrite E, Hid.
    split; [reflexivity|].
    split; [now rewrite iconUrl_inlineStyle|].
    unfold inlineStyle, bindScale.
    destruct (inlineIconStyle pm) as [inline|].
    + rewrite readIconStyle_spec. cbn.
      destruct (scaleOf inline); repeat split; discriminate.
    + repeat split.
Qed.

(** The theorem at a reference that resolves and at one that does not. *)
Lemma style_reference_lookup_witness :
  iconUrl (extractIconStyle scaledIconDocument
             (Some (firstPlacemark scaledIconDocument)))
  = Some (str "icon.png")
  /\ extractIconStyle danglingReferenceDocument
       (Some (firstPlacemark danglingReferenceDocument))
     = inlineStyle (firstPlacemark danglingReferenceDocument).
Proof.
  split.
  - refine (proj1 (@style_reference_lookup scaledIconDocument
                     (firstPlacemark scaledIconDocument) (str "#s1")
                     _ _ _)
                  (sharedStyle "s1" [])
                  (elem "IconStyle" [elem "Icon" [leaf "href" "icon.png"]])
                  (str "icon.png") _ _ _);
      try (vm_compute; reflexivity).
    left. eexists. reflexivity.
  - refine (proj1 (proj2 (@style_reference_lookup danglingReferenceDocument
                     (firstPlacemark danglingReferenceDocument) (str "#s2")
                     _ _ _) _));
      try (vm_compute; reflexivity).
    left. eexists. reflexivity.
Defined.

(** C7, as stated, fails when the inline [IconStyle] has a scale and no
    [href] and the reference resolves to nothing: the size and the anchor
    that the inline scale gave stay. *)
Lemma failed_lookup_keeps_inline_scale :
  let pm := firstPlacemark danglingReferenceDocument in
  noInlineIconUrl pm = true
  /\ styleReference pm = Some (str "#s2")
  /\ getElementById danglingReferenceDocument (str "s2") = None
  /\ extractIconStyle danglingReferenceDocument (Some pm)
     = mkStyle None (Some (Number.ofN 64, Number.ofN 64))
               (Some (Number.ofN 32, Number.ofN 32))
  /\ iconSize (extractIconStyle danglingReferenceDocument (Some pm)) <> None.
Proof. vm_compute. repeat split; discriminate. Qed.

(* ================================================================== *)
(** ** What every parse result satisfies *)
(* ================================================================== *)

Lemma accepted_numeric (coord : jsstring) :
  accepted coord = true -> numericPoint (pointOf coord).
Proof.
  unfold accepted, numericPoint, pointOf, isNumber. cbn [lat lon alt].
  rewrite !andb_true_iff, !negb_true_iff. tauto.
Qed.

Lemma parseCoordinates_numeric (text : jsstring) :
  Forall numericPoint (parseCoordinates text).
Proof.
  rewrite parseCoordinates_tuples.
  apply Forall_forall. intros p Hp. apply in_map_iff in Hp.
  destruct Hp as (coord & <- & Hc). apply filter_In in Hc.
  now apply accepted_numeric.
Qed.

(** X1.  No point that [parseCoordinates] returns has a NaN latitude,
    longitude or altitude, and there are at most as many points as there
    are tuples in the text. *)
Theorem parseCoordinates_points_are_numbers (text : jsstring) :
  Forall numericPoint (parseCoordinates text)
  /\ length (parseCoordinates text) <= length (tuples text).
Proof.
  split; [apply parseCoordinates_numeric|].
  rewrite parseCoordinates_tuples, length_map. apply filter_length_le.
Qed.

Lemma geometryPoints_numeric (geometry : node) (pts : list Point) :
  geometryPoints geometry = Some pts -> Forall numericPoint pts.
Proof.
  unfold geometryPoints.
  destruct (firstByTagName geometry "coordinates") as [ce|]; [|discriminate].
  destruct (JSString.truthy (JSString.trim (textContent ce))); [|discriminate].
  pose proof (parseCoordinates_numeric (JSString.trim (textContent ce))) as H.
  destruct (parseCoordinates (JSString.trim (textContent ce)));
    [discriminate|].
  intros E; injection E as <-; exact H.
Qed.

Lemma orElse_nonempty (a : option jsstring) (b : jsstring) :
  b <> [] -> orElse a b <> [].
Proof.
  intros Hb. unfold orElse. destruct a as [[|c s]|]; cbn; try exact Hb.
  discriminate.
Qed.

(** The indices kept by a filter on an indexed collection increase and
    stay within the collection. *)
Lemma indices_sorted (P : nat * element -> bool) (l : list element) :
  forall i : nat,
    StronglySorted lt (map fst (filter P (indexedFrom i l)))
    /\ Forall (fun k => i <= k < i + length l)
              (map fst (filter P (indexedFrom i l))).
Proof.
  induction l as [|e l IH]; intros i.
  - split; constructor.
  - rewrite indexedFrom_cons. destruct (IH (S i)) as [Hs Hb].
    assert (Hb' : Forall (fun k => i <= k < i + length (e :: l))
                         (map fst (filter P (indexedFrom (S i) l)))).
    { eapply Forall_impl; [|exact Hb]. cbn. intros k Hk. lia. }
    cbn [filter]. destruct (P (i, e)); cbn [map fst].
    + split.
      * constructor; [exact Hs|].
        eapply Forall_impl; [|exact Hb]. cbn. intros k Hk. lia.
      * constructor; [cbn; lia | exact Hb'].
    + split; assumption.
Qed.

Lemma icon_originalIndex_collect (doc : Document) (l : list element) :
  forall i : nat,
    map Icon.originalIndex (collect (iconOf doc) (indexedFrom i l))
    = map fst (filter (fun p => emits (snd p)) (indexedFrom i l)).
Proof.
  induction l as [|e l IH]; intros i; [reflexivity|].
  rewrite collect_cons, indexedFrom_cons, map_app, IH. cbn [filter snd].
  unfold iconOf, emits.
  destruct (geometryPoints (nodeOf e)) as [pts|] eqn:E; [|reflexivity].
  destruct (geometryPoints_nonempty _ E) as (p & ps & ->). reflexivity.
Qed.

(** The entry at position [k] of a strictly increasing list of indices is
    at least [k]. *)
Lemma sorted_nth_from (l : list nat) :
  forall (b k n : nat),
    StronglySorted lt l -> Forall (fun z => b <= z) l ->
    nth_error l k = Some n -> b + k <= n.
Proof.
  induction l as [|z l IH]; intros b k n Hs Hb Hk.
  - destruct k; discriminate.
  - inversion Hs as [|? ? Hs' Hz]; subst. inversion Hb; subst.
    destruct k as [|k]; cbn in Hk.
    + injection Hk as ->. lia.
    + assert (S z + k <= n); [|lia].
      apply IH; [exact Hs' | | exact Hk].
      eapply Forall_impl; [|exact Hz]. cbn. intros; lia.
Qed.

Lemma sorted_nth_ge (l : list nat) (k n : nat) :
  StronglySorted lt l -> nth_error l k = Some n -> k <= n.
Proof.
  intros Hs Hk. apply (@sorted_nth_from l 0 k n Hs); [|exact Hk].
  apply Forall_forall. intros; lia.
Qed.

Lemma returned_tracks_sorted (doc : Document) (this : KMLParser) (st : Store) :
  StronglySorted lt (map Track.originalIndex (returnedTracks doc this st)).
Proof.
  rewrite returnedTracks_spec, originalIndex_collect. apply indices_sorted.
Qed.

Lemma returned_icons_sorted (doc : Document) (this : KMLParser) (st : Store) :
  StronglySorted lt (map Icon.originalIndex (returnedIcons doc this st)).
Proof.
  rewrite returnedIcons_spec, icon_originalIndex_collect. apply indices_sorted.
Qed.

(** X2.  Every track that [parseKML] returns has a name that is not
    empty, at least one point, no NaN among the coordinates of its points,
    and an [originalIndex] below the number of [LineString] elements of the
    document.  The tracks are in strictly increasing order of
    [originalIndex], so no two share one, and there are at most as many
    tracks as [LineString] elements. *)
Theorem returned_tracks_invariants
  (doc : Document) (this : KMLParser) (st : Store) :
  let ts := returnedTracks doc this st in
  let n := length (getElementsByTagName doc (str "LineString")) in
  Forall (fun t => Track.name t <> []
                   /\ Track.points t <> []
                   /\ Forall numericPoint (Track.points t)
                   /\ Track.originalIndex t < n) ts
  /\ StronglySorted lt (map Track.originalIndex ts)
  /\ length ts <= n.
Proof.
  intros ts n. split; [|split].
  - apply Forall_forall. intros t Ht. apply tracks_of_parseKML in Ht.
    destruct Ht as (i & el & pts & Hi & Hg & ->). cbn.
    split; [apply orElse_nonempty; discriminate|].
    split; [destruct (geometryPoints_nonempty _ Hg) as (p & ps & ->);
            discriminate|].
    split; [now apply geometryPoints_numeric with (geometry := nodeOf el)|].
    apply nth_error_Some. unfold n. congruence.
  - apply returned_tracks_sorted.
  - unfold ts. rewrite returnedTracks_spec, length_collect.
    apply filter_length_le.
Qed.

Lemma readIconStyle_sizeAndAnchor (iconStyle : node) (style : IconStyle) :
  sizeAndAnchor (iconSize style) (iconAnchor style) ->
  sizeAndAnchor (iconSize (readIconStyle iconStyle style))
                (iconAnchor (readIconStyle iconStyle style)).
Proof.
  intros H. rewrite readIconStyle_spec. cbn.
  destruct (scaleOf iconStyle) as [s|]; [|exact H].
  right. exists (Number.mul baseSize s). split; reflexivity.
Qed.

Lemma extractIconStyle_sizeAndAnchor (doc : Document) (pm : option node) :
  sizeAndAnchor (iconSize (extractIconStyle doc pm))
                (iconAnchor (extractIconStyle doc pm)).
Proof.
  destruct pm as [pm|]; [|left; split; reflexivity].
  assert (Hin : sizeAndAnchor (iconSize (inlineStyle pm))
                              (iconAnchor (inlineStyle pm))).
  { unfold inlineStyle. destruct (inlineIconStyle pm).
    - apply readIconStyle_sizeAndAnchor. left; split; reflexivity.
    - left; split; reflexivity. }
  rewrite extractIconStyle_spec.
  destruct (noInlineIconUrl pm); [|exact Hin].
  destruct (referencedIconStyle doc pm); [|exact Hin].
  now apply readIconStyle_sizeAndAnchor.
Qed.

(** X3.  Every icon that [parseKML] returns has a name that is not empty,
    a position without NaN, and an [originalIndex] below the number of
    [Point] elements of the document.  Its [iconSize] and [iconAnchor] are
    both absent or both present; when present the size is a square and the
    anchor is half of it in each direction.  The icons are in strictly
    increasing order of [originalIndex], and there are at most as many as
    [Point] elements. *)
Theorem returned_icons_invariants
  (doc : Document) (this : KMLParser) (st : Store) :
  let cs := returnedIcons doc this st in
  let n := length (getElementsByTagName doc (str "Point")) in
  Forall (fun c => Icon.name c <> []
                   /\ numericPoint (Icon.position c)
                   /\ Icon.originalIndex c < n
                   /\ sizeAndAnchor (Icon.iconSize c) (Icon.iconAnchor c)) cs
  /\ StronglySorted lt (map Icon.originalIndex cs)
  /\ length cs <= n.
Proof.
  intros cs n. split; [|split].
  - apply Forall_forall. intros c Hc. apply icons_of_parseKML in Hc.
    destruct Hc as (i & el & first & rest & Hi & Hg & ->). cbn.
    split; [apply orElse_nonempty; discriminate|].
    split; [pose proof (geometryPoints_numeric _ Hg) as Hn;
            now inversion Hn|].
    split; [apply nth_error_Some; unfold n; congruence|].
    apply extractIconStyle_sizeAndAnchor.
  - apply returned_icons_sorted.
  - unfold cs. rewrite returnedIcons_spec.
    rewrite <- (length_map Icon.originalIndex), icon_originalIndex_collect.
    rewrite length_map. unfold indexedFrom.
    etransitivity; [apply filter_length_le|].
    rewrite length_combine, length_seq. lia.
Qed.

(* ================================================================== *)
(** ** The accessors *)
(* ================================================================== *)

Lemma at_None {A : Type} (arr : list A) (index : Z) :
  at_ arr index = None <-> (index < 0 \/ Z.of_nat (length arr) <= index)%Z.
Proof.
  unfold at_. destruct (Z.ltb_spec index 0) as [Hneg|Hpos].
  - split; auto.
  - rewrite nth_error_None. lia.
Qed.

Lemma at_Some {A : Type} (arr : list A) (index : Z) (x : A) :
  at_ arr index = Some x ->
  (0 <= index)%Z /\ nth_error arr (Z.to_nat index) = Some x.
Proof.
  unfold at_. destruct (Z.ltb_spec index 0); [discriminate|]. auto.
Qed.

Lemma parser_after_parseKML (doc : Document) (this : KMLParser) (st : Store) :
  let '(r, this1, st1) := parseKML doc this st in
  trackArray st1 (tracks this1) = returnedTracks doc this st
  /\ iconArray st1 (icons this1) = returnedIcons doc this st
  /\ tracks this1 = resTracks r /\ icons this1 = resIcons r.
Proof.
  rewrite returnedTracks_spec, returnedIcons_spec, parseKML_spec.
  unfold trackArray, iconArray. cbn. rewrite !nth_middle. auto.
Qed.

(** X4.  After [parseKML], [getTrack(index)] and [getIcon(index)] are
    [null] exactly for an index below 0 or from the number of returned
    tracks or icons on; otherwise they return the entry at that position of
    the returned array.  The position is not the [originalIndex]: the
    entry at position [index] has an [originalIndex] of at least [index]. *)
Theorem getTrack_getIcon_bounds
  (doc : Document) (this : KMLParser) (st : Store) (index : Z) :
  let '(_, this1, st1) := parseKML doc this st in
  let ts := returnedTracks doc this st in
  let cs := returnedIcons doc this st in
  (getTrack index this1 st1 = None
   <-> (index < 0 \/ Z.of_nat (length ts) <= index)%Z)
  /\ (forall t : Track.t,
        getTrack index this1 st1 = Some t ->
        nth_error ts (Z.to_nat index) = Some t
        /\ (index <= Z.of_nat (Track.originalIndex t))%Z)
  /\ (getIcon index this1 st1 = None
      <-> (index < 0 \/ Z.of_nat (length cs) <= index)%Z)
  /\ (forall c : Icon.t,
        getIcon index this1 st1 = Some c ->
        nth_error cs (Z.to_nat index) = Some c
        /\ (index <= Z.of_nat (Icon.originalIndex c))%Z).
Proof.
  pose proof (parser_after_parseKML doc this st) as H.
  pose proof (returned_tracks_sorted doc this st) as Hts.
  pose proof (returned_icons_sorted doc this st) as Hcs.
  destruct (parseKML doc this st) as [[r this1] st1].
  destruct H as (Ht & Hc & _). unfold getTrack, getIcon. rewrite Ht, Hc.
  cbv zeta. split; [apply at_None|]. split.
  - intros t H. apply at_Some in H. destruct H as [H0 H].
    split; [exact H|].
    assert (Z.to_nat index <= Track.originalIndex t); [|lia].
    apply (@sorted_nth_ge _ _ _ Hts). now apply map_nth_error.
  - split; [apply at_None|].
    intros c H. apply at_Some in H. destruct H as [H0 H].
    split; [exact H|].
    assert (Z.to_nat index <= Icon.originalIndex c); [|lia].
    apply (@sorted_nth_ge _ _ _ Hcs). now apply map_nth_error.
Qed.

(** [find] returns the first entry that passes the test. *)
Lemma find_split {A : Type} (f : A -> bool) (l : list A) (x : A) :
  find f l = Some x ->
  exists l1 l2, l = l1 ++ x :: l2 /\ f x = true
                /\ forall y, In y l1 -> f y = false.
Proof.
  induction l as [|a l IH]; [discriminate|]. cbn.
  destruct (f a) eqn:Ha.
  - intros E; injection E as ->. exists [], l. repeat split; auto.
    intros y [].
  - intros E. destruct (IH E) as (l1 & l2 & -> & Hx & Hl1).
    exists (a :: l1), l2. repeat split; auto.
    intros y [<-|Hy]; auto.
Qed.

Lemma sorted_tail (l1 l2 : list nat) :
  StronglySorted lt (l1 ++ l2) -> StronglySorted lt l2.
Proof.
  induction l1 as [|x l1 IH]; cbn; [auto|].
  intros H; inversion H; auto.
Qed.

Lemma find_by_name {A : Type} (nameOf : A -> jsstring) (indexOf : A -> nat)
  (l : list A) (name : jsstring) :
  StronglySorted lt (map indexOf l) ->
  let found := find (fun x => JSString.eqb (nameOf x) name) l in
  (found = None <-> forall x, In x l -> nameOf x <> name)
  /\ (forall x, found = Some x ->
        In x l /\ nameOf x = name
        /\ forall y, In y l -> nameOf y = name -> indexOf x <= indexOf y).
Proof.
  intros Hs found. split.
  - unfold found. split.
    + intros H x Hx E. apply (find_none _ _ H) in Hx.
      rewrite <- E, eqb_refl in Hx. discriminate.
    + intros H. destruct (find _ l) as [x|] eqn:E; [|reflexivity].
      apply find_some in E. destruct E as [Hx E]. apply eqb_eq in E.
      now elim (H x Hx).
  - intros x Hf. unfold found in Hf.
    destruct (find_split _ _ Hf) as (l1 & l2 & -> & Hx & Hl1).
    apply eqb_eq in Hx.
    split; [apply in_or_app; right; now left|]. split; [exact Hx|].
    intros y Hy Ey. apply in_app_or in Hy. destruct Hy as [Hy|[<-|Hy]].
    + apply Hl1 in Hy. rewrite Ey, eqb_refl in Hy. discriminate.
    + lia.
    + rewrite map_app in Hs. cbn in Hs.
      apply sorted_tail in Hs. inversion Hs as [|? ? _ Hlt]; subst.
      rewrite Forall_forall in Hlt.
      specialize (Hlt (indexOf y) (in_map indexOf _ _ Hy)). lia.
Qed.

(** X5.  After [parseKML], [getTrackByName(name)] is [null] exactly when no
    returned track has that name; otherwise it returns a returned track
    with that name, the one that comes first in the document among those
    that have it.  In particular a look-up by the name of any returned
    track finds a track of that name.  The same holds for
    [getIconByName]. *)
Theorem getByName_finds_first
  (doc : Document) (this : KMLParser) (st : Store) (name : jsstring) :
  let '(_, this1, st1) := parseKML doc this st in
  let ts := returnedTracks doc this st in
  let cs := returnedIcons doc this st in
  (getTrackByName name this1 st1 = None
   <-> forall t, In t ts -> Track.name t <> name)
  /\ (forall t, getTrackByName name this1 st1 = Some t ->
        In t ts /\ Track.name t = name
        /\ forall t', In t' ts -> Track.name t' = name ->
                      Track.originalIndex t <= Track.originalIndex t')
  /\ (getIconByName name this1 st1 = None
      <-> forall c, In c cs -> Icon.name c <> name)
  /\ (forall c, getIconByName name this1 st1 = Some c ->
        In c cs /\ Icon.name c = name
        /\ forall c', In c' cs -> Icon.name c' = name ->
                      Icon.originalIndex c <= Icon.originalIndex c').
Proof.
  pose proof (parser_after_parseKML doc this st) as H.
  pose proof (@find_by_name _ Track.name Track.originalIndex _ name
                (returned_tracks_sorted doc this st)) as [Ht1 Ht2].
  pose proof (@find_by_name _ Icon.name Icon.originalIndex _ name
                (returned_icons_sorted doc this st)) as [Hc1 Hc2].
  destruct (parseKML doc this st) as [[r this1] st1].
  destruct H as (Ht & Hc & _). unfold getTrackByName, getIconByName.
  rewrite Ht, Hc. cbv zeta. auto.
Qed.

(** X6.  After [clear()] the parser holds two empty arrays: [getTrack],
    [getIcon], [getTrackByName] and [getIconByName] return [null] for
    every argument.  [clear] gives the parser new arrays and leaves every
    array that existed as it was, so the tracks and icons of a result
    returned before are still there. *)
Theorem clear_empties_parser_only (this : KMLParser) (st : Store) :
  let '(this', st') := clear this st in
  trackArray st' (getTracks this') = []
  /\ iconArray st' (getIcons this') = []
  /\ (forall index : Z,
        getTrack index this' st' = None /\ getIcon index this' st' = None)
  /\ (forall name : jsstring,
        getTrackByName name this' st' = None
        /\ getIconByName name this' st' = None)
  /\ (forall a : address,
        a < length (trackArrays st) -> trackArray st' a = trackArray st a)
  /\ (forall a : address,
        a < length (iconArrays st) -> iconArray st' a = iconArray st a).
Proof.
  unfold clear, newTrackArray, newIconArray, getTrack, getIcon,
    getTrackByName, getIconByName, getTracks, getIcons, trackArray, iconArray.
  cbn. rewrite !nth_middle.
  repeat split; try reflexivity;
    try (unfold at_; destruct (index <? 0)%Z; [reflexivity|];
         now destruct (Z.to_nat index));
    now apply app_nth1.
Qed.

(** X7.  [parseLineStrings] and [parsePoints] push to the arrays the parser
    holds and do not start from empty ones.  Called again on the document
    after [parseKML], [parseLineStrings] leaves every track twice in the
    array that [parseKML] returned, and [parsePoints] every icon; the
    result [parseKML] returned is that array, so it changes with it. *)
Theorem parsing_again_appends
  (doc : Document) (this : KMLParser) (st : Store) :
  let '(r, this1, st1) := parseKML doc this st in
  let st2 := parseLineStrings doc this1 st1 in
  let st3 := parsePoints doc this1 st2 in
  tracksOf st2 r = tracksOf st1 r ++ tracksOf st1 r
  /\ iconsOf st2 r = iconsOf st1 r
  /\ tracksOf st3 r = tracksOf st1 r ++ tracksOf st1 r
  /\ iconsOf st3 r = iconsOf st1 r ++ iconsOf st1 r.
Proof.
  rewrite parseKML_spec. unfold parsePoints, parseLineStrings.
  rewrite parsePoints_from_spec, parseLineStrings_from_spec.
  unfold tracksOf, iconsOf. cbn. rewrite !update_last, !nth_middle.
  repeat split.
Qed.

(* ================================================================== *)
(** ** Loading, beyond the malformed document *)
(* ================================================================== *)

Section MoreLoadingFacts.

Variable parseFromString : jsstring -> Document.
Variable fetch : jsstring -> settled Response.

Lemma loadText_cases (text : jsstring) (this : KMLParser) (st : Store) :
  (getElementsByTagName (parseFromString text) (str "parsererror") <> []
   /\ loadText parseFromString text this st
      = (Rejected (Error (str "Invalid KML file format")), this, st))
  \/ (getElementsByTagName (parseFromString text) (str "parsererror") = []
      /\ loadText parseFromString text this st
         = let '(r, this', st') := parseKML (parseFromString text) this st in
           (Fulfilled r, this', st')).
Proof.
  unfold loadText.
  destruct (getElementsByTagName (parseFromString text) (str "parsererror"));
    [right | left]; split; try reflexivity; discriminate.
Qed.

Lemma loadText_rejected (text : jsstring) (this this' : KMLParser)
  (st st' : Store) (e : exn) :
  loadText parseFromString text this st = (Rejected e, this', st') ->
  this' = this /\ st' = st
  /\ e = Error (str "Invalid KML file format")
  /\ getElementsByTagName (parseFromString text) (str "parsererror") <> [].
Proof.
  destruct (loadText_cases text this st) as [[Hp ->]|[Hp ->]].
  - intros E; injection E as <- <- <-. auto.
  - destruct (parseKML (parseFromString text) this st) as [[r t] s].
    discriminate.
Qed.

(** X8.  A load that fails changes nothing: the parser holds the arrays
    it held and every array has the content it had.  [loadKMLFile] fails
    for two reasons only: the text of the file cannot be read, and the
    reason of that is passed on, or the parsed document holds a
    [parsererror] element.  [loadKMLFromURL] fails for four: the request
    fails, the response is not successful (the error then reads
    [HTTP status: statusText] and the body is not looked at), the body
    cannot be read, or the parsed document holds a [parsererror]
    element. *)
Theorem failed_load_changes_nothing
  (file : File) (url : jsstring) (this this' : KMLParser) (st st' : Store)
  (e : exn) :
  (loadKMLFile parseFromString file this st = (Rejected e, this', st') ->
   this' = this /\ st' = st
   /\ (fileText file = Rejected e
       \/ exists text,
            fileText file = Fulfilled text
            /\ getElementsByTagName (parseFromString text) (str "parsererror")
               <> []
            /\ e = Error (str "Invalid KML file format")))
  /\ (loadKMLFromURL parseFromString fetch url this st
      = (Rejected e, this', st') ->
      this' = this /\ st' = st
      /\ (fetch url = Rejected e
          \/ exists response,
               fetch url = Fulfilled response
               /\ ((ok response = false
                    /\ e = Error (str "HTTP " ++ JSString.ofNat (status response)
                                  ++ str ": " ++ statusText response))
                   \/ (ok response = true
                       /\ responseText response = Rejected e)
                   \/ (ok response = true
                       /\ exists text,
                            responseText response = Fulfilled text
                            /\ getElementsByTagName (parseFromString text)
                                 (str "parsererror") <> []
                            /\ e = Error (str "Invalid KML file format"))))).
Proof.
  split.
  - unfold loadKMLFile. destruct (fileText file) as [text|e0] eqn:Hf.
    + intros H. apply loadText_rejected in H.
      destruct H as (-> & -> & -> & Hp). repeat split. right.
      exists text. auto.
    + intros E; injection E as <- <- <-. auto.
  - unfold loadKMLFromURL. destruct (fetch url) as [response|e0] eqn:Hu.
    + destruct (ok response) eqn:Hok; cbn [negb].
      * destruct (responseText response) as [text|e1] eqn:Hb.
        -- intros H. apply loadText_rejected in H.
           destruct H as (-> & -> & -> & Hp). repeat split.
           right. exists response. split; [reflexivity|].
           right. right. split; [auto|]. exists text. auto.
        -- intros E; injection E as <- <- <-. repeat split.
           right. exists response. auto.
      * intros E; injection E as <- <- <-. repeat split.
        right. exists response. auto.
    + intros E; injection E as <- <- <-. auto.
Qed.

(** X9.  When the text is read and the parsed document holds no
    [parsererror] element, [loadKMLFile] and [loadKMLFromURL] both return
    what [parseKML] returns for the parsed document, so a file and a URL
    with the same text give the same tracks and icons.  The load creates
    the arrays of its result and leaves every array that existed as it
    was: the tracks and icons of an earlier result are not affected by a
    later load. *)
Theorem successful_load_is_parseKML
  (file : File) (url : jsstring) (response : Response) (text : jsstring)
  (this : KMLParser) (st : Store) :
  getElementsByTagName (parseFromString text) (str "parsererror") = [] ->
  fileText file = Fulfilled text ->
  fetch url = Fulfilled response ->
  ok response = true ->
  responseText response = Fulfilled text ->
  let '(r, this1, st1) := parseKML (parseFromString text) this st in
  loadKMLFile parseFromString file this st = (Fulfilled r, this1, st1)
  /\ loadKMLFromURL parseFromString fetch url this st = (Fulfilled r, this1, st1)
  /\ tracksOf st1 r = returnedTracks (parseFromString text) this st
  /\ iconsOf st1 r = returnedIcons (parseFromString text) this st
  /\ (forall a : address,
        a < length (trackArrays st) -> trackArray st1 a = trackArray st a)
  /\ (forall a : address,
        a < length (iconArrays st) -> iconArray st1 a = iconArray st a)
  /\ length (trackArrays st) <= resTracks r
  /\ length (iconArrays st) <= resIcons r.
Proof.
  intros Hp Hf Hu Hok Hb.
  unfold loadKMLFile, loadKMLFromURL. rewrite Hf, Hu, Hok, Hb. cbn [negb].
  destruct (loadText_cases text this st) as [[Hp' _]|[_ ->]];
    [now elim Hp'|].
  unfold returnedTracks, returnedIcons.
  rewrite parseKML_spec. unfold tracksOf, iconsOf, trackArray, iconArray. cbn.
  repeat split; auto; intros a Ha; now apply app_nth1.
Qed.

End MoreLoadingFacts.

(** The theorem for a file and a URL whose text parses to the sample
    document, on a new parser. *)
Lemma successful_load_is_parseKML_witness :
  let '(r, this1, st1) := parseKML threeLineStrings newParser newStore in
  loadKMLFile sampleParser (mkFile (Fulfilled (str "<kml/>"))) newParser newStore
  = (Fulfilled r, this1, st1)
  /\ loadKMLFromURL sampleParser answeringFetch (str "tracks.kml")
       newParser newStore
     = (Fulfilled r, this1, st1).
Proof.
  pose proof (@successful_load_is_parseKML sampleParser answeringFetch
                (mkFile (Fulfilled (str "<kml>"))) (str "tracks.kml")
                (mkResponse true 200 (str "OK") (Fulfilled (str "<kml>")))
                (str "<kml>") newParser newStore
                eq_refl eq_refl eq_refl eq_refl eq_refl) as H.
  unfold sampleParser in *.
  destruct (parseKML threeLineStrings newParser newStore) as [[r this1] st1].
  destruct H as (H1 & H2 & _). split; assumption.
Defined.

(* ================================================================== *)
(** ** The display *)
(* ================================================================== *)

Lemma isFinite_isNaN (x : number) :
  Number.isFinite x = true -> isNaN x = false.
Proof. destruct x; simpl; congruence. Qed.

Lemma finitePoint_valid (p : Point) :
  finitePoint p -> L.validLatLng (MapManager.pointLatLng p) = true.
Proof.
  intros [Hlat Hlon]. unfold L.validLatLng, MapManager.pointLatLng.
  cbn [fst snd]. now rewrite (isFinite_isNaN _ Hlat), (isFinite_isNaN _ Hlon).
Qed.

Lemma finiteTrack_valid (track : Track.t) :
  finiteTrack track ->
  forallb (fun p => L.validLatLng (MapManager.pointLatLng p))
          (Track.points track) = true.
Proof.
  unfold finiteTrack. intros H. apply forallb_forall. intros p Hp.
  apply finitePoint_valid. rewrite Forall_forall in H. now apply H.
Qed.

Lemma displayTracks_from_spec (config : Settings.t) (tracks : list Track.t) :
  Forall finiteTrack tracks ->
  forall (index : nat) (group : list L.Polyline),
    MapManager.displayTracks_from config index tracks group
    = (group ++ map (polylineOf config)
                    (filter (fun e => drawn (snd e))
                            (combine (seq index (length tracks)) tracks)),
       Returns).
Proof.
  induction 1 as [|track rest Hfin _ IH]; intros index group.
  - cbn. now rewrite app_nil_r.
  - cbn [MapManager.displayTracks_from length seq combine filter snd].
    unfold MapManager.displayTrack, drawn.
    destruct (Nat.ltb_spec (length (Track.points track)) 2) as [Hlt|Hge];
      destruct (Nat.leb_spec 2 (length (Track.points track))) as [Hle|Hgt];
      try lia.
    + apply IH.
    + rewrite (finiteTrack_valid Hfin). cbn [negb].
      rewrite IH. cbn [map polylineOf]. now rewrite <- app_assoc.
Qed.

Lemma filter_combine_snd {A : Type} (f : A -> bool) (l : list A) :
  forall i : nat,
    map snd (filter (fun e => f (snd e)) (combine (seq i (length l)) l))
    = filter f l.
Proof.
  induction l as [|a l IH]; intros i; [reflexivity|].
  cbn [length seq combine filter snd]. destruct (f a); cbn [map snd];
    now rewrite IH.
Qed.

Lemma latlngs_polylineOf (config : Settings.t) (l : list (nat * Track.t)) :
  map L.latlngs (map (polylineOf config) l) = map Track.points (map snd l).
Proof.
  induction l as [|[i t] l IH]; [reflexivity|]. cbn. now rewrite IH.
Qed.

Lemma displayTracks_call (config : Settings.t) (tracks : list Track.t)
  (this : MapManager.t) (before : list L.Polyline) :
  MapManager.trackLayerGroup this = Some before ->
  Forall finiteTrack tracks ->
  MapManager.displayTracks config (Some tracks) this
  = (MapManager.setTrackLayerGroup
       (Some (map (polylineOf config)
                  (filter (fun e => drawn (snd e)) (positioned tracks))))
       this,
     Returns).
Proof.
  intros Hm Hfinite. unfold MapManager.displayTracks. rewrite Hm.
  destruct tracks as [|t rest] eqn:E; [reflexivity|].
  rewrite <- E in *. rewrite (displayTracks_from_spec config Hfinite 0 []).
  reflexivity.
Qed.

(** X10.  On a manager whose track layer group exists, [displayTracks]
    with tracks of finite coordinates returns normally; afterwards the
    group holds, in the order of the array, one polyline for every track
    of two points or more and nothing else, whatever it held before: the
    lines run through the points of these tracks and carry the configured
    colour, weight, smooth factor and a hundredth of the configured
    opacity.  No other field of the manager changes, and a second call
    with the same tracks changes nothing. *)
Theorem displayTracks_shows_tracks_of_two_points
  (config : Settings.t) (tracks : list Track.t) (this : MapManager.t)
  (before : list L.Polyline)
  (Hgroup : MapManager.trackLayerGroup this = Some before)
  (Hfinite : Forall finiteTrack tracks) :
  exists group : list L.Polyline,
    MapManager.displayTracks config (Some tracks) this
    = (MapManager.setTrackLayerGroup (Some group) this, Returns)
    /\ group = map (polylineOf config)
                   (filter (fun e => drawn (snd e)) (positioned tracks))
    /\ map L.latlngs group = map Track.points (filter drawn tracks)
    /\ Forall (fun p =>
                 L.color p = Settings.trackColor config
                 /\ L.weight p = Settings.trackWeight config
                 /\ L.opacity p
                    = Number.div (Settings.trackOpacity config) hundred
                 /\ L.smoothFactor p = Settings.trackSmoothFactor config)
              group
    /\ MapManager.displayTracks config (Some tracks)
         (MapManager.setTrackLayerGroup (Some group) this)
       = (MapManager.setTrackLayerGroup (Some group) this, Returns).
Proof.
  eexists. split; [exact (displayTracks_call config this Hgroup Hfinite)|].
  split; [reflexivity|]. split; [|split].
  - rewrite latlngs_polylineOf. unfold positioned.
    now rewrite filter_combine_snd.
  - apply Forall_forall. intros p Hp. apply in_map_iff in Hp.
    destruct Hp as [[i t] [<- _]]. cbn. repeat split.
  - match goal with
    | |- MapManager.displayTracks _ _ ?m = _ =>
        rewrite (@displayTracks_call config tracks m
                   (map (polylineOf config)
                        (filter (fun e => drawn (snd e)) (positioned tracks)))
                   eq_refl Hfinite)
    end.
    reflexivity.
Qed.

Lemma displayTracks_shows_tracks_of_two_points_witness :
  exists group : list L.Polyline,
    MapManager.displayTracks sampleSettings
      (Some (returnedTracks shortAndLongTracks newParser newStore))
      sampleManager
    = (MapManager.setTrackLayerGroup (Some group) sampleManager, Returns)
    /\ length group = 1.
Proof.
  destruct (@displayTracks_shows_tracks_of_two_points sampleSettings
              (returnedTracks shortAndLongTracks newParser newStore)
              sampleManager [] eq_refl) as (group & Hcall & Hgroup & _).
  - vm_compute. repeat constructor.
  - exists group. split; [exact Hcall|]. rewrite Hgroup. reflexivity.
Defined.

Lemma returned_track_named (doc : Document) (this : KMLParser) (st : Store)
  (t : Track.t) :
  In t (returnedTracks doc this st) ->
  Track.name t <> [] /\ Track.points t <> [].
Proof.
  intros Ht. apply tracks_of_parseKML in Ht.
  destruct Ht as (i & el & pts & _ & Hg & ->). cbn. split.
  - apply orElse_nonempty. discriminate.
  - destruct (geometryPoints_nonempty _ Hg) as (p & ps & ->). discriminate.
Qed.

Lemma returned_icon_named (doc : Document) (this : KMLParser) (st : Store)
  (c : Icon.t) :
  In c (returnedIcons doc this st) -> Icon.name c <> [].
Proof.
  intros Hc. apply icons_of_parseKML in Hc.
  destruct Hc as (i & el & first & rest & _ & _ & ->). cbn.
  apply orElse_nonempty. discriminate.
Qed.

Lemma trackPopup_named (track : Track.t) (index : nat) :
  Track.name track <> [] ->
  MapManager.trackPopup track index
  = popupWith (Track.name track) (Track.description track) (pointsLine track).
Proof.
  intros Hname. unfold MapManager.trackPopup, popupWith, pointsLine, orElse.
  destruct (Track.name track) as [|c s]; [contradiction|]. cbn [JSString.truthy].
  now rewrite <- !app_assoc.
Qed.

Lemma Forall2_map_snd {A B : Type} (R : B -> A -> Prop) (f : nat * A -> B)
  (l : list (nat * A)) :
  (forall e, In e l -> R (f e) (snd e)) ->
  Forall2 R (map f l) (map snd l).
Proof.
  induction l as [|e l IH]; intros H; cbn; constructor.
  - apply H. now left.
  - apply IH. intros e' He'. apply H. now right.
Qed.

Lemma in_positioned {A : Type} (l : list A) (e : nat * A) :
  In e (positioned l) -> In (snd e) l.
Proof.
  unfold positioned. destruct e as [i a]. intros H.
  now apply in_combine_r in H.
Qed.

(** X11.  The tracks that [parseKML] returns, when their coordinates are
    finite, are displayed without an exception on a manager whose track
    layer group exists.  Each track of two points or more gets one
    polyline, in the order of the array, and each polyline carries a
    popup whose title is the name of its track: the title [Track N] that
    [displayTracks] has for a track without a name is never used.  There
    are at most as many polylines as [LineString] elements. *)
Theorem parsed_tracks_display_with_their_names
  (config : Settings.t) (doc : Document) (parser : KMLParser) (st : Store)
  (this : MapManager.t) (before : list L.Polyline)
  (Hgroup : MapManager.trackLayerGroup this = Some before)
  (Hfinite : Forall finiteTrack (returnedTracks doc parser st)) :
  let ts := returnedTracks doc parser st in
  exists group : list L.Polyline,
    MapManager.displayTracks config (Some ts) this
    = (MapManager.setTrackLayerGroup (Some group) this, Returns)
    /\ Forall2 (fun p t =>
                  L.latlngs p = Track.points t
                  /\ L.polylinePopup p
                     = Some (popupWith (Track.name t) (Track.description t)
                                       (pointsLine t)))
               group (filter drawn ts)
    /\ length group <= length (getElementsByTagName doc (str "LineString")).
Proof.
  intros ts.
  set (group := map (polylineOf config)
                    (filter (fun e => drawn (snd e)) (positioned ts))).
  exists group. split; [|split].
  - exact (displayTracks_call config this Hgroup Hfinite).
  - unfold group. rewrite <- (filter_combine_snd drawn ts 0).
    apply Forall2_map_snd. intros [i t] He. cbn [snd polylineOf L.latlngs
      L.polylinePopup]. split; [reflexivity|].
    apply filter_In in He. destruct He as [He _].
    apply in_positioned in He. cbn [snd] in He.
    destruct (returned_track_named _ _ _ _ He) as [Hname _].
    rewrite (@trackPopup_named t i Hname).
    destruct (Track.name t); [contradiction|]. reflexivity.
  - unfold group. rewrite length_map.
    etransitivity; [apply filter_length_le|].
    unfold positioned. rewrite length_combine, length_seq, Nat.min_id.
    unfold ts. rewrite returnedTracks_spec, length_collect.
    apply filter_length_le.
Qed.

Lemma parsed_tracks_display_with_their_names_witness :
  exists group : list L.Polyline,
    MapManager.displayTracks sampleSettings
      (Some (returnedTracks shortAndLongTracks newParser newStore))
      sampleManager
    = (MapManager.setTrackLayerGroup (Some group) sampleManager, Returns)
    /\ length group <= 2.
Proof.
  destruct (@parsed_tracks_display_with_their_names sampleSettings
              shortAndLongTracks newParser newStore sampleManager []
              eq_refl) as (group & Hcall & _ & Hlen).
  - vm_compute. repeat constructor.
  - exists group. split; [exact Hcall|exact Hlen].
Defined.

Section DisplayIcons.

Variable toFixed6 : number -> jsstring.

Lemma finiteIcon_valid (c : Icon.t) :
  finiteIcon c ->
  L.validLatLng (lat (Icon.position c), lon (Icon.position c)) = true.
Proof. intros H. exact (finitePoint_valid H). Qed.

Lemma displayIcons_from_spec (config : Settings.t) (icons : list Icon.t) :
  Forall finiteIcon icons ->
  forall (index : nat) (group : list L.Marker),
    MapManager.displayIcons_from toFixed6 config index icons group
    = (group ++ map (markerOf toFixed6 config)
                    (combine (seq index (length icons)) icons),
       Returns).
Proof.
  induction 1 as [|c rest Hfin _ IH]; intros index group.
  - cbn. now rewrite app_nil_r.
  - cbn [MapManager.displayIcons_from length seq combine map].
    unfold MapManager.displayIcon.
    rewrite (finiteIcon_valid Hfin). cbn [negb].
    rewrite IH. cbn [markerOf]. now rewrite <- app_assoc.
Qed.

Lemma displayIcons_call (config : Settings.t) (icons : list Icon.t)
  (this : MapManager.t) (before : list L.Marker) :
  MapManager.iconLayerGroup this = Some before ->
  Forall finiteIcon icons ->
  MapManager.displayIcons toFixed6 config (Some icons) this
  = (MapManager.setIconLayerGroup
       (Some (map (markerOf toFixed6 config) (positioned icons))) this,
     Returns).
Proof.
  intros Hm Hfinite. unfold MapManager.displayIcons. rewrite Hm.
  destruct icons as [|c rest] eqn:E; [reflexivity|].
  rewrite <- E in *. rewrite (displayIcons_from_spec config Hfinite 0 []).
  reflexivity.
Qed.

Lemma markerOf_shown (config : Settings.t) (i : nat) (c c' : Icon.t) :
  shown c' = shown c ->
  markerOf toFixed6 config (i, c') = markerOf toFixed6 config (i, c).
Proof.
  unfold shown. intros H. injection H as Hn Hd Hlat Hlon Hu Hs.
  unfold markerOf, MapManager.iconPopup.
  now rewrite Hn, Hd, Hlat, Hlon, Hu, Hs.
Qed.

Lemma markers_shown (config : Settings.t) (icons : list Icon.t) :
  forall (icons' : list Icon.t) (i : nat),
    map shown icons' = map shown icons ->
    map (markerOf toFixed6 config) (combine (seq i (length icons')) icons')
    = map (markerOf toFixed6 config) (combine (seq i (length icons)) icons).
Proof.
  induction icons as [|c rest IH]; intros [|c' rest'] i H;
    try discriminate; [reflexivity|].
  assert (Hc : shown c' = shown c) by (cbn [map] in H; congruence).
  assert (Hrest : map shown rest' = map shown rest)
    by (cbn [map] in H; congruence).
  cbn [length seq combine map].
  now rewrite (@markerOf_shown config i c c' Hc), (IH rest' (S i) Hrest).
Qed.

Lemma finite_shown (icons : list Icon.t) :
  forall icons' : list Icon.t,
    map shown icons' = map shown icons ->
    Forall finiteIcon icons -> Forall finiteIcon icons'.
Proof.
  induction icons as [|c rest IH]; intros [|c' rest'] H Hfin;
    try discriminate; constructor.
  - assert (Hc : shown c' = shown c) by (cbn [map] in H; congruence).
    inversion Hfin as [|? ? Hfc _]; subst.
    unfold shown in Hc. injection Hc as _ _ Hlat Hlon _ _.
    unfold finiteIcon, finitePoint in *. now rewrite Hlat, Hlon.
  - assert (Hrest : map shown rest' = map shown rest)
      by (cbn [map] in H; congruence).
    inversion Hfin; subst. now apply IH.
Qed.

Lemma latLng_markerOf (config : Settings.t) (l : list (nat * Icon.t)) :
  map L.latLng (map (markerOf toFixed6 config) l)
  = map (fun e => MapManager.pointLatLng (Icon.position (snd e))) l.
Proof.
  induction l as [|[i c] l IH]; [reflexivity|]. cbn. now rewrite IH.
Qed.

Lemma map_snd_positioned {A : Type} (l : list A) :
  map snd (positioned l) = l.
Proof.
  unfold positioned. generalize 0.
  induction l as [|a l IH]; intros i; [reflexivity|].
  cbn. now rewrite IH.
Qed.

(** X12.  On a manager whose icon layer group exists, [displayIcons]
    with icons of finite positions returns normally; afterwards the group
    holds exactly one marker for every icon of the array, in its order and
    at the latitude and longitude of the icon, whatever the group held
    before.  The markers depend on the name, the description, the
    latitude, the longitude, the [iconUrl] and the [iconSize] of the icons
    only: the [iconAnchor] that the parser computes, the style, the
    altitude and the [originalIndex] are never read.  A second call with
    the same icons changes nothing. *)
Theorem displayIcons_one_marker_per_icon
  (config : Settings.t) (icons : list Icon.t) (this : MapManager.t)
  (before : list L.Marker)
  (Hgroup : MapManager.iconLayerGroup this = Some before)
  (Hfinite : Forall finiteIcon icons) :
  exists group : list L.Marker,
    MapManager.displayIcons toFixed6 config (Some icons) this
    = (MapManager.setIconLayerGroup (Some group) this, Returns)
    /\ length group = length icons
    /\ map L.latLng group
       = map (fun c => MapManager.pointLatLng (Icon.position c)) icons
    /\ (forall icons' : list Icon.t,
          map shown icons' = map shown icons ->
          MapManager.displayIcons toFixed6 config (Some icons') this
          = MapManager.displayIcons toFixed6 config (Some icons) this)
    /\ MapManager.displayIcons toFixed6 config (Some icons)
         (MapManager.setIconLayerGroup (Some group) this)
       = (MapManager.setIconLayerGroup (Some group) this, Returns).
Proof.
  exists (map (markerOf toFixed6 config) (positioned icons)).
  split; [exact (displayIcons_call config this Hgroup Hfinite)|].
  split; [|split; [|split]].
  - unfold positioned.
    now rewrite length_map, length_combine, length_seq, Nat.min_id.
  - rewrite latLng_markerOf.
    rewrite <- (map_snd_positioned icons) at 2. now rewrite map_map.
  - intros icons' Hshown.
    rewrite (displayIcons_call config this Hgroup Hfinite).
    rewrite (displayIcons_call config this Hgroup
               (@finite_shown icons icons' Hshown Hfinite)).
    unfold positioned. now rewrite (@markers_shown config icons icons' 0 Hshown).
  - match goal with
    | |- MapManager.displayIcons _ _ _ ?m = _ =>
        rewrite (@displayIcons_call config icons m
                   (map (markerOf toFixed6 config) (positioned icons))
                   eq_refl Hfinite)
    end.
    reflexivity.
Qed.

Lemma iconPopup_named (c : Icon.t) (index : nat) :
  Icon.name c <> [] ->
  MapManager.iconPopup toFixed6 c index
  = popupWith (Icon.name c) (Icon.description c) (positionLine toFixed6 c).
Proof.
  intros Hname. unfold MapManager.iconPopup, popupWith, positionLine, orElse.
  destruct (Icon.name c) as [|u s]; [contradiction|]. cbn [JSString.truthy].
  now rewrite <- !app_assoc.
Qed.

(** X13.  The icons that [parseKML] returns, when their positions are
    finite, are displayed without an exception on a manager whose icon
    layer group exists: one marker for each, in the order of the array.
    Every marker has a popup when [showPopups] is set and none otherwise;
    the title of the popup is the name of the icon, never [Point N].  The
    marker shows the default dot exactly when the icon has no [iconUrl]
    or an empty one. *)
Theorem parsed_icons_display_with_their_names
  (config : Settings.t) (doc : Document) (parser : KMLParser) (st : Store)
  (this : MapManager.t) (before : list L.Marker)
  (Hgroup : MapManager.iconLayerGroup this = Some before)
  (Hfinite : Forall finiteIcon (returnedIcons doc parser st)) :
  let cs := returnedIcons doc parser st in
  exists group : list L.Marker,
    MapManager.displayIcons toFixed6 config (Some cs) this
    = (MapManager.setIconLayerGroup (Some group) this, Returns)
    /\ Forall2 (fun m c =>
                  L.latLng m = MapManager.pointLatLng (Icon.position c)
                  /\ L.markerPopup m
                     = (if Settings.showPopups config
                        then Some (popupWith (Icon.name c)
                                             (Icon.description c)
                                             (positionLine toFixed6 c))
                        else None)
                  /\ (L.markerIcon m = MapManager.defaultIcon
                      <-> orElse (Icon.iconUrl c) [] = []))
               group cs
    /\ length group <= length (getElementsByTagName doc (str "Point")).
Proof.
  intros cs.
  exists (map (markerOf toFixed6 config) (positioned cs)).
  split; [exact (displayIcons_call config this Hgroup Hfinite)|].
  split.
  - rewrite <- (map_snd_positioned cs) at 2.
    apply Forall2_map_snd. intros [i c] He.
    apply in_positioned in He. cbn [snd] in He |- *.
    pose proof (returned_icon_named _ _ _ _ He) as Hname.
    cbn [markerOf L.latLng L.markerPopup L.markerIcon].
    split; [reflexivity|]. split.
    + rewrite (@iconPopup_named c i Hname).
      destruct (Icon.name c); [contradiction|].
      cbn [JSString.truthy orb]. now rewrite andb_true_r.
    + unfold orElse. destruct (Icon.iconUrl c) as [[|u rl]|];
        cbn [JSString.truthy]; try tauto.
      split; [discriminate|discriminate].
  - unfold positioned.
    rewrite length_map, length_combine, length_seq, Nat.min_id.
    unfold cs. rewrite returnedIcons_spec.
    rewrite <- (length_map Icon.originalIndex), icon_originalIndex_collect.
    rewrite length_map. unfold indexedFrom.
    etransitivity; [apply filter_length_le|].
    rewrite length_combine, length_seq. lia.
Qed.

End DisplayIcons.

Lemma displayIcons_one_marker_per_icon_witness :
  exists group : list L.Marker,
    MapManager.displayIcons sampleToFixed6 sampleSettings
      (Some (returnedIcons shortAndLongTracks newParser newStore))
      sampleManager
    = (MapManager.setIconLayerGroup (Some group) sampleManager, Returns)
    /\ length group = 1.
Proof.
  destruct (@displayIcons_one_marker_per_icon sampleToFixed6 sampleSettings
              (returnedIcons shortAndLongTracks newParser newStore)
              sampleManager [] eq_refl) as (group & Hcall & Hlen & _).
  - vm_compute. repeat constructor.
  - exists group. split; [exact Hcall|exact Hlen].
Defined.

Lemma parsed_icons_display_with_their_names_witness :
  exists group : list L.Marker,
    MapManager.displayIcons sampleToFixed6 sampleSettings
      (Some (returnedIcons shortAndLongTracks newParser newStore))
      sampleManager
    = (MapManager.setIconLayerGroup (Some group) sampleManager, Returns)
    /\ length group <= 1.
Proof.
  destruct (@parsed_icons_display_with_their_names sampleToFixed6
              sampleSettings shortAndLongTracks newParser newStore
              sampleManager [] eq_refl) as (group & Hcall & _ & Hlen).
  - vm_compute. repeat constructor.
  - exists group. split; [exact Hcall|exact Hlen].
Defined.

(* ================================================================== *)
(** ** Fitting the view *)
(* ================================================================== *)

Lemma allPoints_valid (tracks : list Track.t) (icons : list Icon.t) :
  Forall finiteTrack tracks -> Forall finiteIcon icons ->
  forallb L.validLatLng (MapManager.allPoints tracks icons) = true.
Proof.
  intros Ht Hi. apply forallb_forall. intros p Hp.
  unfold MapManager.allPoints in Hp. apply in_app_or in Hp.
  destruct Hp as [Hp|Hp].
  - apply in_flat_map in Hp. destruct Hp as (t & Hin & Hp).
    apply in_map_iff in Hp. destruct Hp as (q & <- & Hq).
    apply finitePoint_valid. rewrite Forall_forall in Ht.
    specialize (Ht t Hin). unfold finiteTrack in Ht.
    rewrite Forall_forall in Ht. now apply Ht.
  - apply in_map_iff in Hp. destruct Hp as (c & <- & Hc).
    apply finitePoint_valid. rewrite Forall_forall in Hi. now apply Hi.
Qed.

Lemma length_allPoints (tracks : list Track.t) (icons : list Icon.t) :
  length (MapManager.allPoints tracks icons)
  = list_sum (map (fun t => length (Track.points t)) tracks) + length icons.
Proof.
  unfold MapManager.allPoints. rewrite length_app, length_map. f_equal.
  induction tracks as [|t rest IH]; [reflexivity|].
  cbn [flat_map map list_sum]. now rewrite length_app, length_map, IH.
Qed.

Lemma points_at_least_tracks (tracks : list Track.t) :
  Forall (fun t => Track.points t <> []) tracks ->
  length tracks <= list_sum (map (fun t => length (Track.points t)) tracks).
Proof.
  induction 1 as [|t rest Ht _ IH]; [reflexivity|].
  cbn [length map list_sum].
  assert (0 < length (Track.points t))
    by (destruct (Track.points t); [contradiction|cbn; lia]).
  unfold list_sum in *. cbn [fold_right]. lia.
Qed.

(** X14.  [fitToContent] on what [parseKML] returned, with finite
    coordinates and a manager that has its map, never throws.  When the
    parse gave no track and no icon the manager is left as it is;
    otherwise the view is fitted to all the points of all the tracks,
    those of a single point included, followed by the positions of all the
    icons: their number is the sum of the lengths of the tracks plus the
    number of icons, and it is at least the number of tracks and icons. *)
Theorem fitToContent_of_parse_result
  (doc : Document) (parser : KMLParser) (st : Store)
  (this : MapManager.t) (mp : L.Map)
  (Hmap : MapManager.map this = Some mp)
  (Htracks : Forall finiteTrack (returnedTracks doc parser st))
  (Hicons : Forall finiteIcon (returnedIcons doc parser st)) :
  let ts := returnedTracks doc parser st in
  let cs := returnedIcons doc parser st in
  let points := MapManager.allPoints ts cs in
  length points
  = list_sum (map (fun t => length (Track.points t)) ts) + length cs
  /\ length ts + length cs <= length points
  /\ (ts = [] /\ cs = [] ->
      MapManager.fitToContent ts cs this = (this, Returns))
  /\ (ts <> [] \/ cs <> [] ->
      MapManager.fitToContent ts cs this
      = (MapManager.setMap
           (Some (L.mkMap (L.hasTrackGroup mp) (L.hasIconGroup mp)
                          (L.tiles mp) (L.hasScale mp) (Some points)))
           this,
         Returns)).
Proof.
  intros ts cs points. subst points.
  assert (Hlen := length_allPoints ts cs).
  assert (Hge : length ts + length cs
                <= length (MapManager.allPoints ts cs)).
  { rewrite Hlen. apply Nat.add_le_mono_r. apply points_at_least_tracks.
    apply Forall_forall. intros t Ht.
    now destruct (returned_track_named _ _ _ _ Ht). }
  assert (Hvalid := allPoints_valid Htracks Hicons).
  fold ts cs in Hvalid.
  split; [exact Hlen|]. split; [exact Hge|].
  clearbody ts cs. split.
  - intros [-> ->]. reflexivity.
  - intros Hsome. unfold MapManager.fitToContent.
    assert (Hpos : 0 < length (MapManager.allPoints ts cs)).
    { destruct Hsome as [Hs|Hs].
      - destruct ts; [contradiction|]. cbn [length] in Hge. lia.
      - destruct cs; [contradiction|]. cbn [length] in Hge. lia. }
    apply Nat.ltb_lt in Hpos. rewrite Hpos, Hvalid. cbn [negb].
    now rewrite Hmap.
Qed.

Lemma fitToContent_of_parse_result_witness :
  length (MapManager.allPoints
            (returnedTracks shortAndLongTracks newParser newStore)
            (returnedIcons shortAndLongTracks newParser newStore)) = 4.
Proof.
  destruct (@fitToContent_of_parse_result shortAndLongTracks newParser
              newStore sampleManager
              (L.mkMap true true [0] true None) eq_refl)
    as (Hlen & _).
  - vm_compute. repeat constructor.
  - vm_compute. repeat constructor.
  - rewrite Hlen. reflexivity.
Defined.

(* ================================================================== *)
(** ** Visibility, tiles and opacity *)
(* ================================================================== *)

Ltac open_manager this Hcons :=
  destruct Hcons as (mp & ps & ms & Hmap & Htg & Hig & Htiles & Hid & Htv & Hiv);
  destruct this as [map0 ctl cmt eid tg ig tv iv cr];
  cbn [MapManager.map MapManager.currentTileLayer MapManager.currentMapType
       MapManager.mapElementId MapManager.trackLayerGroup
       MapManager.iconLayerGroup MapManager.tracksVisible
       MapManager.iconsVisible MapManager.created] in *;
  subst map0 tg ig tv iv;
  destruct mp as [htg hig tl hs ft];
  cbn [L.hasTrackGroup L.hasIconGroup L.tiles L.hasScale L.fitted] in *.

Ltac show_consistent :=
  unfold consistent;
  do 3 eexists;
  cbn [MapManager.map MapManager.currentTileLayer MapManager.currentMapType
       MapManager.trackLayerGroup MapManager.iconLayerGroup
       MapManager.tracksVisible MapManager.iconsVisible MapManager.created
       MapManager.setMap MapManager.setCurrentTileLayer
       MapManager.setCurrentMapType MapManager.setTracksVisibleField
       MapManager.setIconsVisibleField MapManager.setCreated
       L.hasTrackGroup L.hasIconGroup L.tiles L.hasScale L.fitted
       L.removeTile L.addTile L.tileId];
  repeat split; try reflexivity; try assumption.

(** X15.  On a consistent manager, [setTracksVisible] and
    [setIconsVisible] return normally and leave the manager consistent:
    the flag that [areTracksVisible] or [areIconsVisible] reads is the
    value given, and it tells whether the layer group is on the map.
    Neither touches the other flag nor what the layer groups hold, so a
    hidden group comes back with its layers; setting the old value again
    gives the manager back as it was. *)
Theorem visibility_follows_the_flags
  (this : MapManager.t) (visible : bool) (Hcons : consistent this) :
  (exists this' : MapManager.t,
     MapManager.setTracksVisible visible this = (this', Returns)
     /\ consistent this'
     /\ MapManager.areTracksVisible this' = visible
     /\ MapManager.areIconsVisible this' = MapManager.areIconsVisible this
     /\ MapManager.trackLayerGroup this' = MapManager.trackLayerGroup this
     /\ MapManager.iconLayerGroup this' = MapManager.iconLayerGroup this
     /\ MapManager.setTracksVisible (MapManager.areTracksVisible this) this'
        = (this, Returns))
  /\ (exists this' : MapManager.t,
        MapManager.setIconsVisible visible this = (this', Returns)
        /\ consistent this'
        /\ MapManager.areIconsVisible this' = visible
        /\ MapManager.areTracksVisible this' = MapManager.areTracksVisible this
        /\ MapManager.trackLayerGroup this' = MapManager.trackLayerGroup this
        /\ MapManager.iconLayerGroup this' = MapManager.iconLayerGroup this
        /\ MapManager.setIconsVisible (MapManager.areIconsVisible this) this'
           = (this, Returns)).
Proof.
  open_manager this Hcons. split.
  - eexists. split; [reflexivity|].
    split; [|repeat split;
             destruct visible, htg; reflexivity].
    destruct visible, htg; show_consistent.
  - eexists. split; [reflexivity|].
    split; [|repeat split;
             destruct visible, hig; reflexivity].
    destruct visible, hig; show_consistent.
Qed.

Lemma sampleManager_consistent : consistent sampleManager.
Proof.
  exists (L.mkMap true true [0] true None), [], [].
  repeat split; try reflexivity. vm_compute. constructor.
Qed.

Lemma visibility_follows_the_flags_witness :
  exists this' : MapManager.t,
    MapManager.setTracksVisible false sampleManager = (this', Returns)
    /\ MapManager.areTracksVisible this' = false.
Proof.
  destruct (@visibility_follows_the_flags sampleManager false
              sampleManager_consistent)
    as [(this' & Hcall & _ & Hflag & _) _].
  exists this'. split; [exact Hcall|exact Hflag].
Defined.

Lemma getMapTypeConfig_own (config : Settings.t) (mapType : jsstring) :
  ownName mapType ->
  getMapTypeConfig config mapType
  = option_map Own (assoc mapType (Settings.mapTypes config)).
Proof.
  unfold ownName, getMapTypeConfig. intros ->.
  now destruct (assoc mapType (Settings.mapTypes config)).
Qed.

(** X16.  [setMapType] with a name that is no inherited property name, on
    a consistent manager, returns normally and leaves the manager
    consistent, so that at most one tile layer is on the map and it is the
    current one; the layer groups and the flags are untouched.  For
    [none] no tile layer is left and the current type is [none].  For a
    name of the configuration the current type is that name and the
    current tile layer is a new one with the url, attribution and zoom of
    the entry and a hundredth of the configured opacity.  For any other
    name the tiles are removed as well, but the current type keeps its
    old value. *)
Theorem setMapType_keeps_one_tile_layer
  (config : Settings.t) (mapType : jsstring) (this : MapManager.t)
  (Hcons : consistent this) (Hown : ownName mapType) :
  exists this' : MapManager.t,
    MapManager.setMapType config mapType this = (this', Returns)
    /\ consistent this'
    /\ MapManager.trackLayerGroup this' = MapManager.trackLayerGroup this
    /\ MapManager.iconLayerGroup this' = MapManager.iconLayerGroup this
    /\ MapManager.tracksVisible this' = MapManager.tracksVisible this
    /\ MapManager.iconsVisible this' = MapManager.iconsVisible this
    /\ (if JSString.eqb mapType (str "none")
        then MapManager.currentTileLayer this' = None
             /\ MapManager.getCurrentMapType this' = str "none"
        else
          match assoc mapType (Settings.mapTypes config) with
          | Some entry =>
              MapManager.currentTileLayer this'
              = Some (L.mkTileLayer (MapManager.created this)
                        (Some (Settings.url entry))
                        (Some (Settings.attribution entry))
                        (Some (Settings.maxZoom entry))
                        (Number.div (Settings.mapOpacity config) hundred))
              /\ MapManager.getCurrentMapType this' = mapType
          | None =>
              MapManager.currentTileLayer this' = None
              /\ MapManager.getCurrentMapType this'
                 = MapManager.getCurrentMapType this
          end).
Proof.
  open_manager this Hcons. unfold MapManager.setMapType.
  cbn [MapManager.map MapManager.currentTileLayer].
  rewrite (getMapTypeConfig_own config Hown).
  destruct ctl as [layer|]; subst tl;
    cbn [MapManager.setCurrentTileLayer MapManager.setMap MapManager.map
         MapManager.currentTileLayer MapManager.currentMapType
         MapManager.mapElementId MapManager.trackLayerGroup
         MapManager.iconLayerGroup MapManager.tracksVisible
         MapManager.iconsVisible MapManager.created L.removeTile L.tiles
         L.hasTrackGroup L.hasIconGroup L.hasScale L.fitted filter];
    rewrite ?Nat.eqb_refl; cbn [negb];
    destruct (JSString.eqb mapType (str "none"));
    try destruct (assoc mapType (Settings.mapTypes config)) as [entry|];
    cbn [option_map];
    (eexists; split; [reflexivity|]; split;
     [show_consistent;
      try lia;
      cbn [L.removeTile L.addTile L.tiles L.hasTrackGroup L.hasIconGroup
           L.hasScale L.fitted filter];
      rewrite Nat.eqb_refl; reflexivity
     | repeat split]).
Qed.

Lemma setMapType_keeps_one_tile_layer_witness :
  exists this' : MapManager.t,
    MapManager.setMapType sampleSettings (str "3d") sampleManager
    = (this', Returns)
    /\ MapManager.currentTileLayer this' = None
    /\ MapManager.getCurrentMapType this' = str "osm".
Proof.
  destruct (@setMapType_keeps_one_tile_layer sampleSettings (str "3d")
              sampleManager sampleManager_consistent eq_refl)
    as (this' & Hcall & _ & _ & _ & _ & _ & Hcase).
  exists this'. split; [exact Hcall|]. exact Hcase.
Defined.

Lemma SFcompare_antisym (x y : number) :
  SFcompare y x = option_map CompOpp (SFcompare x y).
Proof.
  destruct x as [sx|sx| |sx mx ex], y as [sy|sy| |sy my ey]; cbn;
    try reflexivity;
    try (destruct sx; reflexivity); try (destruct sy; reflexivity);
    try (destruct sx, sy; reflexivity).
  destruct sx, sy; try reflexivity;
    rewrite (Z.compare_antisym ey ex);
    destruct (Z.compare ey ex) eqn:E; cbn; try reflexivity;
    now rewrite (Pos.compare_cont_antisym mx my Eq).
Qed.

Lemma SFcompare_refl (x : number) :
  isNaN x = false -> SFcompare x x = Some Eq.
Proof.
  destruct x as [s|s| |s m e]; cbn; try discriminate; intros _;
    try (destruct s; reflexivity).
  rewrite Z.compare_refl, Pos.compare_cont_refl. now destruct s.
Qed.
Lemma hundred_eq : hundred = S754_finite false 7036874417766400 (-46).
Proof. vm_compute. reflexivity. Qed.

Lemma leq_flip (x y : number) c :
  SFcompare x y = Some c -> SFcompare y x = Some (CompOpp c).
Proof. intros H. now rewrite (SFcompare_antisym x y), H. Qed.

Lemma clampOpacity_cases (x : number) :
  isNaN x = false ->
  (leq hundred x = true /\ MapManager.clampOpacity x = hundred)
  \/ (leq x zero = true /\ MapManager.clampOpacity x = zero)
  \/ (SFcompare zero x = Some Lt /\ SFcompare x hundred = Some Lt
      /\ MapManager.clampOpacity x = x).
Proof.
  intros Hx. unfold MapManager.clampOpacity, JSMath.min, JSMath.max, leq.
  destruct (SFcompare hundred x) as [[ | | ]|] eqn:E1.
  - left. split; [reflexivity|]. rewrite hundred_eq. reflexivity.
  - left. split; [reflexivity|]. rewrite hundred_eq. reflexivity.
  - right. rewrite (@leq_flip _ _ _ E1). cbn [CompOpp].
    destruct (SFcompare zero x) as [[ | | ]|] eqn:E0.
    + left. rewrite (@leq_flip _ _ _ E0). split; [reflexivity|].
      destruct x as [s|s| |s m e]; try discriminate; try (destruct s; discriminate).
      reflexivity.
    + right. auto.
    + left. rewrite (@leq_flip _ _ _ E0). split; reflexivity.
    + destruct x; try discriminate; cbn in E0; try destruct s; discriminate.
  - destruct x; try discriminate; rewrite hundred_eq in E1; cbn in E1; try destruct s; discriminate.
Qed.

Lemma opacity_round_trip :
  Forall (fun x =>
            JSMath.round
              (Number.mul (Number.div (MapManager.clampOpacity x) hundred)
                          hundred) = x)
         percentages.
Proof.
  apply Forall_forall. intros x Hx. unfold percentages in Hx.
  apply in_map_iff in Hx. destruct Hx as (n & <- & Hn). apply in_seq in Hn.
  do 101 (destruct n as [|n]; [vm_compute; reflexivity|]). lia.
Qed.

(** X17.  [setMapOpacity] clamps a percentage that is not NaN to the
    range from 0 to 100: the clamped value is 100 when the argument is 100
    or more, 0 when it is 0 or less, and the argument itself in between.
    With a current tile layer, the layer stays the same one and gets a
    hundredth of the clamped value as its opacity, and nothing else of the
    manager changes; for every whole percentage from 0 to 100
    [getMapOpacity] then returns the value that was set. *)
Theorem setMapOpacity_clamps_to_percent
  (config : Settings.t) (this : MapManager.t) (layer : L.TileLayer)
  (Hlayer : MapManager.currentTileLayer this = Some layer) :
  (forall x : number,
     isNaN x = false ->
     leq zero (MapManager.clampOpacity x) = true
     /\ leq (MapManager.clampOpacity x) hundred = true
     /\ ((leq hundred x = true /\ MapManager.clampOpacity x = hundred)
         \/ (leq x zero = true /\ MapManager.clampOpacity x = zero)
         \/ (SFcompare zero x = Some Lt /\ SFcompare x hundred = Some Lt
             /\ MapManager.clampOpacity x = x)))
  /\ (forall x : number,
        MapManager.setMapOpacity x this
        = MapManager.setCurrentTileLayer
            (Some (L.mkTileLayer (L.tileId layer) (L.tileUrl layer)
                     (L.tileAttribution layer) (L.tileMaxZoom layer)
                     (Number.div (MapManager.clampOpacity x) hundred)))
            this
        /\ (consistent this -> consistent (MapManager.setMapOpacity x this)))
  /\ Forall (fun x =>
               MapManager.getMapOpacity config
                 (MapManager.setMapOpacity x this) = x)
            percentages.
Proof.
  split; [|split].
  - intros x Hx. pose proof (clampOpacity_cases x Hx) as Hcases.
    split; [|split; [|exact Hcases]].
    + destruct Hcases as [[_ ->]|[[_ ->]|(H0 & _ & ->)]];
        [vm_compute; reflexivity | vm_compute; reflexivity |].
      unfold leq. now rewrite H0.
    + destruct Hcases as [[_ ->]|[[_ ->]|(_ & H1 & ->)]];
        [vm_compute; reflexivity | vm_compute; reflexivity |].
      unfold leq. now rewrite H1.
  - intros x. unfold MapManager.setMapOpacity. rewrite Hlayer.
    split; [reflexivity|].
    intros Hcons. open_manager this Hcons. subst ctl.
    show_consistent.
  - eapply Forall_impl; [|exact opacity_round_trip].
    intros x Hround. unfold MapManager.getMapOpacity, MapManager.setMapOpacity.
    rewrite Hlayer. cbn [MapManager.currentTileLayer
      MapManager.setCurrentTileLayer L.tileOpacity]. exact Hround.
Qed.

Lemma setMapOpacity_clamps_to_percent_witness :
  MapManager.getMapOpacity sampleSettings
    (MapManager.setMapOpacity (Number.ofN 40) sampleManager)
  = Number.ofN 40.
Proof.
  destruct (@setMapOpacity_clamps_to_percent sampleSettings sampleManager
              _ eq_refl) as (_ & _ & Hround).
  rewrite Forall_forall in Hround. apply Hround.
  apply in_map_iff. exists 40. split; [reflexivity|].
  apply in_seq. lia.
Defined.

Lemma osm_ownName : ownName (str "osm").
Proof. reflexivity. Qed.

Lemma osm_not_none : JSString.eqb (str "osm") (str "none") = false.
Proof. reflexivity. Qed.

Lemma init_fresh (config : Settings.t) (mapElementId : jsstring) :
  exists this : MapManager.t,
     MapManager.init config true (MapManager.construct mapElementId)
     = (this, Returns)
     /\ consistent this
     /\ MapManager.trackLayerGroup this = Some []
     /\ MapManager.iconLayerGroup this = Some []
     /\ MapManager.areTracksVisible this = true
     /\ MapManager.areIconsVisible this = true
     /\ MapManager.getCurrentMapType this = str "osm"
     /\ (MapManager.currentTileLayer this = None
         <-> assoc (str "osm") (Settings.mapTypes config) = None).
Proof.
  unfold MapManager.init, MapManager.setMapType.
  cbn [negb MapManager.construct MapManager.map].
  rewrite osm_not_none, (getMapTypeConfig_own config osm_ownName).
  destruct (assoc (str "osm") (Settings.mapTypes config)) as [entry|];
    cbn [option_map MapManager.construct MapManager.setMap MapManager.setTrackLayerGroup
         MapManager.setIconLayerGroup MapManager.map MapManager.currentTileLayer
         MapManager.currentMapType MapManager.mapElementId
         MapManager.trackLayerGroup MapManager.iconLayerGroup
         MapManager.tracksVisible MapManager.iconsVisible MapManager.created
         MapManager.setCurrentTileLayer MapManager.setCreated MapManager.setCurrentMapType
         L.hasTrackGroup L.hasIconGroup L.tiles L.hasScale L.fitted].
  - eexists. split; [reflexivity|]. split; [show_consistent; lia|].
    repeat split; try reflexivity; try discriminate.
  - eexists. split; [reflexivity|]. split; [show_consistent; lia|].
    repeat split; try reflexivity; try discriminate.
Qed.

(** X18.  [init] on a manager just constructed, on a page that has the
    element of the map, returns normally and makes the manager
    consistent: the map exists, both layer groups exist, are empty and
    are on the map, both flags are set, and the current type is [osm];
    there is a tile layer exactly when the configuration has an entry
    [osm].  On a page without the element, and on a manager that has its
    map already, [init] throws and changes nothing.  Before [init],
    [displayTracks], [displayIcons], [setTracksVisible], [setIconsVisible]
    and [setMapType] with a name of the configuration all throw a
    TypeError, while [clearAll] and [setMapOpacity] do nothing. *)
Theorem init_is_needed_and_enough
  (toFixed6 : number -> jsstring) (config : Settings.t)
  (mapElementId : jsstring) :
  let fresh := MapManager.construct mapElementId in
  (exists this : MapManager.t,
     MapManager.init config true fresh = (this, Returns)
     /\ consistent this
     /\ MapManager.trackLayerGroup this = Some []
     /\ MapManager.iconLayerGroup this = Some []
     /\ MapManager.areTracksVisible this = true
     /\ MapManager.areIconsVisible this = true
     /\ MapManager.getCurrentMapType this = str "osm"
     /\ (MapManager.currentTileLayer this = None
         <-> assoc (str "osm") (Settings.mapTypes config) = None))
  /\ (forall this : MapManager.t,
        MapManager.init config false this
        = (this, containerNotFound))
  /\ (forall this : MapManager.t,
        consistent this ->
        MapManager.init config true this
        = (this, containerInUse))
  /\ (forall tracks,
        MapManager.displayTracks config tracks fresh = (fresh, typeError))
  /\ (forall icons,
        MapManager.displayIcons toFixed6 config icons fresh
        = (fresh, typeError))
  /\ (forall visible,
        snd (MapManager.setTracksVisible visible fresh) = typeError
        /\ snd (MapManager.setIconsVisible visible fresh) = typeError)
  /\ (forall mapType entry,
        mapType <> str "none" ->
        assoc mapType (Settings.mapTypes config) = Some entry ->
        snd (MapManager.setMapType config mapType fresh) = typeError)
  /\ MapManager.clearAll fresh = fresh
  /\ (forall x, MapManager.setMapOpacity x fresh = fresh).
Proof.
  intros fresh. split; [exact (init_fresh config mapElementId)|].
  split; [reflexivity|]. split.
  { intros this (mp & ps & ms & Hmap & _). unfold MapManager.init.
    cbn [negb]. now rewrite Hmap. }
  repeat split.
  - intros mapType entry Hnone Hentry. unfold MapManager.setMapType, fresh.
    cbn [MapManager.construct MapManager.currentTileLayer].
    destruct (JSString.eqb mapType (str "none")) eqn:E;
      [apply eqb_eq in E; contradiction|].
    unfold getMapTypeConfig. rewrite Hentry. reflexivity.
Qed.
(* ================================================================== *)
(** ** The configuration *)
(* ================================================================== *)

Section ConfigFacts.

Import Config.

Lemma value_induction (P : value -> Prop) :
  P Undefined -> P Null -> (forall b, P (Boolean b)) -> (forall x, P (Num x)) ->
  (forall s, P (Str s)) -> (forall items, P (Array items)) ->
  (forall props, Forall (fun kv => P (snd kv)) props -> P (Object props)) ->
  forall v, P v.
Proof.
  intros HU HN HB HX HS HA HO. fix IH 1. intros [ | | b|x|s|items|props];
    [exact HU|exact HN|apply HB|apply HX|apply HS|apply HA|].
  apply HO. induction props as [|[k w] rest IHrest]; constructor.
  - exact (IH w).
  - exact IHrest.
Qed.

Lemma plain_object (props : list (jsstring * value)) :
  plain (Object props)
  <-> NoDup (map fst props)
      /\ Forall (fun kv =>
                   existsb (JSString.eqb (fst kv)) inheritedNames = false
                   /\ plain (snd kv)) props.
Proof.
  cbn [plain]. apply and_iff_compat_l.
  induction props as [|[k w] rest IH].
  - split; [constructor|trivial].
  - rewrite IH. split.
    + intros (Hk & Hw & Hrest). constructor; [split; assumption|assumption].
    + intros H. inversion H as [|? ? [Hk Hw] Hrest]; subst. auto.
Qed.

Lemma deepMerge_object (target : value) (props : list (jsstring * value)) :
  deepMerge target (Object props) = mergeProps props target.
Proof.
  unfold deepMerge. cbn [deepMerge_from]. revert target.
  induction props as [|[k v] rest IH]; intros target; [reflexivity|].
  cbn [mergeProps]. destruct (forKey (deepMerge_from v) target k v);
    [apply IH|reflexivity|reflexivity].
Qed.

Lemma assoc_set_same (props : list (jsstring * value)) (k : jsstring)
  (v : value) :
  assoc k (set props k v) = Some v.
Proof.
  induction props as [|[k' w] rest IH]; cbn.
  - now rewrite eqb_refl.
  - destruct (JSString.eqb k' k) eqn:E; cbn; now rewrite E.
Qed.

Lemma assoc_set_other (props : list (jsstring * value)) (k k' : jsstring)
  (v : value) :
  k <> k' -> assoc k' (set props k v) = assoc k' props.
Proof.
  intros Hne. induction props as [|[k0 w] rest IH]; cbn.
  - destruct (JSString.eqb k k') eqn:E; [apply eqb_eq in E; contradiction|].
    reflexivity.
  - destruct (JSString.eqb k0 k) eqn:E; cbn.
    + apply eqb_eq in E. subst k0.
      destruct (JSString.eqb k k') eqn:E'; [apply eqb_eq in E'; contradiction|].
      reflexivity.
    + now rewrite IH.
Qed.

Lemma get_set_same (props : list (jsstring * value)) (k : jsstring) (v : value) :
  get (set props k v) k = v.
Proof. unfold get. now rewrite assoc_set_same. Qed.

Lemma get_set_other (props : list (jsstring * value)) (k k' : jsstring)
  (v : value) :
  k <> k' -> get (set props k v) k' = get props k'.
Proof. intros H. unfold get. now rewrite assoc_set_other. Qed.

Lemma set_present (props : list (jsstring * value)) (k : jsstring) (v : value) :
  assoc k props = Some v -> set props k v = props.
Proof.
  induction props as [|[k' w] rest IH]; cbn; [discriminate|].
  destruct (JSString.eqb k' k) eqn:E.
  - intros H; injection H as ->. reflexivity.
  - intros H. now rewrite IH.
Qed.

Lemma assoc_In (props : list (jsstring * value)) (k : jsstring) (v : value) :
  NoDup (map fst props) -> In (k, v) props -> assoc k props = Some v.
Proof.
  induction props as [|[k' w] rest IH]; cbn; [contradiction|].
  intros Hnd [H|H].
  - injection H as -> ->. now rewrite eqb_refl.
  - inversion Hnd as [|? ? Hnot Hrest]; subst.
    destruct (JSString.eqb k' k) eqn:E.
    + apply eqb_eq in E. subst k'. exfalso. apply Hnot.
      change k with (fst (k, v)). now apply in_map.
    + now apply IH.
Qed.

Lemma assoc_None (props : list (jsstring * value)) (k : jsstring) :
  assoc k props = None <-> ~ In k (map fst props).
Proof.
  induction props as [|[k' w] rest IH]; cbn; [tauto|].
  destruct (JSString.eqb k' k) eqn:E.
  - apply eqb_eq in E. subst. split; [discriminate|]. intros H. exfalso. auto.
  - rewrite IH. split.
    + intros H [H'|H']; [subst; rewrite eqb_refl in E; discriminate|auto].
    + intros H H'. apply H. now right.
Qed.

Lemma forKey_object (merge : value -> outcome) (props : list (jsstring * value))
  (k : jsstring) (v : value) (r : value) :
  forKey merge (Object props) k v = Done r ->
  existsb (JSString.eqb k) inheritedNames = false
  /\ exists m : value,
       r = Object (set props k m)
       /\ match v with
          | Object _ => merge (orEmptyObject (get props k)) = Done m
          | _ => m = v
          end.
Proof.
  unfold forKey, orEmptyObject.
  destruct (existsb (JSString.eqb k) inheritedNames); [discriminate|].
  intros H. split; [reflexivity|].
  destruct v; cbn [assign] in H;
    try (injection H as <-; eexists; split; reflexivity).
  destruct (merge (if truthy (get props k) then get props k else Object []))
    as [m|m|] eqn:E; try discriminate.
  injection H as <-. exists m. split; reflexivity.
Qed.

Lemma forKey_not_object (merge : value -> outcome) (target : value)
  (k : jsstring) (v : value) (r : value) :
  forKey merge target k v = Done r -> exists props, target = Object props.
Proof.
  unfold forKey.
  destruct (existsb (JSString.eqb k) inheritedNames); [discriminate|].
  destruct target as [ | | b|x|s|items|props]; [| | | | | |eauto];
    destruct v; cbn [assign];
    try discriminate;
    destruct (existsb (JSString.eqb k) numberNames); discriminate.
Qed.

Lemma mergeProps_object (l : list (jsstring * value)) :
  forall (props : list (jsstring * value)) (r : value),
    mergeProps l (Object props) = Done r -> exists props', r = Object props'.
Proof.
  induction l as [|[k v] rest IH]; intros props r H; cbn [mergeProps] in H.
  - injection H as <-. eauto.
  - destruct (forKey (deepMerge_from v) (Object props) k v) as [t| |] eqn:E;
      try discriminate.
    apply forKey_object in E. destruct E as (_ & m & -> & _).
    now apply IH in H.
Qed.

Lemma mergeProps_target (l : list (jsstring * value)) (target r : value) :
  mergeProps l target = Done r ->
  l = [] /\ r = target \/ exists props, target = Object props.
Proof.
  destruct l as [|[k v] rest]; cbn [mergeProps]; intros H.
  - left. injection H as <-. auto.
  - right. destruct (forKey (deepMerge_from v) target k v) eqn:E;
      try discriminate.
    now apply forKey_not_object in E.
Qed.

Lemma mergeProps_by_key (source : list (jsstring * value)) :
  forall (target : list (jsstring * value)) (r : value),
    NoDup (map fst source) ->
    mergeProps source (Object target) = Done r ->
    exists result : list (jsstring * value),
      r = Object result
      /\ forall key : jsstring,
           match assoc key source with
           | None => assoc key result = assoc key target
           | Some (Object inner) =>
               exists merged : value,
                 assoc key result = Some merged
                 /\ deepMerge (orEmptyObject (get target key)) (Object inner)
                    = Done merged
           | Some v => assoc key result = Some v
           end.
Proof.
  induction source as [|[k v] rest IH]; intros target r Hkeys Hdone.
  - cbn in Hdone. injection Hdone as <-. exists target. split; [reflexivity|].
    intros key. reflexivity.
  - cbn [mergeProps] in Hdone.
    destruct (forKey (deepMerge_from v) (Object target) k v) as [t| |] eqn:E;
      try discriminate.
    apply forKey_object in E. destruct E as (_ & m & -> & Hm).
    cbn [map fst] in Hkeys. inversion Hkeys as [|? ? Hnot Hrest]; subst.
    destruct (IH _ _ Hrest Hdone) as (result & -> & Hres).
    exists result. split; [reflexivity|]. intros key.
    cbn [assoc]. destruct (JSString.eqb k key) eqn:Ek.
    + apply eqb_eq in Ek. subst key.
      specialize (Hres k). apply assoc_None in Hnot. rewrite Hnot in Hres.
      rewrite assoc_set_same in Hres.
      destruct v; try (subst m; exact Hres).
      exists m. split; [exact Hres|exact Hm].
    + assert (Hne : k <> key) by (intros ->; rewrite eqb_refl in Ek; discriminate).
      specialize (Hres key). unfold get in *.
      rewrite !(@assoc_set_other target k key m Hne) in Hres. exact Hres.
Qed.

(** X19.  What [deepMerge] leaves in an object, key by key, when the
    source is an object without a key twice and the merge ends normally:
    the target is still an object; a property that the source does not
    have is as it was; a property whose source value is no object, an
    array included, has that value; and a property whose source value is
    an object holds the merge of that object into what the target had
    there, or into a new empty object when the target had nothing there
    that counts as true. *)
Theorem deepMerge_by_key
  (target source : list (jsstring * value)) (r : value)
  (Hkeys : NoDup (map fst source))
  (Hdone : deepMerge (Object target) (Object source) = Done r) :
  exists result : list (jsstring * value),
    r = Object result
    /\ forall key : jsstring,
         match assoc key source with
         | None => assoc key result = assoc key target
         | Some (Object inner) =>
             exists merged : value,
               assoc key result = Some merged
               /\ deepMerge (orEmptyObject (get target key)) (Object inner)
                  = Done merged
         | Some v => assoc key result = Some v
         end.
Proof.
  rewrite deepMerge_object in Hdone.
  exact (@mergeProps_by_key source target r Hkeys Hdone).
Qed.

Lemma truthy_orEmptyObject (v : value) : truthy (orEmptyObject v) = true.
Proof. unfold orEmptyObject. destruct (truthy v) eqn:E; [exact E|reflexivity]. Qed.

Lemma deepMerge_truthy (target : value) (l : list (jsstring * value))
  (m : value) :
  deepMerge target (Object l) = Done m ->
  truthy target = true -> truthy m = true.
Proof.
  rewrite deepMerge_object. intros H Ht.
  destruct (@mergeProps_target _ _ _ H) as [[_ ->]|[props ->]]; [exact Ht|].
  apply mergeProps_object in H. destruct H as [props' ->]. reflexivity.
Qed.

Lemma mergeProps_absorbed (l : list (jsstring * value))
  (props : list (jsstring * value)) :
  (forall k v,
     In (k, v) l ->
     existsb (JSString.eqb k) inheritedNames = false
     /\ match v with
        | Object _ =>
            exists m, assoc k props = Some m /\ truthy m = true
                      /\ deepMerge m v = Done m
        | _ => assoc k props = Some v
        end) ->
  mergeProps l (Object props) = Done (Object props).
Proof.
  induction l as [|[k v] rest IH]; intros H; [reflexivity|].
  cbn [mergeProps].
  destruct (H k v (or_introl eq_refl)) as [Hk Hv].
  assert (Hstep : forKey (deepMerge_from v) (Object props) k v
                  = Done (Object props)).
  { unfold forKey. rewrite Hk.
    destruct v; cbn [assign]; try (now rewrite (@set_present props k _ Hv)).
    destruct Hv as (m & Hm & Ht & Hmerge).
    unfold get. rewrite Hm, Ht. unfold deepMerge in Hmerge. rewrite Hmerge.
    now rewrite (@set_present props k m Hm). }
  rewrite Hstep. apply IH. intros k' v' Hin. apply H. now right.
Qed.

Lemma plain_entry (props : list (jsstring * value)) (k : jsstring) (v : value) :
  plain (Object props) -> In (k, v) props ->
  existsb (JSString.eqb k) inheritedNames = false
  /\ plain v /\ assoc k props = Some v.
Proof.
  intros Hp Hin. apply plain_object in Hp. destruct Hp as [Hnd Hall].
  rewrite Forall_forall in Hall. destruct (Hall _ Hin) as [Hk Hv].
  split; [exact Hk|]. split; [exact Hv|]. now apply assoc_In.
Qed.

Lemma deepMerge_again (source : value) :
  forall target r : value,
    plain source ->
    deepMerge target source = Done r -> deepMerge r source = Done r.
Proof.
  induction source as [ | | b|x|s|items|props IH] using value_induction;
    intros target r Hplain Hdone;
    try (cbn in Hdone |- *; injection Hdone as <-; reflexivity).
  - destruct s; cbn in Hdone |- *; [reflexivity|discriminate].
  - destruct items; cbn in Hdone |- *; [reflexivity|discriminate].
  - rewrite deepMerge_object in Hdone |- *.
    destruct (@mergeProps_target _ _ _ Hdone) as [[-> ->]|[tprops ->]];
      [reflexivity|].
    pose proof Hplain as Hp. apply plain_object in Hp. destruct Hp as [Hnd _].
    destruct (@mergeProps_by_key props tprops _ Hnd Hdone) as (result & -> & Hres).
    apply mergeProps_absorbed. intros k v Hin.
    destruct (@plain_entry _ _ _ Hplain Hin) as (Hk & Hv & Hassoc).
    split; [exact Hk|]. specialize (Hres k). rewrite Hassoc in Hres.
    destruct v; try exact Hres.
    destruct Hres as (merged & Hm & Hmerge). exists merged.
    split; [exact Hm|]. split.
    + exact (@deepMerge_truthy _ _ _ Hmerge (truthy_orEmptyObject _)).
    + rewrite Forall_forall in IH. exact (IH _ Hin _ _ Hv Hmerge).
Qed.

Lemma deepMerge_self (v : value) :
  plain v -> leaf v \/ deepMerge v v = Done v.
Proof.
  induction v as [ | | b|x|s|items|props IH] using value_induction;
    intros Hplain; try (left; exact I).
  right. rewrite deepMerge_object. apply mergeProps_absorbed.
  intros k v Hin. destruct (@plain_entry _ _ _ Hplain Hin) as (Hk & Hv & Hassoc).
  split; [exact Hk|]. rewrite Forall_forall in IH.
  destruct (IH _ Hin Hv) as [Hleaf|Hself].
  - destruct v; try exact Hassoc. contradiction.
  - destruct v; try exact Hassoc.
    exists (Object props0). split; [exact Hassoc|]. split; [reflexivity|exact Hself].
Qed.

(** X20.  Merging the same source a second time changes nothing: when
    [deepMerge] of a source that has no key twice and no inherited key
    ended normally, merging that source again into the result ends
    normally and leaves the result as it is.  An object of that kind
    merged into itself is left as it is. *)
Theorem deepMerge_idempotent
  (target source r : value)
  (Hplain : plain source)
  (Hdone : deepMerge target source = Done r) :
  deepMerge r source = Done r
  /\ (forall props, source = Object props -> deepMerge source source = Done source).
Proof.
  split; [exact (@deepMerge_again source target r Hplain Hdone)|].
  intros props ->. destruct (@deepMerge_self _ Hplain) as [[]|H]. exact H.
Qed.

Lemma deepMerge_nest (path : list jsstring) (x : value) :
  leaf x ->
  path <> [] ->
  Forall (fun key => existsb (JSString.eqb key) inheritedNames = false) path ->
  forall c : value,
    objectsAlong c path ->
    deepMerge c (nest path x) = Done (setPath c path x).
Proof.
  intros Hleaf Hne Hkeys. induction path as [|k rest IH]; [contradiction|].
  intros c Halong. inversion Hkeys as [|? ? Hk Hrest]; subst.
  cbn [objectsAlong] in Halong.
  destruct c as [ | | b|y|s|items|props]; try contradiction.
  cbn [nest setPath]. rewrite deepMerge_object. cbn [mergeProps].
  unfold forKey. rewrite Hk.
  destruct rest as [|k2 rest'].
  - cbn [nest setPath]. destruct x; try contradiction; reflexivity.
  - assert (Hinner := IH ltac:(discriminate) Hrest _ Halong).
    cbn [nest] in Hinner |- *. unfold deepMerge in Hinner.
    fold (orEmptyObject (get props k)). rewrite Hinner. reflexivity.
Qed.

Lemma getPath_Undefined (path : list jsstring) :
  getPath Undefined path = Undefined.
Proof. destruct path; reflexivity. Qed.

Lemma getPath_setPath (path : list jsstring) (x : value) :
  forall c : value,
    objectsAlong c path -> getPath (setPath c path x) path = x.
Proof.
  induction path as [|k rest IH]; intros c Halong; [reflexivity|].
  cbn [objectsAlong] in Halong.
  destruct c as [ | | b|y|s|items|props]; try contradiction.
  cbn [setPath getPath]. rewrite get_set_same. now apply IH.
Qed.

Lemma getPath_orEmptyObject (v : value) (path : list jsstring) :
  path <> [] -> getPath (orEmptyObject v) path = getPath v path.
Proof.
  intros Hne. unfold orEmptyObject. destruct (truthy v) eqn:E; [reflexivity|].
  destruct path as [|k rest]; [contradiction|].
  cbn [getPath]. unfold get. cbn [assoc]. rewrite getPath_Undefined.
  destruct v; try reflexivity. discriminate.
Qed.

Lemma getPath_setPath_diverge (x : value) (common : list jsstring) :
  forall (k k' : jsstring) (r r' : list jsstring) (c : value),
    k <> k' ->
    getPath (setPath c (common ++ k :: r) x) (common ++ k' :: r')
    = getPath c (common ++ k' :: r').
Proof.
  induction common as [|a cm IH]; intros k k' r r' c Hne.
  - cbn [app setPath getPath]. destruct c; try reflexivity.
    now rewrite (@get_set_other props k k' _ Hne).
  - cbn [app setPath getPath]. destruct c; try reflexivity.
    rewrite get_set_same, (IH k k' r r' _ Hne).
    apply getPath_orEmptyObject. now destruct cm.
Qed.

Section ConfigStorage.

Variable parse : jsstring -> option value.
Variable stringify : value -> jsstring.
Variable accepts : jsstring -> bool.

Lemma updateConfig_nest (path : list jsstring) (x : value) (w : World) :
  leaf x ->
  path <> [] ->
  Forall (fun key => existsb (JSString.eqb key) inheritedNames = false) path ->
  objectsAlong (CONFIG w) path ->
  thenSave stringify accepts (updateConfig (nest path x) w)
  = Finished (saveConfigToStorage stringify accepts
                (mkWorld (setPath (CONFIG w) path x) (item w))).
Proof.
  intros Hleaf Hne Hkeys Halong. unfold updateConfig.
  now rewrite (@deepMerge_nest path x Hleaf Hne Hkeys _ Halong).
Qed.

(** X21.  [updateMapOpacity], [updateIconScale] and [updateTrackStyle]
    with an object of one field, given a value that is no object, change
    one value of the configuration and save it: afterwards the
    configuration has the value at [map.opacity], at [kml.icons.scale] or
    at [map.tracks.<field>], an object missing on the way being created,
    and it reads as before along every path that parts from that one.
    [updateTrackStyle] with a value that is no object, such as [null],
    puts that value in the place of the whole of [map.tracks].  Saving
    does not change the configuration. *)
Theorem update_functions_set_one_value
  (w : World) (x : value) (Hleaf : leaf x) :
  let written (path : list jsstring) :=
    Finished (saveConfigToStorage stringify accepts
                (mkWorld (setPath (CONFIG w) path x) (item w))) in
  (objectsAlong (CONFIG w) [str "map"; str "opacity"] ->
   updateMapOpacity stringify accepts x w
   = written [str "map"; str "opacity"])
  /\ (objectsAlong (CONFIG w) [str "kml"; str "icons"; str "scale"] ->
      updateIconScale stringify accepts x w
      = written [str "kml"; str "icons"; str "scale"])
  /\ (forall field : jsstring,
        existsb (JSString.eqb field) inheritedNames = false ->
        objectsAlong (CONFIG w) [str "map"; str "tracks"; field] ->
        updateTrackStyle stringify accepts (Object [(field, x)]) w
        = written [str "map"; str "tracks"; field])
  /\ (objectsAlong (CONFIG w) [str "map"; str "tracks"] ->
      updateTrackStyle stringify accepts x w
      = written [str "map"; str "tracks"])
  /\ (forall (path : list jsstring) (c : value),
        objectsAlong c path ->
        getPath (setPath c path x) path = x
        /\ forall q : list jsstring,
             diverge path q -> getPath (setPath c path x) q = getPath c q)
  /\ (forall w' : World,
        CONFIG (saveConfigToStorage stringify accepts w') = CONFIG w').
Proof.
  intros written. repeat split.
  - intros H. apply (@updateConfig_nest [str "map"; str "opacity"] x w Hleaf);
      [discriminate|repeat constructor|exact H].
  - intros H.
    apply (@updateConfig_nest [str "kml"; str "icons"; str "scale"] x w Hleaf);
      [discriminate|repeat constructor|exact H].
  - intros field Hfield H.
    apply (@updateConfig_nest [str "map"; str "tracks"; field] x w Hleaf);
      [discriminate|repeat constructor; exact Hfield|exact H].
  - intros H. apply (@updateConfig_nest [str "map"; str "tracks"] x w Hleaf);
      [discriminate|repeat constructor|exact H].
  - now apply getPath_setPath.
  - intros q (common & k & k' & r & r' & -> & -> & Hne).
    now apply getPath_setPath_diverge.
  - intros w'. unfold saveConfigToStorage.
    match goal with |- context [accepts ?t] => destruct (accepts t) end;
      reflexivity.
Qed.

Lemma loadConfigFromStorage_changes
  (w w' : World) (Hload : loadConfigFromStorage parse w = Some w') :
  (CONFIG w' = CONFIG w
   \/ exists (stored : jsstring) (storedConfig version : value),
        item w = Some stored
        /\ parse stored = Some storedConfig
        /\ versionOf storedConfig = Some version
        /\ strictEq (get (spread (CONFIG w)) (str "version")) version = true
        /\ (deepMerge (CONFIG w) storedConfig = Done (CONFIG w')
            \/ deepMerge (CONFIG w) storedConfig = Threw (CONFIG w')))
  /\ (item w' = None
      \/ item w' = item w
         /\ (w' = w
             \/ exists (stored : jsstring) (storedConfig : value),
                  item w = Some stored
                  /\ parse stored = Some storedConfig
                  /\ deepMerge (CONFIG w) storedConfig = Done (CONFIG w')))
  /\ (item w = None \/ item w = Some [] -> w' = w).
Proof.
  unfold loadConfigFromStorage in Hload.
  destruct (item w) as [stored|] eqn:Eitem.
  2:{ injection Hload as <-. rewrite Eitem. repeat split; auto. }
  destruct stored as [|c s].
  { cbn in Hload. injection Hload as <-. rewrite Eitem. repeat split; auto. }
  cbn [JSString.truthy negb] in Hload.
  assert (Hlast : Some (c :: s) = None \/ Some (c :: s) = Some [] -> w' = w)
    by (intros [H|H]; discriminate).
  destruct (parse (c :: s)) as [storedConfig|] eqn:Eparse.
  2:{ injection Hload as <-. cbn. auto. }
  destruct (versionOf storedConfig) as [version|] eqn:Eversion.
  2:{ injection Hload as <-. cbn. auto. }
  destruct (strictEq (get (spread (CONFIG w)) (str "version")) version)
    eqn:Eeq.
  2:{ injection Hload as <-. cbn. auto. }
  cbn [negb] in Hload. unfold updateConfig in Hload.
  destruct (deepMerge (CONFIG w) storedConfig) as [config|config|] eqn:Emerge;
    try discriminate; injection Hload as <-;
    cbn [CONFIG item removeItem].
  - split; [right; exists (c :: s), storedConfig, version; auto 10|].
    split; [right; split; [exact Eitem|right; eauto]|exact Hlast].
  - split; [right; exists (c :: s), storedConfig, version; auto 10|].
    split; [left; reflexivity|exact Hlast].
Qed.

Lemma loadConfigFromStorage_untouched (w : World) :
  item w = None \/ item w = Some [] ->
  loadConfigFromStorage parse w = Some w.
Proof.
  unfold loadConfigFromStorage. intros [->| ->]; reflexivity.
Qed.

Lemma loadConfigFromStorage_cleared (w : World) (stored : jsstring) :
  item w = Some stored ->
  stored <> [] ->
  parse stored = None
  \/ (exists storedConfig : value,
        parse stored = Some storedConfig
        /\ (versionOf storedConfig = None
            \/ exists version : value,
                 versionOf storedConfig = Some version
                 /\ strictEq (get (spread (CONFIG w)) (str "version")) version
                    = false)) ->
  loadConfigFromStorage parse w = Some (removeItem w).
Proof.
  intros Hitem Hstored Hwhy. unfold loadConfigFromStorage. rewrite Hitem.
  destruct stored as [|c s]; [contradiction|].
  cbn [JSString.truthy negb].
  destruct Hwhy as [->|(storedConfig & -> & [->|(version & -> & ->)])];
    reflexivity.
Qed.

(** X22.  When the item is there and not empty, parses, and carries a
    [version] strictly equal to the one of the configuration,
    [loadConfigFromStorage] merges the parsed value: the configuration
    afterwards is what [deepMerge] left, with the item kept when the merge
    ended normally and removed when it threw.  In every other case the
    configuration is not changed: an item that is absent or empty leaves
    everything as it is, and an item that does not parse, that is [null],
    or whose [version] differs is removed.  So every load that changes
    the configuration had a stored item of the matching version. *)
Theorem loadConfigFromStorage_needs_matching_version
  (w : World) (stored : jsstring) (storedConfig version : value)
  (Hitem : item w = Some stored)
  (Hstored : stored <> [])
  (Hparse : parse stored = Some storedConfig)
  (Hversion : versionOf storedConfig = Some version)
  (Hmatch : strictEq (get (spread (CONFIG w)) (str "version")) version
            = true) :
  (forall config : value,
     deepMerge (CONFIG w) storedConfig = Done config ->
     loadConfigFromStorage parse w = Some (mkWorld config (item w)))
  /\ (forall config : value,
        deepMerge (CONFIG w) storedConfig = Threw config ->
        loadConfigFromStorage parse w = Some (mkWorld config None))
  /\ (forall w0 : World,
        item w0 = None \/ item w0 = Some [] ->
        loadConfigFromStorage parse w0 = Some w0)
  /\ (forall (w0 : World) (stored0 : jsstring),
        item w0 = Some stored0 ->
        stored0 <> [] ->
        parse stored0 = None
        \/ (exists storedConfig0 : value,
              parse stored0 = Some storedConfig0
              /\ (versionOf storedConfig0 = None
                  \/ exists version0 : value,
                       versionOf storedConfig0 = Some version0
                       /\ strictEq (get (spread (CONFIG w0)) (str "version"))
                                   version0 = false)) ->
        loadConfigFromStorage parse w0 = Some (removeItem w0))
  /\ (forall w0 w0' : World,
        loadConfigFromStorage parse w0 = Some w0' ->
        CONFIG w0' <> CONFIG w0 ->
        exists (stored0 : jsstring) (storedConfig0 version0 : value),
          item w0 = Some stored0
          /\ parse stored0 = Some storedConfig0
          /\ versionOf storedConfig0 = Some version0
          /\ strictEq (get (spread (CONFIG w0)) (str "version")) version0
             = true
          /\ (deepMerge (CONFIG w0) storedConfig0 = Done (CONFIG w0')
              \/ deepMerge (CONFIG w0) storedConfig0 = Threw (CONFIG w0'))).
Proof.
  assert (Hcall : loadConfigFromStorage parse w
                  = match updateConfig storedConfig w with
                    | Finished w1 => Some w1
                    | Failed w1 => Some (removeItem w1)
                    | Unfollowed => None
                    end).
  { unfold loadConfigFromStorage. rewrite Hitem.
    destruct stored as [|c s]; [contradiction|].
    cbn [JSString.truthy negb]. now rewrite Hparse, Hversion, Hmatch. }
  split; [|split; [|split; [|split]]].
  - intros config Hdone. rewrite Hcall. unfold updateConfig.
    now rewrite Hdone.
  - intros config Hthrew. rewrite Hcall. unfold updateConfig.
    now rewrite Hthrew.
  - exact loadConfigFromStorage_untouched.
  - exact loadConfigFromStorage_cleared.
  - intros w0 w0' Hload Hchanged.
    destruct (@loadConfigFromStorage_changes w0 w0' Hload) as [[Hsame|H] _];
      [contradiction|exact H].
Qed.

Lemma saveConfigToStorage_present (w : World) (props : list (jsstring * value))
  (version : value) :
  CONFIG w = Object props ->
  assoc (str "version") props = Some version ->
  accepts (stringify (CONFIG w)) = true ->
  saveConfigToStorage stringify accepts w
  = mkWorld (CONFIG w) (Some (stringify (CONFIG w))).
Proof.
  intros HC Hver Hacc. unfold saveConfigToStorage. rewrite HC in *.
  cbn [spread]. unfold get. rewrite Hver.
  rewrite (@set_present props (str "version") version Hver).
  now rewrite Hacc.
Qed.

(** X23.  What [saveConfigToStorage] saved, [loadConfigFromStorage]
    loads back without a change: for a configuration that is an object
    without a key twice or an inherited key and with a string for its
    [version], when the storage takes the text and [JSON.parse] gives back
    what [JSON.stringify] was given, the item holds the text of the
    configuration, and loading leaves the configuration and the item as
    they are. *)
Theorem saved_configuration_loads_back
  (w : World) (props : list (jsstring * value)) (version : jsstring)
  (Hconfig : CONFIG w = Object props)
  (Hplain : plain (CONFIG w))
  (Hversion : assoc (str "version") props = Some (Str version))
  (Haccepts : accepts (stringify (CONFIG w)) = true)
  (Hnonempty : stringify (CONFIG w) <> [])
  (Hround : parse (stringify (CONFIG w)) = Some (CONFIG w)) :
  let saved := saveConfigToStorage stringify accepts w in
  saved = mkWorld (CONFIG w) (Some (stringify (CONFIG w)))
  /\ loadConfigFromStorage parse saved = Some saved.
Proof.
  intros saved. unfold saved.
  rewrite (@saveConfigToStorage_present w props (Str version) Hconfig
             Hversion Haccepts).
  split; [reflexivity|].
  unfold loadConfigFromStorage. cbn [item CONFIG].
  destruct (stringify (CONFIG w)) as [|c s] eqn:Etext; [contradiction|].
  cbn [JSString.truthy negb]. rewrite Hround.
  rewrite Hconfig in *. cbn [versionOf spread]. unfold get. rewrite Hversion.
  cbn [strictEq]. rewrite eqb_refl. cbn [negb].
  unfold updateConfig. cbn [CONFIG item].
  destruct (@deepMerge_self (Object props) Hplain) as [[]|Hself].
  now rewrite Hself.
Qed.

End ConfigStorage.

End ConfigFacts.

Lemma sampleConfig_plain : Config.plain Config.sampleConfig.
Proof.
  cbn. repeat split;
    repeat (constructor; [cbn; intuition discriminate|]); constructor.
Qed.

Lemma saved_configuration_loads_back_witness :
  Config.loadConfigFromStorage (fun _ => Some Config.sampleConfig)
    (Config.saveConfigToStorage (fun _ => str "{}") (fun _ => true)
       (Config.mkWorld Config.sampleConfig None))
  = Some (Config.saveConfigToStorage (fun _ => str "{}") (fun _ => true)
            (Config.mkWorld Config.sampleConfig None)).
Proof.
  destruct (@saved_configuration_loads_back
              (fun _ => Some Config.sampleConfig) (fun _ => str "{}") (fun _ => true)
              (Config.mkWorld Config.sampleConfig None) _ (str "1.2.0") eq_refl
              sampleConfig_plain eq_refl eq_refl) as [_ H].
  - discriminate.
  - reflexivity.
  - exact H.
Defined.

Lemma deepMerge_by_key_witness :
  exists result : list (jsstring * Config.value),
    Config.deepMerge Config.sampleConfig
      (Config.nest [str "map"; str "opacity"] (Config.Num (Number.ofN 50)))
    = Config.Done (Config.Object result)
    /\ assoc (str "kml") result
       = assoc (str "kml") (Config.spread Config.sampleConfig).
Proof.
  assert (Hdone :
            Config.deepMerge (Config.Object (Config.spread Config.sampleConfig))
              (Config.Object
                 [(str "map",
                   Config.Object [(str "opacity", Config.Num (Number.ofN 50))])])
            = Config.Done
                (Config.setPath Config.sampleConfig [str "map"; str "opacity"]
                   (Config.Num (Number.ofN 50))))
    by (vm_compute; reflexivity).
  assert (Hkeys :
            NoDup (map fst
                     [(str "map",
                       Config.Object
                         [(str "opacity", Config.Num (Number.ofN 50))])]))
    by (repeat constructor; intros []).
  destruct (@deepMerge_by_key _ _ _ Hkeys Hdone) as (result & Hr & Hres).
  exists result. split.
  - rewrite <- Hr. exact Hdone.
  - exact (Hres (str "kml")).
Defined.

Lemma deepMerge_idempotent_witness :
  Config.deepMerge
    (Config.setPath Config.sampleConfig [str "map"; str "opacity"]
       (Config.Num (Number.ofN 50)))
    (Config.nest [str "map"; str "opacity"] (Config.Num (Number.ofN 50)))
  = Config.Done
      (Config.setPath Config.sampleConfig [str "map"; str "opacity"]
         (Config.Num (Number.ofN 50))).
Proof.
  refine (proj1 (@deepMerge_idempotent Config.sampleConfig
                   (Config.nest [str "map"; str "opacity"]
                      (Config.Num (Number.ofN 50)))
                   _ _ _)).
  - cbn. repeat split; repeat constructor; intros [].
  - vm_compute. reflexivity.
Defined.

Lemma update_functions_set_one_value_witness :
  Config.updateMapOpacity (fun _ => str "{}") (fun _ => true)
    (Config.Num (Number.ofN 50)) (Config.mkWorld Config.sampleConfig None)
  = Config.Finished
      (Config.saveConfigToStorage (fun _ => str "{}") (fun _ => true)
         (Config.mkWorld
            (Config.setPath Config.sampleConfig [str "map"; str "opacity"]
               (Config.Num (Number.ofN 50)))
            None)).
Proof.
  refine (proj1 (@update_functions_set_one_value
                   (fun _ => str "{}") (fun _ => true)
                   (Config.mkWorld Config.sampleConfig None)
                   (Config.Num (Number.ofN 50)) I) _).
  exact I.
Defined.

Lemma loadConfigFromStorage_needs_matching_version_witness :
  Config.loadConfigFromStorage (fun _ => Some Config.sampleStored)
    (Config.mkWorld Config.sampleConfig (Some (str "saved")))
  = Some (Config.mkWorld
            (Config.setPath Config.sampleConfig [str "map"; str "opacity"]
               (Config.Num (Number.ofN 50)))
            (Some (str "saved"))).
Proof.
  refine (proj1 (@loadConfigFromStorage_needs_matching_version
                   (fun _ => Some Config.sampleStored)
                   (Config.mkWorld Config.sampleConfig (Some (str "saved")))
                   (str "saved") Config.sampleStored
                   (Config.Str (str "1.2.0"))
                   eq_refl _ eq_refl eq_refl eq_refl) _ _).
  - discriminate.
  - vm_compute. reflexivity.
Defined.

(* ================================================================== *)
(** ** The viewer *)
(* ================================================================== *)

Lemma consistent_setTrackLayerGroup (m : MapManager.t) (g : list L.Polyline) :
  consistent m -> consistent (MapManager.setTrackLayerGroup (Some g) m).
Proof. intros H. open_manager m H. show_consistent. Qed.

Lemma consistent_setIconLayerGroup (m : MapManager.t) (g : list L.Marker) :
  consistent m -> consistent (MapManager.setIconLayerGroup (Some g) m).
Proof. intros H. open_manager m H. show_consistent. Qed.

Lemma consistent_displayTracks (config : Settings.t)
  (tracks : option (list Track.t)) (m : MapManager.t) :
  consistent m -> consistent (fst (MapManager.displayTracks config tracks m)).
Proof.
  intros H. pose proof H as (mp & ps & ms & _ & Htg & _).
  unfold MapManager.displayTracks. rewrite Htg.
  destruct tracks as [[|t rest]|]; cbn [fst];
    try (now apply consistent_setTrackLayerGroup).
  destruct (MapManager.displayTracks_from config 0 (t :: rest) []) as [g c].
  cbn [fst]. apply consistent_setTrackLayerGroup.
  now apply consistent_setTrackLayerGroup.
Qed.

Lemma consistent_displayIcons (toFixed6 : number -> jsstring)
  (config : Settings.t) (icons : option (list Icon.t)) (m : MapManager.t) :
  consistent m ->
  consistent (fst (MapManager.displayIcons toFixed6 config icons m)).
Proof.
  intros H. pose proof H as (mp & ps & ms & _ & _ & Hig & _).
  unfold MapManager.displayIcons. rewrite Hig.
  destruct icons as [[|c rest]|]; cbn [fst];
    try (now apply consistent_setIconLayerGroup).
  destruct (MapManager.displayIcons_from toFixed6 config 0 (c :: rest) [])
    as [g r].
  cbn [fst]. apply consistent_setIconLayerGroup.
  now apply consistent_setIconLayerGroup.
Qed.

Lemma consistent_fitToContent (tracks : list Track.t) (icons : list Icon.t)
  (m : MapManager.t) :
  consistent m -> consistent (fst (MapManager.fitToContent tracks icons m)).
Proof.
  intros H. unfold MapManager.fitToContent.
  destruct (0 <? length (MapManager.allPoints tracks icons)); [|exact H].
  destruct (negb (forallb L.validLatLng (MapManager.allPoints tracks icons)));
    [exact H|].
  open_manager m H. show_consistent.
Qed.

Lemma fitToContent_call (tracks : list Track.t) (icons : list Icon.t)
  (m : MapManager.t) (mp : L.Map) :
  MapManager.map m = Some mp ->
  Forall finiteTrack tracks -> Forall finiteIcon icons ->
  MapManager.fitToContent tracks icons m
  = (if 0 <? length (MapManager.allPoints tracks icons)
     then MapManager.setMap
            (Some (L.mkMap (L.hasTrackGroup mp) (L.hasIconGroup mp)
                           (L.tiles mp) (L.hasScale mp)
                           (Some (MapManager.allPoints tracks icons))))
            m
     else m,
     Returns).
Proof.
  intros Hmap Ht Hi. unfold MapManager.fitToContent.
  destruct (0 <? length (MapManager.allPoints tracks icons)); [|reflexivity].
  now rewrite (allPoints_valid Ht Hi), Hmap.
Qed.

Section ViewerFacts.

Variable parseFromString : jsstring -> Document.
Variable fetch : jsstring -> settled Response.
Variable toFixed6 : number -> jsstring.
Variable reasonMessage : jsstring -> jsstring.
Variable config : Settings.t.
Variable defaultFile : jsstring.

Lemma loadKMLFile_rejected (file : File) (this this' : KMLParser)
  (st st' : Store) (e : exn) :
  loadKMLFile parseFromString file this st = (Rejected e, this', st') ->
  this' = this /\ st' = st.
Proof.
  unfold loadKMLFile. destruct (fileText file) as [text|e0].
  - intros H. apply loadText_rejected in H. tauto.
  - intros E; injection E as <- <- <-. auto.
Qed.

Lemma loadKMLFromURL_rejected (url : jsstring) (this this' : KMLParser)
  (st st' : Store) (e : exn) :
  loadKMLFromURL parseFromString fetch url this st = (Rejected e, this', st') ->
  this' = this /\ st' = st.
Proof.
  unfold loadKMLFromURL. destruct (fetch url) as [response|e0].
  - destruct (ok response); cbn [negb].
    + destruct (responseText response) as [text|e1].
      * intros H. apply loadText_rejected in H. tauto.
      * intros E; injection E as <- <- <-. auto.
    + intros E; injection E as <- <- <-. auto.
  - intros E; injection E as <- <- <-. auto.
Qed.

Lemma loaded_rejected (this' : KMLParser) (st' : Store) (e : exn)
  (st : RallyTrackViewer.state) :
  this' = RallyTrackViewer.kmlParser (RallyTrackViewer.this st) ->
  st' = RallyTrackViewer.heap st ->
  RallyTrackViewer.loaded toFixed6 config (Rejected e, this', st') st
  = (st, Throws e).
Proof.
  intros -> ->. destruct st as [[p m a b i] h pg]. reflexivity.
Qed.

(** X24.  A load that the parser rejects leaves the viewer as it was:
    its tracks and icons, its parser, every array, the map manager with
    what it displays, and the two counters.  [loadKMLFile] then appends
    one message of the class [message message-error] that reads [Error
    loading KML file: ] followed by the message of the error;
    [autoLoadKML] on a rejected load changes nothing at all and shows no
    message. *)
Theorem failed_load_keeps_the_display
  (file : File) (st : RallyTrackViewer.state) (e : exn)
  (parser' : KMLParser) (store' : Store)
  (Hfail : loadKMLFile parseFromString file
             (RallyTrackViewer.kmlParser (RallyTrackViewer.this st))
             (RallyTrackViewer.heap st)
           = (Rejected e, parser', store')) :
  let st' := RallyTrackViewer.loadKMLFile parseFromString toFixed6
               reasonMessage config file st in
  RallyTrackViewer.this st' = RallyTrackViewer.this st
  /\ RallyTrackViewer.heap st' = RallyTrackViewer.heap st
  /\ RallyTrackViewer.trackCount (RallyTrackViewer.page st')
     = RallyTrackViewer.trackCount (RallyTrackViewer.page st)
  /\ RallyTrackViewer.iconCount (RallyTrackViewer.page st')
     = RallyTrackViewer.iconCount (RallyTrackViewer.page st)
  /\ RallyTrackViewer.messages (RallyTrackViewer.page st')
     = RallyTrackViewer.messages (RallyTrackViewer.page st)
       ++ [(str "Error loading KML file: "
            ++ RallyTrackViewer.messageOf reasonMessage e,
            str "message message-error")]
  /\ (forall (e' : exn) (p : KMLParser) (s : Store),
        loadKMLFromURL parseFromString fetch defaultFile
          (RallyTrackViewer.kmlParser (RallyTrackViewer.this st))
          (RallyTrackViewer.heap st)
        = (Rejected e', p, s) ->
        RallyTrackViewer.autoLoadKML parseFromString fetch toFixed6 config
          defaultFile st = st).
Proof.
  intros st'. unfold st', RallyTrackViewer.loadKMLFile.
  rewrite Hfail. destruct (loadKMLFile_rejected _ _ _ Hfail) as [-> ->].
  rewrite (@loaded_rejected _ _ e st eq_refl eq_refl).
  repeat split.
  intros e' p s Hurl. unfold RallyTrackViewer.autoLoadKML. rewrite Hurl.
  destruct (loadKMLFromURL_rejected _ _ _ Hurl) as [-> ->].
  now rewrite (@loaded_rejected _ _ e' st eq_refl eq_refl).
Qed.

Lemma loadKMLFile_fulfilled (file : File) (text : jsstring)
  (this : KMLParser) (st : Store) :
  fileText file = Fulfilled text ->
  getElementsByTagName (parseFromString text) (str "parsererror") = [] ->
  loadKMLFile parseFromString file this st
  = let '(r, this', st') := parseKML (parseFromString text) this st in
    (Fulfilled r, this', st').
Proof.
  intros Hf Hp. unfold loadKMLFile. rewrite Hf.
  destruct (loadText_cases parseFromString text this st) as [[Hp' _]|[_ ->]];
    [now elim Hp'|reflexivity].
Qed.

(** X25.  When the text of the file is read and parses without a
    [parsererror] element, the coordinates are finite and the map manager
    is consistent, [loadKMLFile] of the viewer ends as follows.  The
    tracks and icons of the viewer are the arrays that [parseKML] returns
    for the document, the very arrays the parser holds.  The track layer
    group holds one polyline for every track of two points or more, the
    icon layer group one marker for every icon, and the manager is still
    consistent.  With a track or an icon the view is fitted to all their
    points.  The counters, where the page has them, read the numbers of
    tracks and of icons, tracks of a single point included, and no
    message is shown. *)
Theorem successful_load_shows_the_document
  (file : File) (text : jsstring) (st : RallyTrackViewer.state)
  (Htext : fileText file = Fulfilled text)
  (Hwell : getElementsByTagName (parseFromString text) (str "parsererror")
           = [])
  (Hcons : consistent (RallyTrackViewer.mapManager (RallyTrackViewer.this st)))
  (Htracks :
     Forall finiteTrack
       (returnedTracks (parseFromString text)
          (RallyTrackViewer.kmlParser (RallyTrackViewer.this st))
          (RallyTrackViewer.heap st)))
  (Hicons :
     Forall finiteIcon
       (returnedIcons (parseFromString text)
          (RallyTrackViewer.kmlParser (RallyTrackViewer.this st))
          (RallyTrackViewer.heap st))) :
  let ts := returnedTracks (parseFromString text)
              (RallyTrackViewer.kmlParser (RallyTrackViewer.this st))
              (RallyTrackViewer.heap st) in
  let cs := returnedIcons (parseFromString text)
              (RallyTrackViewer.kmlParser (RallyTrackViewer.this st))
              (RallyTrackViewer.heap st) in
  let st' := RallyTrackViewer.loadKMLFile parseFromString toFixed6
               reasonMessage config file st in
  let this' := RallyTrackViewer.this st' in
  let manager := RallyTrackViewer.mapManager this' in
  trackArray (RallyTrackViewer.heap st') (RallyTrackViewer.tracks this') = ts
  /\ iconArray (RallyTrackViewer.heap st') (RallyTrackViewer.icons this') = cs
  /\ tracks (RallyTrackViewer.kmlParser this') = RallyTrackViewer.tracks this'
  /\ icons (RallyTrackViewer.kmlParser this') = RallyTrackViewer.icons this'
  /\ MapManager.trackLayerGroup manager
     = Some (map (polylineOf config)
                 (filter (fun e => drawn (snd e)) (positioned ts)))
  /\ MapManager.iconLayerGroup manager
     = Some (map (markerOf toFixed6 config) (positioned cs))
  /\ consistent manager
  /\ (ts <> [] \/ cs <> [] ->
      option_map L.fitted (MapManager.map manager)
      = Some (Some (MapManager.allPoints ts cs)))
  /\ RallyTrackViewer.trackCount (RallyTrackViewer.page st')
     = option_map (fun _ => JSString.ofNat (length ts))
                  (RallyTrackViewer.trackCount (RallyTrackViewer.page st))
  /\ RallyTrackViewer.iconCount (RallyTrackViewer.page st')
     = option_map (fun _ => JSString.ofNat (length cs))
                  (RallyTrackViewer.iconCount (RallyTrackViewer.page st))
  /\ RallyTrackViewer.messages (RallyTrackViewer.page st')
     = RallyTrackViewer.messages (RallyTrackViewer.page st).
Proof.
  intros ts cs st' this' manager.
  destruct st as [[parser m a b i] heap pg].
  cbn [RallyTrackViewer.this RallyTrackViewer.heap RallyTrackViewer.page
       RallyTrackViewer.kmlParser RallyTrackViewer.mapManager] in *.
  assert (Hlen : length ts + length cs <= length (MapManager.allPoints ts cs)).
  { rewrite length_allPoints. apply Nat.add_le_mono_r.
    apply points_at_least_tracks. apply Forall_forall. intros t Ht.
    now destruct (returned_track_named _ _ _ _ Ht). }
  pose proof (parser_after_parseKML (parseFromString text) parser heap) as Hp.
  pose proof (@loadKMLFile_fulfilled file text parser heap Htext Hwell) as Hload.
  fold ts cs in Hp.
  destruct (parseKML (parseFromString text) parser heap) as [[r parser1] heap1]
    eqn:Eparse.
  destruct Hp as (Hts & Hcs & Hrt & Hri).
  pose proof Hcons as (mp & ps & ms & Hmap & Htg & Hig & _).
  subst st' this' manager. unfold RallyTrackViewer.loadKMLFile.
  cbn [RallyTrackViewer.this RallyTrackViewer.heap RallyTrackViewer.kmlParser].
  rewrite Hload. unfold RallyTrackViewer.loaded, RallyTrackViewer.handleKMLLoaded.
  cbn [RallyTrackViewer.this RallyTrackViewer.heap RallyTrackViewer.page
       RallyTrackViewer.kmlParser RallyTrackViewer.mapManager
       RallyTrackViewer.tracks RallyTrackViewer.icons
       RallyTrackViewer.isInitialized].
  rewrite <- Hrt, <- Hri, Hts, Hcs.
  set (polylines := map (polylineOf config)
                        (filter (fun e => drawn (snd e)) (positioned ts))).
  set (markers := map (markerOf toFixed6 config) (positioned cs)).
  set (m1 := MapManager.setTrackLayerGroup (Some polylines) m).
  set (m2 := MapManager.setIconLayerGroup (Some markers) m1).
  assert (Hig1 : MapManager.iconLayerGroup m1 = Some ms) by exact Hig.
  assert (Hmap2 : MapManager.map m2 = Some mp) by exact Hmap.
  assert (Hcons2 : consistent m2)
    by now apply consistent_setIconLayerGroup, consistent_setTrackLayerGroup.
  rewrite (@displayTracks_call config ts m ps Htg Htracks). fold polylines m1.
  cbv iota.
  rewrite (@displayIcons_call toFixed6 config cs m1 ms Hig1 Hicons).
  fold markers m2. cbv iota.
  pose proof (@consistent_fitToContent ts cs m2 Hcons2) as Hfit.
  rewrite (@fitToContent_call ts cs m2 mp Hmap2 Htracks Hicons) in Hfit |- *.
  cbn [fst] in Hfit. cbv iota.
  cbn [RallyTrackViewer.updateCounts RallyTrackViewer.setManager
       RallyTrackViewer.this RallyTrackViewer.heap RallyTrackViewer.page
       RallyTrackViewer.kmlParser RallyTrackViewer.mapManager
       RallyTrackViewer.tracks RallyTrackViewer.icons
       RallyTrackViewer.trackCount RallyTrackViewer.iconCount
       RallyTrackViewer.messages].
  rewrite ?Hts, ?Hcs.
  assert (Hsome : ts <> [] \/ cs <> [] ->
                  (0 <? length (MapManager.allPoints ts cs)) = true).
  { intros Hs. apply Nat.ltb_lt. destruct Hs as [Hs|Hs].
    - destruct ts; [contradiction|]. cbn [length] in Hlen. lia.
    - destruct cs; [contradiction|]. cbn [length] in Hlen. lia. }
  repeat split.
  - now destruct (0 <? length (MapManager.allPoints ts cs)).
  - now destruct (0 <? length (MapManager.allPoints ts cs)).
  - exact Hfit.
  - intros Hs. rewrite (Hsome Hs). cbn [MapManager.setMap MapManager.map
      option_map L.fitted]. reflexivity.
Qed.


Lemma consistent_loaded (outcome : settled Result * KMLParser * Store)
  (st : RallyTrackViewer.state) :
  consistent (RallyTrackViewer.mapManager (RallyTrackViewer.this st)) ->
  consistent
    (RallyTrackViewer.mapManager
       (RallyTrackViewer.this
          (fst (RallyTrackViewer.loaded toFixed6 config outcome st))))
  /\ RallyTrackViewer.messages
       (RallyTrackViewer.page
          (fst (RallyTrackViewer.loaded toFixed6 config outcome st)))
     = RallyTrackViewer.messages (RallyTrackViewer.page st)
  /\ RallyTrackViewer.isInitialized
       (RallyTrackViewer.this
          (fst (RallyTrackViewer.loaded toFixed6 config outcome st)))
     = RallyTrackViewer.isInitialized (RallyTrackViewer.this st).
Proof.
  intros Hcons. destruct outcome as [[[r|e] parser] store];
    destruct st as [[p m a b i] heap pg];
    cbn [RallyTrackViewer.loaded RallyTrackViewer.this RallyTrackViewer.heap
         RallyTrackViewer.page RallyTrackViewer.kmlParser
         RallyTrackViewer.mapManager RallyTrackViewer.tracks
         RallyTrackViewer.icons RallyTrackViewer.isInitialized fst] in *;
    [|auto].
  unfold RallyTrackViewer.handleKMLLoaded.
  cbn [RallyTrackViewer.this RallyTrackViewer.heap RallyTrackViewer.page
       RallyTrackViewer.kmlParser RallyTrackViewer.mapManager
       RallyTrackViewer.tracks RallyTrackViewer.icons
       RallyTrackViewer.isInitialized].
  set (ts := trackArray store (resTracks r)).
  set (cs := iconArray store (resIcons r)).
  pose proof (@consistent_displayTracks config (Some ts) m Hcons) as H1.
  destruct (MapManager.displayTracks config (Some ts) m) as [m1 [|e1]];
    cbn [fst] in H1; [|auto].
  pose proof (@consistent_displayIcons toFixed6 config (Some cs) m1 H1) as H2.
  destruct (MapManager.displayIcons toFixed6 config (Some cs) m1)
    as [m2 [|e2]]; cbn [fst] in H2; [|auto].
  pose proof (@consistent_fitToContent ts cs m2 H2) as H3.
  destruct (MapManager.fitToContent ts cs m2) as [m3 [|e3]];
    cbn [fst] in H3; auto.
Qed.

(** X26.  [init] on a viewer just constructed, on a page that has the
    element of the map, always ends with [isInitialized] set, a consistent
    map manager and no message, whatever the request for the default file
    gives, whatever the parsing of its text gives and whether or not
    displaying it throws.  On a page without the element the viewer is
    left as constructed, [isInitialized] not set, and the default file is
    not asked for. *)
Theorem viewer_init_needs_the_map_only
  (store : Store) (pg : RallyTrackViewer.Page) :
  let fresh := RallyTrackViewer.construct store pg in
  let st := RallyTrackViewer.init parseFromString fetch toFixed6 config
              defaultFile fresh in
  (RallyTrackViewer.mapContainer pg = true ->
   RallyTrackViewer.isInitialized (RallyTrackViewer.this st) = true
   /\ consistent (RallyTrackViewer.mapManager (RallyTrackViewer.this st))
   /\ RallyTrackViewer.messages (RallyTrackViewer.page st)
      = RallyTrackViewer.messages pg)
  /\ (RallyTrackViewer.mapContainer pg = false -> st = fresh).
Proof.
  intros fresh st. subst st fresh.
  unfold RallyTrackViewer.init, RallyTrackViewer.construct.
  cbn [construct newTrackArray newIconArray RallyTrackViewer.this
       RallyTrackViewer.mapManager RallyTrackViewer.page].
  split; intros Hpage; rewrite Hpage; [|reflexivity].
  destruct (init_fresh config (str "map"))
    as (m & Hinit & Hcons & _).
  rewrite Hinit. unfold RallyTrackViewer.autoLoadKML.
  match goal with
  | |- context [RallyTrackViewer.loaded _ _ ?o ?s] =>
      destruct (@consistent_loaded o s Hcons) as (H1 & H2 & _)
  end.
  cbn [RallyTrackViewer.this RallyTrackViewer.isInitialized
       RallyTrackViewer.mapManager RallyTrackViewer.page].
  split; [reflexivity|]. split; [exact H1|exact H2].
Qed.

End ViewerFacts.


Lemma failed_load_keeps_the_display_witness :
  RallyTrackViewer.this
    (RallyTrackViewer.loadKMLFile shortAndLongParser sampleToFixed6
       (fun reason => reason) sampleSettings unreadableFile sampleViewer)
  = RallyTrackViewer.this sampleViewer.
Proof.
  exact (proj1 (@failed_load_keeps_the_display shortAndLongParser
                  (fun _ => Rejected (Error (str "offline")))
                  sampleToFixed6 (fun reason => reason) sampleSettings
                  (str "tracks.kml") unreadableFile sampleViewer _ _ _
                  eq_refl)).
Defined.

Lemma successful_load_shows_the_document_witness :
  RallyTrackViewer.trackCount
    (RallyTrackViewer.page
       (RallyTrackViewer.loadKMLFile shortAndLongParser sampleToFixed6
          (fun reason => reason) sampleSettings readableFile sampleViewer))
  = Some (str "2").
Proof.
  destruct (@successful_load_shows_the_document shortAndLongParser
              sampleToFixed6 (fun reason => reason) sampleSettings
              readableFile (str "<kml/>") sampleViewer eq_refl eq_refl)
    as (_ & _ & _ & _ & _ & _ & _ & _ & Hcount & _).
  - exact sampleManager_consistent.
  - vm_compute. repeat constructor.
  - vm_compute. repeat constructor.
  - rewrite Hcount. vm_compute. reflexivity.
Defined.
